(** * A GFS-like distributed file system: coordinator, data nodes, client

    A shallow embedding of the Go sources
      common/utils.go, master/metadata.go, master/server.go,
      chunkserver/storage.go, chunkserver/server.go, client/client.go
    followed by the properties of the specification that can be stated
    about them, and by further properties of the code.

    Conventions.
    - Go's [int] and [int64] are 64-bit two's-complement integers (the
      sources target amd64); [int32] is 32-bit.  They are modelled as [Z]
      with the wrap-around written out where a conversion or an increment
      occurs ([int32], [wrap64]).
    - Go strings are byte strings: [string].  [[]byte] is [list byte].
    - A run-time panic of the Go program is the result [Panic].
    - Locks are not modelled: every method of [Metadata] and [Storage]
      runs to completion under its mutex, so each one is one atomic step.
    - A remote call is the call of the handler on the state of the
      process that listens at the address, or a failure when no process
      listens there; deadlines are not modelled.  The report that a data
      node sets off in a goroutine after a write is a message in flight
      ([pending]) until the coordinator receives it ([deliver]).
    - What the run time chooses (the clock, the order of a walk over a
      map) is an argument of the function that depends on it; so is what
      the system answers when a data node makes and lists its directory.
    - Of the log only the client's lines on replica reads and writes are
      kept.  Memory is unbounded. *)

From Stdlib Require Import ZArith List Lia.
From Stdlib Require Import Strings.Byte Strings.Ascii Strings.String.
From stdpp Require Import gmap strings list fin_maps pretty.

Open Scope Z_scope.

(** ** crypto/sha256

    [Sum256] of the Go standard library, written out from FIPS 180-4 over
    32-bit words held in [Z]. *)
Module sha256.

Definition w32 (z : Z) : Z := z mod 2 ^ 32.
Definition add32 (a b : Z) : Z := w32 (a + b).
Definition rotr (n x : Z) : Z :=
  Z.lor (Z.shiftr x n) (w32 (Z.shiftl x (32 - n))).
Definition not32 (x : Z) : Z := w32 (Z.lnot x).

Definition Ch (x y z : Z) : Z := Z.lxor (Z.land x y) (Z.land (not32 x) z).
Definition Maj (x y z : Z) : Z :=
  Z.lxor (Z.lxor (Z.land x y) (Z.land x z)) (Z.land y z).
Definition bsig0 (x : Z) : Z := Z.lxor (Z.lxor (rotr 2 x) (rotr 13 x)) (rotr 22 x).
Definition bsig1 (x : Z) : Z := Z.lxor (Z.lxor (rotr 6 x) (rotr 11 x)) (rotr 25 x).
Definition ssig0 (x : Z) : Z := Z.lxor (Z.lxor (rotr 7 x) (rotr 18 x)) (Z.shiftr x 3).
Definition ssig1 (x : Z) : Z := Z.lxor (Z.lxor (rotr 17 x) (rotr 19 x)) (Z.shiftr x 10).

(** The first [n] primes, by trial division. *)
Definition is_prime (p : Z) : bool :=
  forallb (fun d => negb (p mod Z.of_nat d =? 0)) (seq 2 (Z.to_nat p - 2)).
Definition primes (n : nat) : list Z :=
  firstn n (List.filter is_prime (map Z.of_nat (seq 2 400))).

(** The integer part of the cube root of a number below [2 ^ 108], one
    bit at a time. *)
Definition cbrt (x : Z) : Z :=
  fold_left (fun r b => let r' := r + 2 ^ Z.of_nat b in
                        if r' * r' * r' <=? x then r' else r)
            (rev (seq 0 36)) 0.

(** The round constants: the first 32 bits of the fractional parts of the
    cube roots of the first 64 primes. *)
Definition K : list Z :=
  Eval vm_compute in map (fun p => w32 (cbrt (p * 2 ^ 96))) (primes 64).

(** The initial hash value: the first 32 bits of the fractional parts of
    the square roots of the first 8 primes. *)
Definition H0 : list Z :=
  Eval vm_compute in map (fun p => w32 (Z.sqrt (p * 2 ^ 64))) (primes 8).

(** Big-endian bytes of a word, and back. *)
Definition be_bytes (n : nat) (z : Z) : list Z :=
  map (fun i => Z.shiftr z (8 * Z.of_nat i) mod 256) (rev (seq 0 n)).
Definition be_word (bs : list Z) : Z :=
  fold_left (fun acc b => acc * 256 + b) bs 0.

(** The message followed by 0x80, zeros up to 56 mod 64, and the bit
    length on eight bytes. *)
Definition pad (msg : list Z) : list Z :=
  let len := Z.of_nat (length msg) in
  let zeros := Z.to_nat ((55 - len) mod 64) in
  msg ++ [0x80] ++ repeat 0 zeros ++ be_bytes 8 ((8 * len) mod 2 ^ 64).

(** Cuts a list into pieces of [n] elements; [fuel] bounds the number of
    pieces. *)
Fixpoint pieces {A} (n : nat) (fuel : nat) (l : list A) : list (list A) :=
  match fuel, l with
  | O, _ | _, [] => []
  | S fuel', _ => firstn n l :: pieces n fuel' (skipn n l)
  end.

(** The message schedule, most recent word first. *)
Fixpoint schedule (n : nat) (rw : list Z) : list Z :=
  match n with
  | O => rw
  | S n' =>
      let w := add32 (add32 (ssig1 (nth 1 rw 0)) (nth 6 rw 0))
                     (add32 (ssig0 (nth 14 rw 0)) (nth 15 rw 0)) in
      schedule n' (w :: rw)
  end.

Definition round (st : list Z) (kw : Z * Z) : list Z :=
  match st with
  | [a; b; c; d; e; f; g; h] =>
      let t1 := add32 (add32 (add32 h (bsig1 e)) (add32 (Ch e f g) (fst kw))) (snd kw) in
      let t2 := add32 (bsig0 a) (Maj a b c) in
      [add32 t1 t2; a; b; c; add32 d t1; e; f; g]
  | _ => st
  end.

Definition block (st : list Z) (blk : list Z) : list Z :=
  let w16 := map be_word (pieces 4 16 blk) in
  let w := rev (schedule 48 (rev w16)) in
  let st' := fold_left round (combine K w) st in
  map (fun p => add32 (fst p) (snd p)) (combine st st').

(** [Sum256]: the 32 bytes of the digest. *)
Definition Sum256 (data : list Z) : list Z :=
  let p := pad data in
  let st := fold_left block (pieces 64 (length p) p) H0 in
  concat (map (be_bytes 4) st).

End sha256.

(** ** fmt *)
Module fmt.

Definition byte_Z (b : byte) : Z := Z.of_N (Byte.to_N b).

Definition hexdigit (d : Z) : ascii :=
  nth (Z.to_nat d)
      (list_ascii_of_string "0123456789abcdef") "0"%char.

(** The verb [%x] on a byte slice: two lower-case digits a byte. *)
Fixpoint hex (bs : list Z) : string :=
  match bs with
  | [] => EmptyString
  | b :: bs' => String (hexdigit (b / 16)) (String (hexdigit (b mod 16)) (hex bs'))
  end.

(** The verb [%d]. *)
Definition dec (z : Z) : string := pretty z.

End fmt.

(** ** common/utils.go *)
Module common.

(** ChunkSize is the size of each chunk in bytes (64MB). *)
Definition ChunkSize : Z := 64 * 1024 * 1024.

(** ReplicationFactor is the number of replicas for each chunk. *)
Definition ReplicationFactor : Z := 3.

Definition MasterAddress : string := "localhost:8000".

Definition wrap64 (z : Z) : Z := (z + 2 ^ 63) mod 2 ^ 64 - 2 ^ 63.
Definition int32 (z : Z) : Z := (z + 2 ^ 31) mod 2 ^ 32 - 2 ^ 31.

(** GenerateChunkHandle: the first 16 bytes of the SHA-256 of
    [filename-chunkIndex], in hexadecimal. *)
Definition GenerateChunkHandle (filename : string) (chunkIndex : Z) : string :=
  let data := filename +:+ "-" +:+ fmt.dec chunkIndex in
  let hash := sha256.Sum256 (map fmt.byte_Z (list_byte_of_string data)) in
  fmt.hex (firstn 16 hash).

(** CalculateNumChunks: Go's [/] and [%] truncate towards zero
    ([Z.quot], [Z.rem]). *)
Definition CalculateNumChunks (filesize : Z) : Z :=
  let numChunks := Z.quot filesize ChunkSize in
  let numChunks :=
    if negb (Z.rem filesize ChunkSize =? 0) then wrap64 (numChunks + 1)
    else numChunks in
  numChunks.

End common.

(** The digest of "abc", as in FIPS 180-4, and the handle of chunk 0 of
    "h.txt". *)
Example Sum256_abc :
  fmt.hex (sha256.Sum256 (map fmt.byte_Z (list_byte_of_string "abc")))
    = "ba7816bf8f01cfea414140de5dae2223b00361a396177a9cb410ff61f20015ad".
Proof. vm_compute. reflexivity. Qed.

Example GenerateChunkHandle_h_txt_0 :
  common.GenerateChunkHandle "h.txt" 0 = "0bcc17403e59c64cbfc330d225411cc6".
Proof. vm_compute. reflexivity. Qed.

(** ** time *)
Module time.

(** An instant, in nanoseconds since the epoch; a [Duration] is an
    [int64] of nanoseconds. *)
Definition Second : Z := 1000000000.
Definition minDuration : Z := - 2 ^ 63.
Definition maxDuration : Z := 2 ^ 63 - 1.

(** [t.Sub(u)]: the difference, saturated to the range of [Duration]. *)
Definition Sub (t u : Z) : Z :=
  let d := t - u in
  if d <? minDuration then minDuration
  else if maxDuration <? d then maxDuration
  else d.

End time.

(** What a call gives back: a value, a Go [error], or a run-time panic. *)
Inductive result (E A : Type) : Type :=
| Ok (a : A)
| Err (e : E)
| Panic.
Arguments Ok {E A} a.
Arguments Err {E A} e.
Arguments Panic {E A}.

(** What the Go run time decides during one call: the successive readings
    of [time.Now()] and the successive orders in which [range] walks a
    map (Go leaves the order unspecified and varies it between loops). *)
Record Runtime : Type := {
  clock : nat -> Z;
  order : nat -> list string
}.

(** ** proto: the messages that carry more than one field *)
Module pb.

Record ChunkLocation : Type := {
  ChunkHandle : string;
  ChunkServerAddresses : list string;
  ChunkIndex : Z
}.

Record FileInfo : Type := {
  Filename : string;
  Filesize : Z;
  NumChunks : Z
}.

(** [DownloadFileResponse{Filesize, ChunkLocation}]. *)
Record DownloadFileResponse : Type := {
  RespFilesize : Z;
  RespChunkLocation : list ChunkLocation
}.

End pb.

(** ** master/metadata.go and master/server.go *)
Module master.

(** FileMetadata represents metadata for a file. *)
Record FileMetadata : Type := {
  Filename : string;
  Filesize : Z;
  ChunkCount : Z;
  Chunks : list string;
  CreatedAt : Z
}.

(** ChunkMetadata represents metadata for a chunk ([ChunkFilename] is
    its field [Filename]). *)
Record ChunkMetadata : Type := {
  ChunkHandle : string;
  Locations : list string;
  Version : Z;
  ChunkFilename : string;
  ChunkIndex : Z
}.

(** ChunkServerInfo represents a chunk server ([ServerChunks] is its
    field [Chunks]). *)
Record ChunkServerInfo : Type := {
  Address : string;
  LatestHeartbeat : Z;
  ServerChunks : list string
}.

(** Metadata manages all the metadata for the dfs.

    [files] is a [map[string]*FileMetadata]: it holds pointers, and
    [GetFile] and [ListFiles] hand these pointers out.  The records they
    point to live in [heap]; a record that [files] no longer names stays
    there for whoever still holds its pointer.  The chunk and server
    records are held by value: no operation below is observed through a
    retained pointer to one of them. *)
Record Metadata : Type := {
  files : gmap string positive;
  heap : gmap positive FileMetadata;
  chunks : gmap string ChunkMetadata;
  chunkServers : gmap string ChunkServerInfo
}.

Module metadata.

Definition NewMetadata : Metadata :=
  {| files := ∅; heap := ∅; chunks := ∅; chunkServers := ∅ |}.

(** AddFile adds a new File to the metadata.  [make([]string, 0,
    chunkCount)] panics on a negative capacity, before the map is
    touched; the new record gets an address no live record has. *)
Definition AddFile (m : Metadata) (now : Z)
    (filename : string) (filesize : Z) (chunkCount : Z) : option Metadata :=
  if chunkCount <? 0 then None
  else
    let p := fresh (dom (heap m)) in
    Some {| files := <[filename := p]> (files m);
            heap := <[p := {| Filename := filename;
                              Filesize := filesize;
                              ChunkCount := chunkCount;
                              Chunks := [];
                              CreatedAt := now |}]> (heap m);
            chunks := chunks m;
            chunkServers := chunkServers m |}.

Definition appendChunk (chunkHandle : string) (file : FileMetadata) : FileMetadata :=
  {| Filename := Filename file;
     Filesize := Filesize file;
     ChunkCount := ChunkCount file;
     Chunks := Chunks file ++ [chunkHandle];
     CreatedAt := CreatedAt file |}.

(** AddChunkToFile adds a chunk handle to a file's chunk list: the
    record is updated in place, behind its pointer. *)
Definition AddChunkToFile (m : Metadata) (filename : string) (chunkHandle : string) : Metadata :=
  match files m !! filename with
  | Some p =>
      {| files := files m;
         heap := alter (appendChunk chunkHandle) p (heap m);
         chunks := chunks m;
         chunkServers := chunkServers m |}
  | None => m
  end.

(** AddChunk adds chunk metadata. *)
Definition AddChunk (m : Metadata) (chunkHandle : string) (filename : string)
    (chunkIndex : Z) : Metadata :=
  {| files := files m;
     heap := heap m;
     chunks := <[chunkHandle := {| ChunkHandle := chunkHandle;
                                   Locations := [];
                                   Version := 1;
                                   ChunkFilename := filename;
                                   ChunkIndex := chunkIndex |}]> (chunks m);
     chunkServers := chunkServers m |}.

Definition appendLocation (serverAddress : string) (chunk : ChunkMetadata) : ChunkMetadata :=
  {| ChunkHandle := ChunkHandle chunk;
     Locations := Locations chunk ++ [serverAddress];
     Version := Version chunk;
     ChunkFilename := ChunkFilename chunk;
     ChunkIndex := ChunkIndex chunk |}.

(** AddChunkLocation adds a chunk server location for a chunk; if the
    location already exists it returns, to avoid duplicates. *)
Definition AddChunkLocation (m : Metadata) (chunkHandle : string)
    (serverAddress : string) : Metadata :=
  match chunks m !! chunkHandle with
  | Some chunk =>
      if bool_decide (serverAddress ∈ Locations chunk) then m
      else
        {| files := files m;
           heap := heap m;
           chunks := <[chunkHandle := appendLocation serverAddress chunk]> (chunks m);
           chunkServers := chunkServers m |}
  | None => m
  end.

(** GetFile fetches the file metadata: the pointer held by the map. *)
Definition GetFile (m : Metadata) (filename : string) : option positive :=
  files m !! filename.

(** GetChunk fetches the chunk metadata. *)
Definition GetChunk (m : Metadata) (chunkHandle : string) : option ChunkMetadata :=
  chunks m !! chunkHandle.

(** ListFiles returns all the files: a new slice holding the map's
    pointers, in the order [keys] in which [range] walked the map. *)
Definition ListFiles (m : Metadata) (keys : list string) : list positive :=
  omap (fun filename => files m !! filename) keys.

(** RegisterChunkServer registers/updates a chunk server.  Both
    branches leave the same record under [address]. *)
Definition RegisterChunkServer (m : Metadata) (now : Z)
    (address : string) (handles : list string) : Metadata :=
  let info := {| Address := address; LatestHeartbeat := now; ServerChunks := handles |} in
  match chunkServers m !! address with
  | Some server =>
      {| files := files m; heap := heap m; chunks := chunks m;
         chunkServers :=
           <[address := {| Address := Address server;
                           LatestHeartbeat := now;
                           ServerChunks := handles |}]> (chunkServers m) |}
  | None =>
      {| files := files m; heap := heap m; chunks := chunks m;
         chunkServers := <[address := info]> (chunkServers m) |}
  end.

(** A server counts as available if its heartbeat was updated within
    the last 30 seconds. *)
Definition available (now : Z) (server : ChunkServerInfo) : bool :=
  time.Sub now (LatestHeartbeat server) <? 30 * time.Second.

(** The loop of GetAvailableChunkServers over the keys still to visit,
    [cs] being [m.chunkServers]; the test against [replicationFactor]
    comes after the append. *)
Fixpoint collect (cs : gmap string ChunkServerInfo) (now : Z) (replicationFactor : Z)
    (keys : list string) (servers : list string) : list string :=
  match keys with
  | [] => servers
  | address :: keys' =>
      match cs !! address with
      | Some server =>
          if available now server then
            let servers := servers ++ [address] in
            if Z.of_nat (length servers) >=? replicationFactor then servers
            else collect cs now replicationFactor keys' servers
          else collect cs now replicationFactor keys' servers
      | None => collect cs now replicationFactor keys' servers
      end
  end.

(** GetAvailableChunkServers returns the list of available chunk
    servers.  [make([]string, 0, replicationFactor)] panics on a
    negative capacity. *)
Definition GetAvailableChunkServers (m : Metadata) (now : Z) (keys : list string)
    (replicationFactor : Z) : option (list string) :=
  if replicationFactor <? 0 then None
  else Some (collect (chunkServers m) now replicationFactor keys []).

(** GetAllChunkServers returns all registered chunk servers. *)
Definition GetAllChunkServers (m : Metadata) (keys : list string) : list string :=
  omap (fun address => (fun _ => address) <$> chunkServers m !! address) keys.

End metadata.

Module server.

(** The handlers' errors: [fmt.Errorf("file not found: %s", ...)] and
    [fmt.Errorf("chunk not found: %s", ...)]. *)
Inductive error : Type :=
| file_not_found (filename : string)
| chunk_not_found (chunkHandle : string).

(** The loop of UploadFile, from index [i], with [n] indices to go. *)
Fixpoint allocate (rt : Runtime) (filename : string) (n : nat) (i : Z)
    (m : Metadata) (chunkLocations : list pb.ChunkLocation)
    : Metadata * result error (list pb.ChunkLocation) :=
  match n with
  | O => (m, Ok chunkLocations)
  | S n' =>
      let chunkHandle := common.GenerateChunkHandle filename i in
      let m := metadata.AddChunk m chunkHandle filename (common.int32 i) in
      let m := metadata.AddChunkToFile m filename chunkHandle in
      match metadata.GetAvailableChunkServers m (clock rt (S (Z.to_nat i)))
              (order rt (Z.to_nat i)) common.ReplicationFactor with
      | None => (m, Panic)
      | Some servers =>
          allocate rt filename n' (i + 1) m
            (chunkLocations ++
               [{| pb.ChunkHandle := chunkHandle;
                   pb.ChunkServerAddresses := servers;
                   pb.ChunkIndex := common.int32 i |}])
      end
  end.

(** UploadFile handles file upload requests. *)
Definition UploadFile (rt : Runtime) (m : Metadata) (filename : string) (filesize : Z)
    : Metadata * result error (list pb.ChunkLocation) :=
  let numChunks := common.CalculateNumChunks filesize in
  match metadata.AddFile m (clock rt 0) filename filesize numChunks with
  | None => (m, Panic)
  | Some m => allocate rt filename (Z.to_nat numChunks) 0 m []
  end.

(** The loop of DownloadFile over the file's handles. *)
Fixpoint locate (m : Metadata) (handles : list string)
    (chunkLocations : list pb.ChunkLocation) : result error (list pb.ChunkLocation) :=
  match handles with
  | [] => Ok chunkLocations
  | chunkHandle :: handles' =>
      match metadata.GetChunk m chunkHandle with
      | None => Err (chunk_not_found chunkHandle)
      | Some chunk =>
          locate m handles'
            (chunkLocations ++
               [{| pb.ChunkHandle := chunkHandle;
                   pb.ChunkServerAddresses := Locations chunk;
                   pb.ChunkIndex := ChunkIndex chunk |}])
      end
  end.

(** DownloadFile handles file download requests.  A pointer taken from
    [files] always has its record; the [Panic] is for states no run
    can reach. *)
Definition DownloadFile (m : Metadata) (filename : string)
    : Metadata * result error pb.DownloadFileResponse :=
  match metadata.GetFile m filename with
  | None => (m, Err (file_not_found filename))
  | Some p =>
      match heap m !! p with
      | None => (m, Panic)
      | Some file =>
          match locate m (Chunks file) [] with
          | Ok chunkLocations =>
              (m, Ok {| pb.RespFilesize := Filesize file;
                        pb.RespChunkLocation := chunkLocations |})
          | Err e => (m, Err e)
          | Panic => (m, Panic)
          end
      end
  end.

(** The loop of ListFiles over the pointers it was given. *)
Fixpoint describe (m : Metadata) (ps : list positive) (fileInfos : list pb.FileInfo)
    : result error (list pb.FileInfo) :=
  match ps with
  | [] => Ok fileInfos
  | p :: ps' =>
      match heap m !! p with
      | None => Panic
      | Some file =>
          describe m ps'
            (fileInfos ++
               [{| pb.Filename := Filename file;
                   pb.Filesize := Filesize file;
                   pb.NumChunks := common.int32 (ChunkCount file) |}])
      end
  end.

(** ListFiles handles list files request. *)
Definition ListFiles (m : Metadata) (keys : list string)
    : Metadata * result error (list pb.FileInfo) :=
  (m, describe m (metadata.ListFiles m keys) []).

(** Heartbeat handles chunk server heartbeat; the answer is
    [Success: true]. *)
Definition Heartbeat (m : Metadata) (now : Z) (address : string) (handles : list string)
    : Metadata * result error bool :=
  (metadata.RegisterChunkServer m now address handles, Ok true).

(** ReportChunk handles chunk storage completion reports; the answer
    is [Success: true]. *)
Definition ReportChunk (m : Metadata) (chunkHandle : string) (address : string)
    : Metadata * result error bool :=
  (metadata.AddChunkLocation m chunkHandle address, Ok true).

End server.

End master.

(** ** os: the files of one machine

    [content] maps a path to the bytes of the regular file there;
    [denied] holds the paths on which the system refuses I/O (a directory
    in the way, permissions, a failing disk).  A refused write leaves the
    file as it was. *)
Module os.

Record FS : Type := {
  content : gmap string (list byte);
  denied : gset string
}.

Definition WriteFile (fs : FS) (name : string) (data : list byte) : option FS :=
  if bool_decide (name ∈ denied fs) then None
  else Some {| content := <[name := data]> (content fs); denied := denied fs |}.

Definition ReadFile (fs : FS) (name : string) : option (list byte) :=
  if bool_decide (name ∈ denied fs) then None
  else content fs !! name.

Definition Remove (fs : FS) (name : string) : option FS :=
  if bool_decide (name ∈ denied fs) then None
  else
    match content fs !! name with
    | Some _ => Some {| content := delete name (content fs); denied := denied fs |}
    | None => None
    end.

End os.

(** ** chunkserver/storage.go and chunkserver/server.go *)
Module chunkserver.

(** Storage manages chunk storage on disk; [chunks] is the
    [map[string]bool] of the handles present. *)
Record Storage : Type := {
  storagePath : string;
  chunks : gmap string bool
}.

Inductive error : Type :=
| write_failed          (** "failed to write chunk to disk: %v" *)
| chunk_not_found (chunkHandle : string)  (** "chunk not found: %s" *)
| read_failed           (** "failed to read chunk: %v" *)
| delete_failed.        (** "failed to delete chunk: %v" *)

Section storage.

(** [filepath.Join], the library's; nothing is assumed of it. *)
Variable Join : string -> string -> string.

(** [s.chunks[chunkHandle]]: a missing key reads as [false]. *)
Definition present (s : Storage) (chunkHandle : string) : bool :=
  default false (chunks s !! chunkHandle).

(** WriteChunk writes chunk data to disk. *)
Definition Storage_WriteChunk (s : Storage) (fs : os.FS)
    (chunkHandle : string) (data : list byte) : Storage * os.FS * option error :=
  let chunkPath := Join (storagePath s) chunkHandle in
  match os.WriteFile fs chunkPath data with
  | None => (s, fs, Some write_failed)
  | Some fs' =>
      ({| storagePath := storagePath s;
          chunks := <[chunkHandle := true]> (chunks s) |}, fs', None)
  end.

(** ReadChunk reads chunk data from disk. *)
Definition Storage_ReadChunk (s : Storage) (fs : os.FS) (chunkHandle : string)
    : result error (list byte) :=
  if negb (present s chunkHandle) then Err (chunk_not_found chunkHandle)
  else
    let chunkPath := Join (storagePath s) chunkHandle in
    match os.ReadFile fs chunkPath with
    | None => Err read_failed
    | Some data => Ok data
    end.

(** HasChunk checks if a chunk exists. *)
Definition Storage_HasChunk (s : Storage) (chunkHandle : string) : bool :=
  present s chunkHandle.

(** ListChunks returns all chunk handles, in the order [keys] of the
    walk over the map. *)
Definition Storage_ListChunks (s : Storage) (keys : list string) : list string :=
  omap (fun chunkHandle => (fun _ => chunkHandle) <$> chunks s !! chunkHandle) keys.

(** DeleteChunk deletes a chunk from disk. *)
Definition Storage_DeleteChunk (s : Storage) (fs : os.FS) (chunkHandle : string)
    : Storage * os.FS * option error :=
  let chunkPath := Join (storagePath s) chunkHandle in
  match os.Remove fs chunkPath with
  | None => (s, fs, Some delete_failed)
  | Some fs' =>
      ({| storagePath := storagePath s;
          chunks := delete chunkHandle (chunks s) |}, fs', None)
  end.

(** Server.WriteChunk handles chunk write requests.  On success it
    starts [go s.reportChunkToMaster(req.ChunkHandle)]: the last
    component is the handle of the report it sets off, if any. *)
Definition WriteChunk (s : Storage) (fs : os.FS) (chunkHandle : string)
    (data : list byte) : Storage * os.FS * result error bool * option string :=
  match Storage_WriteChunk s fs chunkHandle data with
  | (s', fs', Some err) => (s', fs', Err err, None)
  | (s', fs', None) => (s', fs', Ok true, Some chunkHandle)
  end.

(** Server.ReadChunk handles read chunk requests. *)
Definition ReadChunk (s : Storage) (fs : os.FS) (chunkHandle : string)
    : result error (list byte) :=
  Storage_ReadChunk s fs chunkHandle.

End storage.

End chunkserver.

(** ** The running system

    One coordinator, the data nodes by the address they listen on, the
    chunk reports that data nodes have set off and the coordinator has not
    yet received, the client's own files and the client's log. *)
Record Node : Type := {
  store : chunkserver.Storage;
  disk : os.FS
}.

(** The lines of the client's log that tell how a replica answered. *)
Inductive event : Type :=
| write_warning (serverAddr : string)       (** "Warning: failed to write chunk to %s: %v" *)
| write_done (chunkIndex : Z) (serverAddr : string)  (** "Successfully wrote chunk %d to %s" *)
| read_warning (serverAddr : string)        (** "Warning: failed to read chunk from %s: %v" *)
| read_done (chunkIndex : Z) (serverAddr : string).  (** "Successfully read chunk %d from %s" *)

Record World : Type := {
  masterUp : bool;
  coordinator : master.Metadata;
  nodes : gmap string Node;
  pending : list (string * string);
  localfs : os.FS;
  clientLog : list event
}.

(** The coordinator receives one report [(handle, address)]; a report
    that cannot reach it is dropped. *)
Definition deliver (w : World) (report : string * string) : World :=
  {| masterUp := masterUp w;
     coordinator :=
       if masterUp w
       then fst (master.server.ReportChunk (coordinator w) (fst report) (snd report))
       else coordinator w;
     nodes := nodes w;
     pending := pending w;
     localfs := localfs w;
     clientLog := clientLog w |}.

(** All reports in flight arrive, in the order [reports]. *)
Definition settle (w : World) (reports : list (string * string)) : World :=
  let w' := fold_left deliver reports w in
  {| masterUp := masterUp w';
     coordinator := coordinator w';
     nodes := nodes w';
     pending := [];
     localfs := localfs w';
     clientLog := clientLog w' |}.

(** The data nodes at the addresses [down] stop: nobody listens there
    any more. *)
Definition unplug (w : World) (down : gset string) : World :=
  {| masterUp := masterUp w;
     coordinator := coordinator w;
     nodes := filter (fun kv => kv.1 ∉ down) (nodes w);
     pending := pending w;
     localfs := localfs w;
     clientLog := clientLog w |}.

(** ** client/client.go *)
Module client.

Inductive error : Type :=
| read_file_failed                 (** "failed to read file: %v" *)
| request_upload_failed            (** "failed to request file upload: %v" *)
| upload_chunk_failed (chunkIndex : Z)   (** "failed to upload chunk %d: %v" *)
| request_download_failed          (** "failed to request download: %v" *)
| download_chunk_failed (chunkIndex : Z) (** "failed to download chunk %d: %v" *)
| write_file_failed.               (** "failed to write file: %v" *)

Definition logged (w : World) (e : event) : World :=
  {| masterUp := masterUp w; coordinator := coordinator w; nodes := nodes w;
     pending := pending w; localfs := localfs w;
     clientLog := clientLog w ++ [e] |}.

(** [fileData[start:end]]: panics unless [0 <= start <= end]
    ([end <= cap] holds where it is used). *)
Definition slice {A} (l : list A) (start end_ : Z) : option (list A) :=
  if (0 <=? start) && (start <=? end_)
  then Some (take (Z.to_nat (end_ - start)) (drop (Z.to_nat start) l))
  else None.

(** [copy(dst[start:], src)]: panics unless [0 <= start <= len(dst)];
    copies as many bytes as both sides have. *)
Definition copy_at {A} (dst : list A) (start : Z) (src : list A) : option (list A) :=
  if (0 <=? start) && (start <=? Z.of_nat (length dst))
  then
    let s := Z.to_nat start in
    let n := Nat.min (length src) (length dst - s) in
    Some (take s dst ++ take n src ++ drop (s + n) dst)
  else None.

Section client.

Variable Join : string -> string -> string.

(** writeChunkToServer writes chunk data to a specific chunk server:
    [true] when the call returned no error.  The node, once it has the
    chunk on disk, sets off its report to the coordinator. *)
Definition writeChunkToServer (w : World) (serverAddr : string) (chunkHandle : string)
    (data : list byte) (chunkIndex : Z) : World * bool :=
  match nodes w !! serverAddr with
  | None => (w, false)
  | Some node =>
      match chunkserver.WriteChunk Join (store node) (disk node) chunkHandle data with
      | (s', fs', res, report) =>
          ({| masterUp := masterUp w;
              coordinator := coordinator w;
              nodes := <[serverAddr := {| store := s'; disk := fs' |}]> (nodes w);
              pending :=
                match report with
                | Some h => pending w ++ [(h, serverAddr)]
                | None => pending w
                end;
              localfs := localfs w;
              clientLog := clientLog w |},
           match res with Ok _ => true | _ => false end)
      end
  end.

(** The loop of uploadChunk over the replica servers. *)
Fixpoint writeReplicas (w : World) (addrs : list string) (chunkHandle : string)
    (chunkData : list byte) (chunkIndex : Z) : World :=
  match addrs with
  | [] => w
  | serverAddr :: addrs' =>
      let (w, ok) := writeChunkToServer w serverAddr chunkHandle chunkData chunkIndex in
      let w :=
        if ok then logged w (write_done chunkIndex serverAddr)
        else logged w (write_warning serverAddr) in
      writeReplicas w addrs' chunkHandle chunkData chunkIndex
  end.

(** uploadChunk uploads a single chunk to chunk servers. *)
Definition uploadChunk (w : World) (fileData : list byte) (chunkLoc : pb.ChunkLocation)
    : World * result error unit :=
  let chunkIndex := pb.ChunkIndex chunkLoc in
  let start := common.wrap64 (chunkIndex * common.ChunkSize) in
  let end_ := Z.min (common.wrap64 (start + common.ChunkSize))
                    (Z.of_nat (length fileData)) in
  match slice fileData start end_ with
  | None => (w, Panic)
  | Some chunkData =>
      (writeReplicas w (pb.ChunkServerAddresses chunkLoc) (pb.ChunkHandle chunkLoc)
         chunkData chunkIndex, Ok tt)
  end.

(** The loop of UploadFile over the chunk locations. *)
Fixpoint uploadChunks (w : World) (data : list byte) (chunkLocs : list pb.ChunkLocation)
    : World * result error unit :=
  match chunkLocs with
  | [] => (w, Ok tt)
  | chunkLoc :: chunkLocs' =>
      match uploadChunk w data chunkLoc with
      | (w, Ok _) => uploadChunks w data chunkLocs'
      | (w, Err _) => (w, Err (upload_chunk_failed (pb.ChunkIndex chunkLoc)))
      | (w, Panic) => (w, Panic)
      end
  end.

Definition withCoordinator (w : World) (m : master.Metadata) (up : bool) : World :=
  {| masterUp := up; coordinator := m; nodes := nodes w; pending := pending w;
     localfs := localfs w; clientLog := clientLog w |}.

(** UploadFile uploads a file to the dfs.  A coordinator that cannot
    be reached, or that dies in the handler, makes the request fail. *)
Definition UploadFile (rt : Runtime) (w : World) (localPath remoteName : string)
    : World * result error unit :=
  match os.ReadFile (localfs w) localPath with
  | None => (w, Err read_file_failed)
  | Some data =>
      let filesize := Z.of_nat (length data) in
      if negb (masterUp w) then (w, Err request_upload_failed)
      else
        match master.server.UploadFile rt (coordinator w) remoteName filesize with
        | (m, Ok chunkLocations) =>
            uploadChunks (withCoordinator w m true) data chunkLocations
        | (m, Err _) => (withCoordinator w m true, Err request_upload_failed)
        | (m, Panic) => (withCoordinator w m false, Err request_upload_failed)
        end
  end.

(** readChunkFromServer reads chunk data from a specific chunk server. *)
Definition readChunkFromServer (w : World) (serverAddr chunkHandle : string)
    : option (list byte) :=
  match nodes w !! serverAddr with
  | None => None
  | Some node =>
      match chunkserver.ReadChunk Join (store node) (disk node) chunkHandle with
      | Ok data => Some data
      | _ => None
      end
  end.

(** The loop of downloadChunk: each server in turn until one answers. *)
Fixpoint readReplicas (w : World) (addrs : list string) (chunkHandle : string)
    (chunkIndex : Z) : World * option (list byte) :=
  match addrs with
  | [] => (w, None)
  | serverAddr :: addrs' =>
      match readChunkFromServer w serverAddr chunkHandle with
      | None => readReplicas (logged w (read_warning serverAddr)) addrs' chunkHandle chunkIndex
      | Some data => (logged w (read_done chunkIndex serverAddr), Some data)
      end
  end.

(** downloadChunk downloads a single chunk from the chunk servers. *)
Definition downloadChunk (w : World) (chunkLoc : pb.ChunkLocation)
    : World * option (list byte) :=
  readReplicas w (pb.ChunkServerAddresses chunkLoc) (pb.ChunkHandle chunkLoc)
    (pb.ChunkIndex chunkLoc).

(** The loop of DownloadFile over the chunk locations. *)
Fixpoint downloadChunks (w : World) (chunkLocs : list pb.ChunkLocation)
    (fileData : list byte) : World * result error (list byte) :=
  match chunkLocs with
  | [] => (w, Ok fileData)
  | chunkLoc :: chunkLocs' =>
      match downloadChunk w chunkLoc with
      | (w, None) => (w, Err (download_chunk_failed (pb.ChunkIndex chunkLoc)))
      | (w, Some chunkData) =>
          let chunkIndex := pb.ChunkIndex chunkLoc in
          let start := common.wrap64 (chunkIndex * common.ChunkSize) in
          match copy_at fileData start chunkData with
          | None => (w, Panic)
          | Some fileData => downloadChunks w chunkLocs' fileData
          end
      end
  end.

Definition withLocal (w : World) (fs : os.FS) : World :=
  {| masterUp := masterUp w; coordinator := coordinator w; nodes := nodes w;
     pending := pending w; localfs := fs; clientLog := clientLog w |}.

(** DownloadFile downloads a file from the DFS.  [make([]byte,
    response.Filesize)] panics on a negative length. *)
Definition DownloadFile (w : World) (remoteName localPath : string)
    : World * result error unit :=
  if negb (masterUp w) then (w, Err request_download_failed)
  else
    match master.server.DownloadFile (coordinator w) remoteName with
    | (m, Ok response) =>
        let w := withCoordinator w m true in
        if pb.RespFilesize response <? 0 then (w, Panic)
        else
          let fileData := replicate (Z.to_nat (pb.RespFilesize response)) x00%byte in
          match downloadChunks w (pb.RespChunkLocation response) fileData with
          | (w, Ok fileData) =>
              match os.WriteFile (localfs w) localPath fileData with
              | None => (w, Err write_file_failed)
              | Some fs => (withLocal w fs, Ok tt)
              end
          | (w, Err e) => (w, Err e)
          | (w, Panic) => (w, Panic)
          end
    | (m, Err _) => (withCoordinator w m true, Err request_download_failed)
    | (m, Panic) => (withCoordinator w m false, Err request_download_failed)
    end.

End client.

End client.

(** ** chunkserver/server.go: a data node starts, and sends its heartbeat *)
Module datanode.

(** What [os.ReadDir] tells of an entry. *)
Record DirEntry : Type := {
  Name : string;
  IsDir : bool
}.

Inductive error : Type :=
| mkdir_failed      (** "failed to create storage dictionary: %v" *)
| load_failed.      (** "failed to load existing chunks: %v" *)

(** The loop of loadExistingChunks over the entries of the directory. *)
Definition note (s : chunkserver.Storage) (file : DirEntry) : chunkserver.Storage :=
  if negb (IsDir file)
  then {| chunkserver.storagePath := chunkserver.storagePath s;
          chunkserver.chunks := <[Name file := true]> (chunkserver.chunks s) |}
  else s.

(** loadExistingChunks scans the storage directory for existing
    chunks; [listing] is what [os.ReadDir(s.storagePath)] answers, [None]
    for an error. *)
Definition loadExistingChunks (s : chunkserver.Storage) (listing : option (list DirEntry))
    : option chunkserver.Storage :=
  match listing with
  | None => None
  | Some files => Some (fold_left note files s)
  end.

(** NewStorage creates a new storage manager; [mkdir] tells whether
    [os.MkdirAll(storagePath, 0755)] went through. *)
Definition NewStorage (storagePath : string) (mkdir : bool)
    (listing : option (list DirEntry)) : result error chunkserver.Storage :=
  if negb mkdir then Err mkdir_failed
  else
    match loadExistingChunks {| chunkserver.storagePath := storagePath;
                                chunkserver.chunks := ∅ |} listing with
    | None => Err load_failed
    | Some storage => Ok storage
    end.

(** sendHeartbeat sends heartbeat to master: the node at [address]
    lists its chunks, walking its map in the order [keys], and the
    coordinator, if it can be reached, registers them at its time [now].
    A failure is logged by the node and changes nothing. *)
Definition sendHeartbeat (w : World) (address : string) (keys : list string) (now : Z)
    : World :=
  match nodes w !! address with
  | None => w
  | Some node =>
      let chunks := chunkserver.Storage_ListChunks (store node) keys in
      if masterUp w
      then {| masterUp := masterUp w;
              coordinator :=
                fst (master.server.Heartbeat (coordinator w) now address chunks);
              nodes := nodes w;
              pending := pending w;
              localfs := localfs w;
              clientLog := clientLog w |}
      else w
  end.

End datanode.

(** Client.ListFiles lists all the files in the DFS, the coordinator
    walking its map in the order [keys]. *)
Inductive list_error : Type :=
| list_files_failed.   (** "failed to list files: %v" *)

Definition Client_ListFiles (w : World) (keys : list string)
    : World * result list_error (list pb.FileInfo) :=
  if negb (masterUp w) then (w, Err list_files_failed)
  else
    match master.server.ListFiles (coordinator w) keys with
    | (m, Ok fileInfos) => (client.withCoordinator w m true, Ok fileInfos)
    | (m, Err _) => (client.withCoordinator w m true, Err list_files_failed)
    | (m, Panic) => (client.withCoordinator w m false, Err list_files_failed)
    end.

(** * Properties *)

Import master.

(** ** Numbers of chunks *)

Lemma ChunkSize_eq : common.ChunkSize = 67108864.
Proof. reflexivity. Qed.

Lemma wrap64_id z : - 2 ^ 63 <= z < 2 ^ 63 -> common.wrap64 z = z.
Proof.
  intros Hz. unfold common.wrap64.
  rewrite Z.mod_small by lia. lia.
Qed.

Lemma int32_id z : - 2 ^ 31 <= z < 2 ^ 31 -> common.int32 z = z.
Proof.
  intros Hz. unfold common.int32.
  rewrite Z.mod_small by lia. lia.
Qed.

(** On a size that is not negative, [CalculateNumChunks] is the ceiling
    of [size / ChunkSize]: the least [n] with [size <= n * ChunkSize]. *)
Lemma CalculateNumChunks_ceil size :
  0 <= size < 2 ^ 63 ->
  let n := common.CalculateNumChunks size in
  0 <= n /\ (n - 1) * common.ChunkSize < size <= n * common.ChunkSize.
Proof.
  intros Hs. unfold common.CalculateNumChunks. cbv zeta.
  rewrite Z.quot_div_nonneg, Z.rem_mod_nonneg by (rewrite ?ChunkSize_eq; lia).
  rewrite ChunkSize_eq.
  pose proof (Z.div_mod size 67108864 ltac:(lia)) as Hdm.
  pose proof (Z.mod_pos_bound size 67108864 ltac:(lia)) as Hb.
  assert (0 <= size / 67108864 < 2 ^ 62) as Hq.
  { split; [apply Z.div_pos; lia|].
    apply Z.div_lt_upper_bound; lia. }
  destruct (Z.eqb_spec (size mod 67108864) 0) as [E|E]; cbn [negb].
  - lia.
  - rewrite wrap64_id by lia. lia.
Qed.

(** ** The allocation loop of the coordinator's UploadFile *)

(** The indices [i, i+1, ..., i+n-1]. *)
Fixpoint indices (i : Z) (n : nat) : list Z :=
  match n with
  | O => []
  | S n' => i :: indices (i + 1) n'
  end.

Lemma indices_length i n : length (indices i n) = n.
Proof. revert i; induction n as [|n IH]; intros i; simpl; [done|]. by rewrite IH. Qed.

Lemma indices_elem i n j : j ∈ indices i n <-> i <= j < i + Z.of_nat n.
Proof.
  revert i; induction n as [|n IH]; intros i; simpl.
  - rewrite elem_of_nil. lia.
  - rewrite elem_of_cons, IH. lia.
Qed.

(** The chunk record that [AddChunk] writes for index [j] of [filename]. *)
Definition fresh_chunk (filename : string) (j : Z) : ChunkMetadata :=
  {| ChunkHandle := common.GenerateChunkHandle filename j;
     Locations := [];
     Version := 1;
     ChunkFilename := filename;
     ChunkIndex := common.int32 j |}.

Definition add_chunk (filename : string) (cs : gmap string ChunkMetadata) (j : Z)
    : gmap string ChunkMetadata :=
  <[common.GenerateChunkHandle filename j := fresh_chunk filename j]> cs.

(** The placement that the loop emits for index [j]. *)
Definition placement (rt : Runtime) (servers : gmap string ChunkServerInfo)
    (filename : string) (j : Z) : pb.ChunkLocation :=
  {| pb.ChunkHandle := common.GenerateChunkHandle filename j;
     pb.ChunkServerAddresses :=
       metadata.collect servers (clock rt (S (Z.to_nat j))) common.ReplicationFactor
         (order rt (Z.to_nat j)) [];
     pb.ChunkIndex := common.int32 j |}.

Definition with_chunks (file : FileMetadata) (handles : list string) : FileMetadata :=
  {| Filename := Filename file;
     Filesize := Filesize file;
     ChunkCount := ChunkCount file;
     Chunks := handles;
     CreatedAt := CreatedAt file |}.

Lemma AddChunkToFile_Some m filename chunkHandle p :
  files m !! filename = Some p ->
  metadata.AddChunkToFile m filename chunkHandle =
    {| files := files m;
       heap := alter (metadata.appendChunk chunkHandle) p (heap m);
       chunks := chunks m;
       chunkServers := chunkServers m |}.
Proof. intros Hp. unfold metadata.AddChunkToFile. by rewrite Hp. Qed.

(** What the loop leaves: the handles appended to the file's record, the
    chunk records inserted, one placement an index, nothing else touched. *)
Lemma allocate_spec rt filename n :
  forall i m locs p file,
    files m !! filename = Some p ->
    heap m !! p = Some file ->
    server.allocate rt filename n i m locs =
      ({| files := files m;
          heap := <[p := with_chunks file
                     (Chunks file ++ map (common.GenerateChunkHandle filename) (indices i n))]>
                    (heap m);
          chunks := fold_left (add_chunk filename) (indices i n) (chunks m);
          chunkServers := chunkServers m |},
       Ok (locs ++ map (placement rt (chunkServers m) filename) (indices i n))).
Proof.
  induction n as [|n IH]; intros i m locs p file Hp Hfile.
  - simpl. rewrite !app_nil_r. f_equal.
    destruct m as [f h c s]; simpl in *. f_equal.
    symmetry. apply insert_id. rewrite Hfile. by destruct file.
  - cbn [server.allocate].
    unfold metadata.GetAvailableChunkServers.
    change (common.ReplicationFactor <? 0) with false. cbv iota.
    rewrite !(AddChunkToFile_Some _ _ _ p) by exact Hp.
    cbn [metadata.AddChunk files heap chunks chunkServers].
    rewrite (IH _ _ _ p (metadata.appendChunk (common.GenerateChunkHandle filename i) file));
      cbn [files heap chunks chunkServers].
    + f_equal.
      * f_equal.
        rewrite insert_alter_eq.
        f_equal. unfold with_chunks, metadata.appendChunk; cbn.
        f_equal. by rewrite <- app_assoc.
      * rewrite <- app_assoc. reflexivity.
    + exact Hp.
    + rewrite lookup_alter_eq, Hfile. reflexivity.
Qed.

(** The record that [AddFile] allocates and the loop fills. *)
Definition uploaded_file (rt : Runtime) (filename : string) (filesize : Z) : FileMetadata :=
  let numChunks := common.CalculateNumChunks filesize in
  {| Filename := filename;
     Filesize := filesize;
     ChunkCount := numChunks;
     Chunks := map (common.GenerateChunkHandle filename) (indices 0 (Z.to_nat numChunks));
     CreatedAt := clock rt 0 |}.

(** The coordinator's UploadFile, when the number of chunks is not
    negative, in closed form. *)
Lemma UploadFile_spec rt m filename filesize :
  0 <= common.CalculateNumChunks filesize ->
  server.UploadFile rt m filename filesize =
    (let n := Z.to_nat (common.CalculateNumChunks filesize) in
     let p := fresh (dom (heap m)) in
     ({| files := <[filename := p]> (files m);
         heap := <[p := uploaded_file rt filename filesize]> (heap m);
         chunks := fold_left (add_chunk filename) (indices 0 n) (chunks m);
         chunkServers := chunkServers m |},
      Ok (map (placement rt (chunkServers m) filename) (indices 0 n)))).
Proof.
  intros Hn. unfold server.UploadFile, metadata.AddFile.
  destruct (Z.ltb_spec (common.CalculateNumChunks filesize) 0) as [?|_]; [lia|].
  rewrite (allocate_spec _ _ _ _ _ _ (fresh (dom (heap m)))
             {| Filename := filename; Filesize := filesize;
                ChunkCount := common.CalculateNumChunks filesize;
                Chunks := []; CreatedAt := clock rt 0 |});
    cbn [files heap chunks chunkServers].
  - cbv zeta. rewrite insert_insert_eq. reflexivity.
  - apply lookup_insert_eq.
  - apply lookup_insert_eq.
Qed.

(** A negative number of chunks makes [AddFile] panic; nothing has been
    written by then. *)
Lemma UploadFile_panic rt m filename filesize :
  common.CalculateNumChunks filesize < 0 ->
  server.UploadFile rt m filename filesize = (m, Panic).
Proof.
  intros Hn. unfold server.UploadFile, metadata.AddFile.
  destruct (Z.ltb_spec (common.CalculateNumChunks filesize) 0) as [_|?]; [done|lia].
Qed.

(** ** The loop of the coordinator's DownloadFile *)

Definition located (chunkHandle : string) (chunk : ChunkMetadata) : pb.ChunkLocation :=
  {| pb.ChunkHandle := chunkHandle;
     pb.ChunkServerAddresses := Locations chunk;
     pb.ChunkIndex := ChunkIndex chunk |}.

Lemma locate_Ok m handles :
  forall acc,
    Forall (fun h => is_Some (chunks m !! h)) handles ->
    server.locate m handles acc =
      Ok (acc ++ omap (fun h => located h <$> chunks m !! h) handles).
Proof.
  induction handles as [|h hs IH]; intros acc Hall; simpl.
  - by rewrite app_nil_r.
  - inversion Hall as [|? ? [c Hc] Hall']; subst.
    unfold metadata.GetChunk. rewrite Hc. simpl.
    rewrite IH by done. by rewrite <- app_assoc.
Qed.

Lemma locate_Err m handles :
  forall acc,
    ~ Forall (fun h => is_Some (chunks m !! h)) handles ->
    exists pre h post,
      handles = pre ++ h :: post /\
      Forall (fun h => is_Some (chunks m !! h)) pre /\
      chunks m !! h = None /\
      server.locate m handles acc = Err (server.chunk_not_found h).
Proof.
  induction handles as [|h hs IH]; intros acc Hnot; simpl.
  - destruct Hnot. constructor.
  - unfold metadata.GetChunk. destruct (chunks m !! h) as [c|] eqn:Hc.
    + destruct (IH (acc ++ [located h c])) as (pre & h' & post & -> & Hpre & Hh' & Hloc).
      { intros Hall. apply Hnot. constructor; [by rewrite Hc|done]. }
      exists (h :: pre), h', post. repeat split; try done.
      constructor; [by rewrite Hc|done].
    + exists [], h, hs. repeat split; try done.
Qed.

Lemma omap_located_length m handles :
  Forall (fun h => is_Some (chunks m !! h)) handles ->
  length (omap (fun h => located h <$> chunks m !! h) handles) = length handles.
Proof.
  induction 1 as [|h hs [c Hc] _ IH]; simpl; [done|].
  rewrite Hc. simpl. f_equal. exact IH.
Qed.

Lemma omap_located_lookup m handles i h :
  Forall (fun h => is_Some (chunks m !! h)) handles ->
  handles !! i = Some h ->
  exists c, chunks m !! h = Some c /\
    omap (fun h => located h <$> chunks m !! h) handles !! i = Some (located h c).
Proof.
  intros Hall. revert i. induction Hall as [|h0 hs [c Hc] _ IH]; intros i Hi; [done|].
  simpl. rewrite Hc. simpl. destruct i as [|i]; simpl in *.
  - injection Hi as <-. eauto.
  - by apply IH.
Qed.

(** ** The chunk records that an upload inserts *)

Lemma fold_add_chunk_other filename l :
  forall cs h,
    h ∉ map (common.GenerateChunkHandle filename) l ->
    fold_left (add_chunk filename) l cs !! h = cs !! h.
Proof.
  induction l as [|a l IH]; intros cs h Hh; simpl; [done|].
  simpl in Hh. rewrite not_elem_of_cons in Hh. destruct Hh as [Hne Hh].
  rewrite IH by done. unfold add_chunk. by rewrite lookup_insert_ne.
Qed.


Lemma fold_add_chunk_is_Some filename l :
  forall cs j,
    j ∈ l ->
    is_Some (fold_left (add_chunk filename) l cs !! common.GenerateChunkHandle filename j).
Proof.
  induction l as [|a l IH]; intros cs j Hj; [by apply elem_of_nil in Hj|].
  simpl.
  destruct (decide (common.GenerateChunkHandle filename j
                      ∈ map (common.GenerateChunkHandle filename) l)) as [Hin|Hout].
  - apply list_elem_of_fmap in Hin as (j' & -> & Hj'). by apply IH.
  - rewrite fold_add_chunk_other by done.
    apply elem_of_cons in Hj as [->|Hj].
    + unfold add_chunk. rewrite lookup_insert_eq. eauto.
    + destruct Hout. apply list_elem_of_fmap. eauto.
Qed.

(** A run time for the examples: the clock stands at 0 and no data node
    is ever walked. *)
Definition rt0 : Runtime := {| clock := fun _ => 0; order := fun _ => [] |}.

(** C2.  For every UploadFile(name, size) with size >= 0, the file record
    it creates has chunk_count = ceil(size / CHUNK_SIZE), CHUNK_SIZE being
    67,108,864, its chunks list has exactly chunk_count entries when the
    call returns, and size zero gives chunk_count 0 and an empty list. *)
Theorem UploadFile_chunk_count rt m filename filesize :
  0 <= filesize < 2 ^ 63 ->
  exists m' locs p file,
    server.UploadFile rt m filename filesize = (m', Ok locs) /\
    files m' !! filename = Some p /\
    heap m' !! p = Some file /\
    Filesize file = filesize /\
    0 <= ChunkCount file /\
    (ChunkCount file - 1) * 67108864 < filesize <= ChunkCount file * 67108864 /\
    Z.of_nat (length (Chunks file)) = ChunkCount file /\
    length locs = length (Chunks file) /\
    (filesize = 0 -> ChunkCount file = 0 /\ Chunks file = []).
Proof.
  intros Hs.
  destruct (CalculateNumChunks_ceil filesize Hs) as [Hn Hceil].
  rewrite ChunkSize_eq in Hceil.
  rewrite UploadFile_spec by exact Hn. cbv zeta.
  eexists _, _, _, (uploaded_file rt filename filesize).
  split; [reflexivity|]. cbn [files heap].
  split; [apply lookup_insert_eq|].
  split; [apply lookup_insert_eq|].
  unfold uploaded_file; cbn [Filesize ChunkCount Chunks].
  rewrite !length_map, indices_length.
  split; [reflexivity|].
  split; [lia|].
  split; [lia|].
  split; [lia|].
  split; [reflexivity|].
  intros ->. split; reflexivity.
Qed.

Lemma UploadFile_chunk_count_witness :
  0 <= 67108865 < 2 ^ 63 /\
  exists m' locs p file,
    server.UploadFile rt0 metadata.NewMetadata "big.bin" 67108865 = (m', Ok locs) /\
    files m' !! "big.bin" = Some p /\
    heap m' !! p = Some file /\
    Filesize file = 67108865 /\
    0 <= ChunkCount file /\
    (ChunkCount file - 1) * 67108864 < 67108865 <= ChunkCount file * 67108864 /\
    Z.of_nat (length (Chunks file)) = ChunkCount file /\
    length locs = length (Chunks file) /\
    (67108865 = 0 -> ChunkCount file = 0 /\ Chunks file = []).
Proof.
  split; [lia|].
  apply (UploadFile_chunk_count rt0 metadata.NewMetadata "big.bin" 67108865). lia.
Defined.

(** C5, as the specification has it, does not hold.  The specification:
    a request with an empty name or a negative size fails with
    InvalidArgument and creates no record.
    On the empty store, UploadFile("", 1) and UploadFile("a", -5) both
    return a placement list, and each leaves a file record and a chunk
    record behind. *)
Lemma UploadFile_accepts_empty_name_and_negative_size :
  (exists m' locs,
      server.UploadFile rt0 metadata.NewMetadata "" 1 = (m', Ok locs) /\
      length locs = 1%nat /\
      is_Some (files m' !! "") /\
      is_Some (chunks m' !! common.GenerateChunkHandle "" 0)) /\
  (exists m' locs,
      server.UploadFile rt0 metadata.NewMetadata "a" (-5) = (m', Ok locs) /\
      length locs = 1%nat /\
      is_Some (files m' !! "a") /\
      is_Some (chunks m' !! common.GenerateChunkHandle "a" 0)).
Proof.
  split.
  - rewrite UploadFile_spec by (vm_compute; discriminate).
    eexists _, _. split; [reflexivity|]. cbn [files chunks].
    split; [reflexivity|]. split.
    + rewrite lookup_insert_eq. eauto.
    + change (Z.to_nat (common.CalculateNumChunks 1)) with 1%nat.
      apply fold_add_chunk_is_Some. simpl. apply list_elem_of_here.
  - rewrite UploadFile_spec by (vm_compute; discriminate).
    eexists _, _. split; [reflexivity|]. cbn [files chunks].
    split; [reflexivity|]. split.
    + rewrite lookup_insert_eq. eauto.
    + change (Z.to_nat (common.CalculateNumChunks (-5))) with 1%nat.
      apply fold_add_chunk_is_Some. simpl. apply list_elem_of_here.
Qed.

(** C5 (amended).  UploadFile checks neither the name nor the size and
    never fails with InvalidArgument, nor with any other error.  Whatever
    the name, the empty one included, a size that is not negative is
    accepted: the file record is created under that name together with a
    chunk record for each of its indices.  The one way the call ends
    without an answer is a run-time panic, and then the metadata is as it
    was before the call. *)
Theorem UploadFile_never_InvalidArgument rt m filename filesize :
  - 2 ^ 63 <= filesize < 2 ^ 63 ->
  (forall e, snd (server.UploadFile rt m filename filesize) <> Err e) /\
  (0 <= filesize ->
     exists m' locs p file,
       server.UploadFile rt m filename filesize = (m', Ok locs) /\
       files m' !! filename = Some p /\
       heap m' !! p = Some file /\
       Filename file = filename /\
       forall j, 0 <= j < ChunkCount file ->
         is_Some (chunks m' !! common.GenerateChunkHandle filename j)) /\
  (snd (server.UploadFile rt m filename filesize) = Panic ->
     fst (server.UploadFile rt m filename filesize) = m).
Proof.
  intros Hs.
  destruct (Z.lt_ge_cases (common.CalculateNumChunks filesize) 0) as [Hneg|Hpos].
  - rewrite UploadFile_panic by exact Hneg. cbn [fst snd].
    split; [discriminate|]. split; [|reflexivity].
    intros H0. destruct (CalculateNumChunks_ceil filesize ltac:(lia)) as [? _]. lia.
  - rewrite UploadFile_spec by exact Hpos. cbv zeta. cbn [fst snd].
    split; [discriminate|]. split; [|discriminate].
    intros _. eexists _, _, _, (uploaded_file rt filename filesize).
    split; [reflexivity|]. cbn [files heap chunks].
    split; [apply lookup_insert_eq|].
    split; [apply lookup_insert_eq|].
    split; [reflexivity|].
    intros j Hj. cbn [uploaded_file ChunkCount] in Hj.
    apply fold_add_chunk_is_Some. apply indices_elem. lia.
Qed.

Lemma UploadFile_never_InvalidArgument_witness :
  - 2 ^ 63 <= 0 < 2 ^ 63 /\
  (forall e, snd (server.UploadFile rt0 metadata.NewMetadata "" 0) <> Err e) /\
  (0 <= 0 ->
     exists m' locs p file,
       server.UploadFile rt0 metadata.NewMetadata "" 0 = (m', Ok locs) /\
       files m' !! "" = Some p /\
       heap m' !! p = Some file /\
       Filename file = "" /\
       forall j, 0 <= j < ChunkCount file ->
         is_Some (chunks m' !! common.GenerateChunkHandle "" j)) /\
  (snd (server.UploadFile rt0 metadata.NewMetadata "" 0) = Panic ->
     fst (server.UploadFile rt0 metadata.NewMetadata "" 0) = metadata.NewMetadata).
Proof.
  split; [lia|].
  apply (UploadFile_never_InvalidArgument rt0 metadata.NewMetadata "" 0). lia.
Defined.

(** C7.  DownloadFile(name) fails with "file not found" (the spec's
    NotFound) when no file record is named [name]; it fails with "chunk
    not found" (the spec's Internal) when the file is there and a handle
    of its chunks list has no chunk record; otherwise it returns the
    file's size and, for each chunk in order, the locations now known,
    which may be none; and the coordinator's metadata is never changed
    by the call. *)
Theorem DownloadFile_cases m filename :
  fst (server.DownloadFile m filename) = m /\
  (files m !! filename = None ->
     snd (server.DownloadFile m filename) = Err (server.file_not_found filename)) /\
  (forall p file,
     files m !! filename = Some p -> heap m !! p = Some file ->
     ~ Forall (fun h => is_Some (chunks m !! h)) (Chunks file) ->
     exists h, h ∈ Chunks file /\ chunks m !! h = None /\
       snd (server.DownloadFile m filename) = Err (server.chunk_not_found h)) /\
  (forall p file,
     files m !! filename = Some p -> heap m !! p = Some file ->
     Forall (fun h => is_Some (chunks m !! h)) (Chunks file) ->
     exists locs,
       snd (server.DownloadFile m filename) =
         Ok {| pb.RespFilesize := Filesize file; pb.RespChunkLocation := locs |} /\
       length locs = length (Chunks file) /\
       forall i h, Chunks file !! i = Some h ->
         exists chunk, chunks m !! h = Some chunk /\
           locs !! i = Some {| pb.ChunkHandle := h;
                               pb.ChunkServerAddresses := Locations chunk;
                               pb.ChunkIndex := ChunkIndex chunk |}).
Proof.
  unfold server.DownloadFile, metadata.GetFile.
  split; [|split; [|split]].
  - destruct (files m !! filename) as [p|]; [|done].
    destruct (heap m !! p) as [file|]; [|done].
    by destruct (server.locate m (Chunks file) []).
  - by intros ->.
  - intros p file -> -> Hnot.
    destruct (locate_Err m (Chunks file) [] Hnot) as (pre & h & post & Heq & _ & Hh & ->).
    exists h. split; [|done]. rewrite Heq. apply elem_of_app. right. apply list_elem_of_here.
  - intros p file -> -> Hall.
    rewrite locate_Ok by done. cbn [app snd].
    eexists. split; [reflexivity|].
    split; [by apply omap_located_length|].
    intros i h Hi. by apply omap_located_lookup.
Qed.

(** C10.  For every address and every handle that has no chunk record,
    ReportChunk answers Success = true and leaves the files, the chunks
    and the node registrations as they were: the report is dropped, not
    rejected. *)
Theorem ReportChunk_unknown_handle m chunkHandle address :
  chunks m !! chunkHandle = None ->
  server.ReportChunk m chunkHandle address = (m, Ok true).
Proof.
  intros Hnone. unfold server.ReportChunk, metadata.AddChunkLocation.
  by rewrite Hnone.
Qed.

Lemma ReportChunk_unknown_handle_witness :
  chunks metadata.NewMetadata !! "0bcc17403e59c64cbfc330d225411cc6" = None /\
  server.ReportChunk metadata.NewMetadata "0bcc17403e59c64cbfc330d225411cc6" "localhost:9001"
    = (metadata.NewMetadata, Ok true).
Proof.
  split; [reflexivity|].
  apply (ReportChunk_unknown_handle metadata.NewMetadata). reflexivity.
Defined.

(** ** Liveness and GetAvailableChunkServers *)

(** The comparison of [available] is between plain differences: the
    saturation of [Sub] is far from thirty seconds. *)
Lemma available_spec now server :
  metadata.available now server = true <->
  now - LatestHeartbeat server < 30 * time.Second.
Proof.
  unfold metadata.available, time.Sub, time.minDuration, time.maxDuration, time.Second.
  cbv zeta.
  destruct (Z.ltb_spec (now - LatestHeartbeat server) (- 2 ^ 63));
    [rewrite Z.ltb_lt; lia|].
  destruct (Z.ltb_spec (2 ^ 63 - 1) (now - LatestHeartbeat server));
    rewrite Z.ltb_lt; lia.
Qed.

(** The address is registered and its server is available. *)
Definition live (cs : gmap string ChunkServerInfo) (now : Z) (address : string) : bool :=
  match cs !! address with
  | Some server => metadata.available now server
  | None => false
  end.

(** The loop in closed form: as long as fewer than [k] servers have been
    gathered, it adds the live addresses in the order of the walk and
    stops at [k]. *)
Lemma collect_spec cs now k keys :
  forall servers,
    Z.of_nat (length servers) < k ->
    metadata.collect cs now k keys servers =
      servers ++ take (Z.to_nat k - length servers) (List.filter (live cs now) keys).
Proof.
  induction keys as [|a keys IH]; intros servers Hlen; simpl.
  - by rewrite take_nil, app_nil_r.
  - unfold live at 1. destruct (cs !! a) as [server|]; [|by apply IH].
    destruct (metadata.available now server); [|by apply IH].
    destruct (Z.geb_spec (Z.of_nat (length (servers ++ [a]))) k) as [Hge|Hlt].
    + rewrite length_app in Hge. simpl in Hge.
      replace (Z.to_nat k - length servers)%nat with 1%nat by lia.
      simpl. by rewrite take_0.
    + rewrite IH by lia. rewrite length_app in *. simpl in *.
      replace (Z.to_nat k - length servers)%nat
        with (S (Z.to_nat k - (length servers + 1)))%nat by lia.
      simpl. by rewrite <- app_assoc.
Qed.

(** With [k = 0] the test after the append lets one address through. *)
Lemma collect_zero cs now keys :
  metadata.collect cs now 0 keys [] = take 1 (List.filter (live cs now) keys).
Proof.
  induction keys as [|a keys IH]; simpl; [done|].
  unfold live at 1. destruct (cs !! a) as [server|]; [|done].
  destruct (metadata.available now server); [|done].
  simpl. by rewrite take_0.
Qed.

Lemma filter_live_keys cs now (entries : list (string * ChunkServerInfo)) :
  Forall (fun kv => cs !! kv.1 = Some kv.2) entries ->
  List.filter (live cs now) entries.*1 =
    (List.filter (fun kv => metadata.available now kv.2) entries).*1.
Proof.
  induction 1 as [|[a s] l Ha _ IH]; simpl; [done|].
  unfold live at 1. simpl in Ha. rewrite Ha.
  destruct (metadata.available now s); simpl; [f_equal|]; exact IH.
Qed.

Lemma filter_Permutation {A} (f : A -> bool) (l1 l2 : list A) :
  l1 ≡ₚ l2 -> List.filter f l1 ≡ₚ List.filter f l2.
Proof.
  induction 1 as [|x l1 l2 _ IH|x y l|l1 l2 l3 _ IH1 _ IH2]; simpl.
  - done.
  - destruct (f x); [by constructor|done].
  - destruct (f x), (f y); try done. apply perm_swap.
  - by etransitivity.
Qed.

Lemma filter_NoDup {A} (f : A -> bool) (l : list A) :
  NoDup l -> NoDup (List.filter f l).
Proof.
  induction 1 as [|x l Hx _ IH]; simpl; [constructor|].
  destruct (f x); [|done].
  constructor; [|done]. rewrite list_elem_of_In, filter_In, <- list_elem_of_In. tauto.
Qed.

(** The number of registered data nodes that are live at [now]. *)
Definition live_count (m : Metadata) (now : Z) : nat :=
  length (List.filter (fun kv : string * ChunkServerInfo => metadata.available now kv.2)
            (map_to_list (chunkServers m))).




(** ** Sequences of requests to the coordinator *)

Inductive request : Type :=
| UploadFileRequest (rt : Runtime) (filename : string) (filesize : Z)
| DownloadFileRequest (filename : string)
| ListFilesRequest (keys : list string)
| HeartbeatRequest (now : Z) (address : string) (handles : list string)
| ReportChunkRequest (chunkHandle address : string).

(** The metadata after a handler has run, unless it panicked: a panic in
    a handler takes the coordinator down. *)
Definition survive {A} (r : Metadata * result server.error A) : option Metadata :=
  match r with
  | (_, Panic) => None
  | (m, _) => Some m
  end.

Definition serve (m : Metadata) (req : request) : option Metadata :=
  match req with
  | UploadFileRequest rt filename filesize => survive (server.UploadFile rt m filename filesize)
  | DownloadFileRequest filename => survive (server.DownloadFile m filename)
  | ListFilesRequest keys => survive (server.ListFiles m keys)
  | HeartbeatRequest now address handles => survive (server.Heartbeat m now address handles)
  | ReportChunkRequest chunkHandle address => survive (server.ReportChunk m chunkHandle address)
  end.

Fixpoint run (m : Metadata) (reqs : list request) : option Metadata :=
  match reqs with
  | [] => Some m
  | req :: reqs' =>
      match serve m req with
      | Some m' => run m' reqs'
      | None => None
      end
  end.

(** The request is an upload one of whose chunks gets the handle [h]: it
    writes the chunk record of [h] anew. *)
Definition allocates (req : request) (h : string) : Prop :=
  match req with
  | UploadFileRequest _ filename filesize =>
      h ∈ map (common.GenerateChunkHandle filename)
            (indices 0 (Z.to_nat (common.CalculateNumChunks filesize)))
  | _ => False
  end.

Lemma AddChunkLocation_known m h address c :
  chunks m !! h = Some c -> address ∈ Locations c ->
  metadata.AddChunkLocation m h address = m.
Proof.
  intros Hc Hin. unfold metadata.AddChunkLocation. rewrite Hc.
  by rewrite bool_decide_eq_true_2.
Qed.

Lemma AddChunkLocation_new m h address c :
  chunks m !! h = Some c -> address ∉ Locations c ->
  metadata.AddChunkLocation m h address =
    {| files := files m; heap := heap m;
       chunks := <[h := metadata.appendLocation address c]> (chunks m);
       chunkServers := chunkServers m |}.
Proof.
  intros Hc Hin. unfold metadata.AddChunkLocation. rewrite Hc.
  by rewrite bool_decide_eq_false_2.
Qed.

(** After a report for a handle that has its record, the address is among
    the locations, and the other fields of the record are as before. *)
Lemma AddChunkLocation_elem m h address c :
  chunks m !! h = Some c ->
  exists c', chunks (metadata.AddChunkLocation m h address) !! h = Some c' /\
    address ∈ Locations c' /\
    (Locations c' = Locations c \/
     ((address ∉ Locations c) /\ Locations c' = Locations c ++ [address])).
Proof.
  intros Hc. destruct (decide (address ∈ Locations c)) as [Hin|Hout].
  - rewrite (AddChunkLocation_known _ _ _ _ Hc Hin). eauto.
  - rewrite (AddChunkLocation_new _ _ _ _ Hc Hout). cbn [chunks].
    rewrite lookup_insert_eq. eexists. split; [done|]. cbn.
    split; [|by right]. apply elem_of_app. right. apply list_elem_of_here.
Qed.

Lemma chunks_RegisterChunkServer m now address handles :
  chunks (metadata.RegisterChunkServer m now address handles) = chunks m.
Proof. unfold metadata.RegisterChunkServer. by destruct (chunkServers m !! address). Qed.

Lemma DownloadFile_fst m filename : fst (server.DownloadFile m filename) = m.
Proof.
  unfold server.DownloadFile, metadata.GetFile.
  destruct (files m !! filename) as [p|]; [|done].
  destruct (heap m !! p) as [file|]; [|done].
  by destruct (server.locate m (Chunks file) []).
Qed.

Lemma survive_Some {A} (r : Metadata * result server.error A) m' :
  survive r = Some m' -> fst r = m'.
Proof. destruct r as [m [a|e|]]; simpl; congruence. Qed.

(** A request that does not allocate [h] keeps what is known of [h]. *)
Lemma serve_keeps_location m req m' h address c :
  chunks m !! h = Some c -> address ∈ Locations c ->
  ~ allocates req h ->
  serve m req = Some m' ->
  exists c', chunks m' !! h = Some c' /\ address ∈ Locations c'.
Proof.
  intros Hc Hin Hna Hserve.
  destruct req as [rt f s|f|keys|now a hs|h' a]; cbn [serve allocates] in *;
    apply survive_Some in Hserve.
  - destruct (Z.lt_ge_cases (common.CalculateNumChunks s) 0) as [Hneg|Hpos].
    + rewrite UploadFile_panic in Hserve by done. simpl in Hserve. subst. eauto.
    + rewrite UploadFile_spec in Hserve by done. cbv zeta in Hserve.
      simpl in Hserve. subst m'. cbn [chunks].
      rewrite fold_add_chunk_other by done. eauto.
  - rewrite DownloadFile_fst in Hserve. subst. eauto.
  - simpl in Hserve. subst. eauto.
  - simpl in Hserve. subst. rewrite chunks_RegisterChunkServer. eauto.
  - simpl in Hserve. subst. destruct (decide (h' = h)) as [->|Hne].
    + destruct (AddChunkLocation_elem m h a c Hc) as (c' & Hc' & _ & [Heq|[_ Heq]]);
        exists c'; (split; [done|]); rewrite Heq; [done|].
      apply elem_of_app. by left.
    + unfold metadata.AddChunkLocation.
      destruct (chunks m !! h') as [c0|]; [|eauto].
      destruct (bool_decide (a ∈ Locations c0)); [eauto|].
      cbn [chunks]. rewrite lookup_insert_ne by done. eauto.
Qed.

Lemma run_keeps_location reqs :
  forall m m' h address c,
    chunks m !! h = Some c -> address ∈ Locations c ->
    Forall (fun req => ~ allocates req h) reqs ->
    run m reqs = Some m' ->
    exists c', chunks m' !! h = Some c' /\ address ∈ Locations c'.
Proof.
  induction reqs as [|req reqs IH]; intros m m' h address c Hc Hin Hall Hrun; simpl in Hrun.
  - injection Hrun as <-. eauto.
  - inversion Hall as [|? ? Hna Hall']; subst.
    destruct (serve m req) as [m1|] eqn:Hserve; [|done].
    destruct (serve_keeps_location _ _ _ _ _ _ Hc Hin Hna Hserve) as (c1 & Hc1 & Hin1).
    by eapply IH.
Qed.

(** A successful DownloadFile read the file's record and a chunk record
    for each of its handles. *)
Lemma DownloadFile_Ok_inv m filename resp :
  snd (server.DownloadFile m filename) = Ok resp ->
  exists p file,
    files m !! filename = Some p /\ heap m !! p = Some file /\
    Forall (fun h => is_Some (chunks m !! h)) (Chunks file) /\
    resp = {| pb.RespFilesize := Filesize file;
              pb.RespChunkLocation :=
                omap (fun h => located h <$> chunks m !! h) (Chunks file) |}.
Proof.
  unfold server.DownloadFile, metadata.GetFile.
  destruct (files m !! filename) as [p|] eqn:Hp; [|done].
  destruct (heap m !! p) as [file|] eqn:Hfile; [|done].
  destruct (decide (Forall (fun h => is_Some (chunks m !! h)) (Chunks file))) as [Hall|Hnot].
  - rewrite locate_Ok by done. simpl. intros [= <-]. exists p, file. done.
  - destruct (locate_Err m (Chunks file) [] Hnot) as (? & ? & ? & _ & _ & _ & ->). done.
Qed.

(** Every location list of a coordinator that started empty is free of
    duplicates, whatever requests it has served. *)
Definition locations_NoDup (m : Metadata) : Prop :=
  forall h c, chunks m !! h = Some c -> NoDup (Locations c).

Lemma fold_add_chunk_cases filename l :
  forall cs h c,
    fold_left (add_chunk filename) l cs !! h = Some c ->
    cs !! h = Some c \/ exists j, c = fresh_chunk filename j.
Proof.
  induction l as [|a l IH]; intros cs h c Hc; simpl in Hc; [by left|].
  apply IH in Hc as [Hc|Hc]; [|by right].
  unfold add_chunk in Hc. rewrite lookup_insert in Hc.
  case_decide; [|by left]. injection Hc as <-. right. eauto.
Qed.

Lemma serve_locations_NoDup m req m' :
  locations_NoDup m -> serve m req = Some m' -> locations_NoDup m'.
Proof.
  intros Hinv Hserve.
  destruct req as [rt f s|f|keys|now a hs|h' a]; cbn [serve] in *;
    apply survive_Some in Hserve.
  - destruct (Z.lt_ge_cases (common.CalculateNumChunks s) 0) as [Hneg|Hpos].
    + rewrite UploadFile_panic in Hserve by done. simpl in Hserve. by subst.
    + rewrite UploadFile_spec in Hserve by done. cbv zeta in Hserve.
      simpl in Hserve. subst m'. intros h c Hc. cbn [chunks] in Hc.
      apply fold_add_chunk_cases in Hc as [Hc|[j ->]]; [by eapply Hinv|].
      simpl. constructor.
  - rewrite DownloadFile_fst in Hserve. by subst.
  - simpl in Hserve. by subst.
  - simpl in Hserve. subst. intros h c. rewrite chunks_RegisterChunkServer. apply Hinv.
  - simpl in Hserve. subst. intros h c.
    unfold metadata.AddChunkLocation.
    destruct (chunks m !! h') as [c0|] eqn:Hc0; [|apply Hinv].
    destruct (bool_decide (a ∈ Locations c0)) eqn:Hin; [apply Hinv|].
    apply bool_decide_eq_false in Hin.
    cbn [chunks]. rewrite lookup_insert. case_decide; [|apply Hinv].
    intros [= <-]. simpl. apply NoDup_app. split; [by eapply Hinv|].
    split; [|apply NoDup_singleton].
    intros x Hx ->%list_elem_of_singleton. done.
Qed.

Lemma run_locations_NoDup reqs m' :
  run metadata.NewMetadata reqs = Some m' -> locations_NoDup m'.
Proof.
  assert (forall m, locations_NoDup m -> run m reqs = Some m' -> locations_NoDup m') as Hgen.
  { induction reqs as [|req reqs IH]; intros m Hinv Hrun; simpl in Hrun.
    - by injection Hrun as <-.
    - destruct (serve m req) as [m1|] eqn:Hserve; [|done].
      eapply IH; [|done]. by eapply serve_locations_NoDup. }
  apply Hgen. intros h c Hc. cbn [metadata.NewMetadata chunks] in Hc.
  by rewrite lookup_empty in Hc.
Qed.

Lemma count_occ_le_1_NoDup (l : list string) x :
  NoDup l -> (count_occ string_dec l x <= 1)%nat.
Proof.
  intros Hnd. destruct (decide (x ∈ l)) as [Hin|Hout].
  - apply NoDup_ListNoDup in Hnd.
    rewrite (proj1 (NoDup_count_occ' string_dec l) Hnd x); [lia|]. by apply list_elem_of_In.
  - rewrite (proj1 (count_occ_not_In string_dec l x)); [lia|]. by rewrite <- list_elem_of_In.
Qed.

(** In every state the coordinator reaches, an address is at most once
    among the locations of a chunk. *)
Lemma run_locations_at_most_once reqs m h c address :
  run metadata.NewMetadata reqs = Some m ->
  chunks m !! h = Some c ->
  (count_occ string_dec (Locations c) address <= 1)%nat.
Proof.
  intros Hrun Hc. apply count_occ_le_1_NoDup.
  by apply (run_locations_NoDup reqs m Hrun h).
Qed.

(** C6, as the specification has it, does not hold.  The specification:
    after one successful ReportChunk(addr, handle), every later
    DownloadFile of a file that contains the handle lists addr for it.  A report for a handle that
    has no record yet is answered Success = true and dropped, so a file
    uploaded afterwards shows the handle without the address; and a
    second upload of the same name writes the chunk record anew, with no
    location, after the address had been recorded. *)
Lemma ReportChunk_success_not_always_visible :
  let h := common.GenerateChunkHandle "a" 0 in
  let gone := Ok {| pb.RespFilesize := 1;
                    pb.RespChunkLocation :=
                      [{| pb.ChunkHandle := h;
                          pb.ChunkServerAddresses := [];
                          pb.ChunkIndex := 0 |}] |} in
  (let r1 := server.ReportChunk metadata.NewMetadata h "localhost:9001" in
   let m2 := fst (server.UploadFile rt0 (fst r1) "a" 1) in
   snd r1 = Ok true /\
   snd (server.DownloadFile m2 "a") = gone) /\
  (let m1 := fst (server.UploadFile rt0 metadata.NewMetadata "a" 1) in
   let r2 := server.ReportChunk m1 h "localhost:9001" in
   let m3 := fst (server.UploadFile rt0 (fst r2) "a" 1) in
   snd r2 = Ok true /\
   snd (server.DownloadFile (fst r2) "a") =
     Ok {| pb.RespFilesize := 1;
           pb.RespChunkLocation :=
             [{| pb.ChunkHandle := h;
                 pb.ChunkServerAddresses := ["localhost:9001"];
                 pb.ChunkIndex := 0 |}] |} /\
   snd (server.DownloadFile m3 "a") = gone).
Proof. vm_compute. repeat split. Qed.

(** C6 (amended).  ReportChunk(addr, handle) on a handle that has its
    chunk record (with addr at most once among its locations, as in every
    state the coordinator reaches) is idempotent: for every N >= 1, N
    calls leave the state that one call leaves, with exactly one
    membership of addr in the chunk's locations.  And after such a call,
    whatever requests follow that do not allocate the handle again, every
    DownloadFile that succeeds on a file containing the handle returns a
    placement for it, and every placement it returns for the handle has
    addr among its addresses. *)
Theorem ReportChunk_idempotent_and_visible m h address c :
  chunks m !! h = Some c ->
  (count_occ string_dec (Locations c) address <= 1)%nat ->
  (forall N, (1 <= N)%nat ->
     Nat.iter N (fun m => fst (server.ReportChunk m h address)) m
       = fst (server.ReportChunk m h address) /\
     exists c',
       chunks (Nat.iter N (fun m => fst (server.ReportChunk m h address)) m) !! h = Some c' /\
       count_occ string_dec (Locations c') address = 1%nat) /\
  (forall reqs m' filename resp,
     Forall (fun req => ~ allocates req h) reqs ->
     run (fst (server.ReportChunk m h address)) reqs = Some m' ->
     snd (server.DownloadFile m' filename) = Ok resp ->
     (forall p file, files m' !! filename = Some p -> heap m' !! p = Some file ->
        h ∈ Chunks file ->
        exists loc, loc ∈ pb.RespChunkLocation resp /\ pb.ChunkHandle loc = h) /\
     (forall loc, loc ∈ pb.RespChunkLocation resp -> pb.ChunkHandle loc = h ->
        address ∈ pb.ChunkServerAddresses loc)).
Proof.
  intros Hc Hcount. cbn [server.ReportChunk fst].
  destruct (AddChunkLocation_elem m h address c Hc) as (c1 & Hc1 & Hin1 & Hlocs).
  split.
  - intros N HN.
    assert (Nat.iter N (fun m => metadata.AddChunkLocation m h address) m
              = metadata.AddChunkLocation m h address) as ->.
    { destruct N as [|N]; [lia|]. clear HN.
      induction N as [|N IH]; [done|].
      change (Nat.iter (S (S N)) (fun m => metadata.AddChunkLocation m h address) m)
        with (metadata.AddChunkLocation
                (Nat.iter (S N) (fun m => metadata.AddChunkLocation m h address) m) h address).
      rewrite IH. by apply (AddChunkLocation_known _ _ _ c1). }
    split; [done|]. exists c1. split; [done|].
    destruct Hlocs as [Heq|[Hout ->]].
    + apply list_elem_of_In, (count_occ_In string_dec) in Hin1. rewrite Heq in *. lia.
    + rewrite count_occ_app. simpl.
      rewrite (proj1 (count_occ_not_In string_dec _ _)) by (by rewrite <- list_elem_of_In).
      destruct (string_dec address address); [done|congruence].
  - intros reqs m' filename resp Hall Hrun Hresp.
    destruct (run_keeps_location _ _ _ _ _ _ Hc1 Hin1 Hall Hrun) as (c' & Hc' & Hin').
    apply DownloadFile_Ok_inv in Hresp as (p & file & Hp & Hfile & Hpresent & ->).
    cbn [pb.RespChunkLocation]. split.
    + intros p0 file0 Hp0 Hfile0 Hh. assert (p0 = p) as -> by congruence.
      assert (file0 = file) as -> by congruence.
      apply list_elem_of_lookup in Hh as [i Hi].
      destruct (omap_located_lookup _ _ _ _ Hpresent Hi) as (c0 & _ & Hloc).
      exists (located h c0). split; [|done]. by eapply list_elem_of_lookup_2.
    + intros loc Hloc Hh. apply list_elem_of_omap in Hloc as (h0 & _ & Hloc).
      destruct (chunks m' !! h0) as [c0|] eqn:Hc0; [|done].
      simpl in Hloc. injection Hloc as <-. simpl in *. subst h0.
      by replace c0 with c' by congruence.
Qed.

Lemma ReportChunk_idempotent_and_visible_witness :
  let m := fst (server.UploadFile rt0 metadata.NewMetadata "a" 1) in
  let h := common.GenerateChunkHandle "a" 0 in
  let address := "localhost:9001" in
  chunks m !! h = Some (fresh_chunk "a" 0) /\
  (count_occ string_dec (Locations (fresh_chunk "a" 0)) address <= 1)%nat /\
  (forall N, (1 <= N)%nat ->
     Nat.iter N (fun m => fst (server.ReportChunk m h address)) m
       = fst (server.ReportChunk m h address) /\
     exists c',
       chunks (Nat.iter N (fun m => fst (server.ReportChunk m h address)) m) !! h = Some c' /\
       count_occ string_dec (Locations c') address = 1%nat) /\
  (forall reqs m' filename resp,
     Forall (fun req => ~ allocates req h) reqs ->
     run (fst (server.ReportChunk m h address)) reqs = Some m' ->
     snd (server.DownloadFile m' filename) = Ok resp ->
     (forall p file, files m' !! filename = Some p -> heap m' !! p = Some file ->
        h ∈ Chunks file ->
        exists loc, loc ∈ pb.RespChunkLocation resp /\ pb.ChunkHandle loc = h) /\
     (forall loc, loc ∈ pb.RespChunkLocation resp -> pb.ChunkHandle loc = h ->
        address ∈ pb.ChunkServerAddresses loc)).
Proof.
  cbv zeta.
  assert (chunks (fst (server.UploadFile rt0 metadata.NewMetadata "a" 1))
            !! common.GenerateChunkHandle "a" 0 = Some (fresh_chunk "a" 0)) as Hc.
  { vm_compute. reflexivity. }
  assert (count_occ string_dec (Locations (fresh_chunk "a" 0)) "localhost:9001" <= 1)%nat
    as Hcount.
  { simpl. lia. }
  split; [exact Hc|]. split; [exact Hcount|].
  exact (ReportChunk_idempotent_and_visible _ _ "localhost:9001" _ Hc Hcount).
Defined.

(** ** The data node's storage *)

(** C8.  After WriteChunk(handle, bytes) has succeeded, ReadChunk(handle)
    returns exactly those bytes, a later WriteChunk under the same handle
    replaces them, and ReadChunk fails with "chunk not found" exactly when
    the in-memory set of present handles excludes the handle. *)
Theorem Storage_read_after_write (Join : string -> string -> string) s fs h data s' fs' :
  chunkserver.Storage_WriteChunk Join s fs h data = (s', fs', None) ->
  chunkserver.Storage_ReadChunk Join s' fs' h = Ok data /\
  (forall data2 s2 fs2,
     chunkserver.Storage_WriteChunk Join s' fs' h data2 = (s2, fs2, None) ->
     chunkserver.Storage_ReadChunk Join s2 fs2 h = Ok data2) /\
  (forall s0 fs0 h0,
     (exists h1, chunkserver.Storage_ReadChunk Join s0 fs0 h0
                   = Err (chunkserver.chunk_not_found h1))
     <-> chunkserver.present s0 h0 = false).
Proof.
  assert (forall s fs h data s' fs',
            chunkserver.Storage_WriteChunk Join s fs h data = (s', fs', None) ->
            chunkserver.Storage_ReadChunk Join s' fs' h = Ok data) as Hrw.
  { clear. intros s fs h data s' fs'.
    unfold chunkserver.Storage_WriteChunk, chunkserver.Storage_ReadChunk, os.WriteFile, os.ReadFile.
    destruct (bool_decide (Join (chunkserver.storagePath s) h ∈ os.denied fs)) eqn:Hden; [done|].
    intros [= <- <-]. unfold chunkserver.present. cbn.
    rewrite lookup_insert_eq. cbn. rewrite Hden. cbn. by rewrite lookup_insert_eq. }
  intros Hw. split; [by eapply Hrw|]. split; [intros; by eapply Hrw|].
  intros s0 fs0 h0. unfold chunkserver.Storage_ReadChunk.
  destruct (chunkserver.present s0 h0); cbn.
  - split; [|done]. intros [h1 Herr].
    by destruct (os.ReadFile fs0 (Join (chunkserver.storagePath s0) h0)).
  - split; [done|]. eauto.
Qed.

(** A data node for the examples: an empty directory that refuses no
    I/O; paths are joined with a slash. *)
Definition join0 (dir name : string) : string := dir +:+ "/" +:+ name.
Definition fs0 : os.FS := {| os.content := ∅; os.denied := ∅ |}.
Definition storage0 : chunkserver.Storage :=
  {| chunkserver.storagePath := "./storage1"; chunkserver.chunks := ∅ |}.

Lemma Storage_read_after_write_witness :
  let h := "0bcc17403e59c64cbfc330d225411cc6" in
  let data := ["h"%byte; "i"%byte] in
  let s' := {| chunkserver.storagePath := "./storage1";
               chunkserver.chunks := <[h := true]> ∅ |} in
  let fs' := {| os.content := <[join0 "./storage1" h := data]> ∅; os.denied := ∅ |} in
  chunkserver.Storage_WriteChunk join0 storage0 fs0 h data = (s', fs', None) /\
  chunkserver.Storage_ReadChunk join0 s' fs' h = Ok data /\
  (forall data2 s2 fs2,
     chunkserver.Storage_WriteChunk join0 s' fs' h data2 = (s2, fs2, None) ->
     chunkserver.Storage_ReadChunk join0 s2 fs2 h = Ok data2) /\
  (forall s0 fs0 h0,
     (exists h1, chunkserver.Storage_ReadChunk join0 s0 fs0 h0
                   = Err (chunkserver.chunk_not_found h1))
     <-> chunkserver.present s0 h0 = false).
Proof.
  cbv zeta. split; [reflexivity|].
  apply (Storage_read_after_write join0 storage0 fs0). reflexivity.
Defined.

(** ** Pointers handed out by ListFiles *)

(** Every pointer in [files] has its record: Go has no dangling
    pointers. *)
Definition well_formed (m : Metadata) : Prop :=
  forall filename p, files m !! filename = Some p -> is_Some (heap m !! p).

(** What a holder of the pointers [ps] sees through them. *)
Definition contents (m : Metadata) (ps : list positive) : list (option FileMetadata) :=
  map (fun p => heap m !! p) ps.

(** C9, as the specification has it, does not hold.  The specification:
    what ListFiles returned is a copy that later mutations do not change.  ListFiles returns the
    store's own pointers: a handle appended by AddChunkToFile shows in
    the list returned before. *)
Lemma ListFiles_sees_AddChunkToFile :
  exists m,
    metadata.AddFile metadata.NewMetadata 7 "a" 1 1 = Some m /\
    let listed := metadata.ListFiles m ["a"] in
    let m' := metadata.AddChunkToFile m "a" "0bcc17403e59c64cbfc330d225411cc6" in
    contents m listed =
      [Some {| Filename := "a"; Filesize := 1; ChunkCount := 1; Chunks := [];
               CreatedAt := 7 |}] /\
    contents m' listed =
      [Some {| Filename := "a"; Filesize := 1; ChunkCount := 1;
               Chunks := ["0bcc17403e59c64cbfc330d225411cc6"]; CreatedAt := 7 |}].
Proof. eexists. split; [reflexivity|]. vm_compute. split; reflexivity. Qed.

(** C9 (amended).  ListFiles returns a new list of references to the file
    records of the store, one for each name walked, not copies of them.
    AddFile afterwards, whether it adds a name or overwrites one, changes
    nothing of what the list shows.  AddChunkToFile afterwards changes,
    of what the list shows, only the chunks of the file it names; name,
    size, chunk count and creation time of every listed record stay. *)
Theorem ListFiles_returns_references m keys :
  well_formed m ->
  (forall p, p ∈ metadata.ListFiles m keys <->
             exists filename, filename ∈ keys /\ files m !! filename = Some p) /\
  (forall now filename filesize chunkCount m',
     metadata.AddFile m now filename filesize chunkCount = Some m' ->
     contents m' (metadata.ListFiles m keys) = contents m (metadata.ListFiles m keys)) /\
  (forall filename chunkHandle,
     map (fmap (fun file => with_chunks file []))
         (contents (metadata.AddChunkToFile m filename chunkHandle) (metadata.ListFiles m keys))
       = map (fmap (fun file => with_chunks file []))
             (contents m (metadata.ListFiles m keys)) /\
     forall p,
       heap (metadata.AddChunkToFile m filename chunkHandle) !! p =
         if decide (files m !! filename = Some p)
         then metadata.appendChunk chunkHandle <$> heap m !! p
         else heap m !! p).
Proof.
  intros Hwf. split; [|split].
  - intros p. unfold metadata.ListFiles. rewrite list_elem_of_omap. naive_solver.
  - intros now filename filesize chunkCount m' Hadd.
    unfold metadata.AddFile in Hadd.
    destruct (chunkCount <? 0); [done|]. injection Hadd as <-.
    unfold contents. apply map_ext_in. intros p Hp%list_elem_of_In. cbn [heap].
    apply lookup_insert_ne. intros <-.
    unfold metadata.ListFiles in Hp. apply list_elem_of_omap in Hp as (f & _ & Hf).
    apply Hwf, elem_of_dom in Hf. by apply is_fresh in Hf.
  - intros filename chunkHandle.
    assert (forall p,
              heap (metadata.AddChunkToFile m filename chunkHandle) !! p =
                if decide (files m !! filename = Some p)
                then metadata.appendChunk chunkHandle <$> heap m !! p
                else heap m !! p) as Hheap.
    { intros p. unfold metadata.AddChunkToFile.
      destruct (files m !! filename) as [q|] eqn:Hq.
      - cbn [heap]. rewrite lookup_alter. 
        destruct (decide (q = p)) as [->|Hne].
        + by rewrite decide_True.
        + rewrite decide_False; [done|congruence].
      - by rewrite decide_False. }
    split; [|exact Hheap].
    unfold contents. rewrite !map_map. apply map_ext. intros p.
    rewrite Hheap. case_decide; [|done].
    by destruct (heap m !! p).
Qed.

Lemma ListFiles_returns_references_witness :
  let m := fst (server.UploadFile rt0 metadata.NewMetadata "a" 1) in
  well_formed m /\
  (forall p, p ∈ metadata.ListFiles m ["a"] <->
             exists filename, filename ∈ ["a"] /\ files m !! filename = Some p) /\
  (forall now filename filesize chunkCount m',
     metadata.AddFile m now filename filesize chunkCount = Some m' ->
     contents m' (metadata.ListFiles m ["a"]) = contents m (metadata.ListFiles m ["a"])) /\
  (forall filename chunkHandle,
     map (fmap (fun file => with_chunks file []))
         (contents (metadata.AddChunkToFile m filename chunkHandle) (metadata.ListFiles m ["a"]))
       = map (fmap (fun file => with_chunks file []))
             (contents m (metadata.ListFiles m ["a"])) /\
     forall p,
       heap (metadata.AddChunkToFile m filename chunkHandle) !! p =
         if decide (files m !! filename = Some p)
         then metadata.appendChunk chunkHandle <$> heap m !! p
         else heap m !! p).
Proof.
  cbv zeta.
  assert (well_formed (fst (server.UploadFile rt0 metadata.NewMetadata "a" 1))) as Hwf.
  { rewrite UploadFile_spec by (vm_compute; discriminate). cbv zeta. cbn [fst].
    intros filename p. cbn [files heap metadata.NewMetadata]. rewrite lookup_insert.
    case_decide; [|by rewrite lookup_empty].
    intros [= <-]. rewrite lookup_insert_eq. eauto. }
  split; [exact Hwf|].
  exact (ListFiles_returns_references _ ["a"] Hwf).
Defined.

(** ** The client's upload, whatever the data nodes do *)

Section upload_any.

Variable Join : string -> string -> string.

(** The server that a write line of the client's log names. *)
Definition attempted (e : event) : option string :=
  match e with
  | write_warning serverAddr => Some serverAddr
  | write_done _ serverAddr => Some serverAddr
  | _ => None
  end.

(** The write was acknowledged. *)
Definition acknowledged (e : event) : bool :=
  match e with
  | write_done _ _ => true
  | _ => false
  end.

(** The parts of the world that writing chunks cannot touch. *)
Definition same_control (w w' : World) : Prop :=
  masterUp w' = masterUp w /\ coordinator w' = coordinator w /\ localfs w' = localfs w.

Lemma writeChunkToServer_control w serverAddr h data idx :
  same_control w (fst (client.writeChunkToServer Join w serverAddr h data idx)) /\
  clientLog (fst (client.writeChunkToServer Join w serverAddr h data idx)) = clientLog w.
Proof.
  unfold client.writeChunkToServer, same_control.
  destruct (nodes w !! serverAddr) as [node|]; [|done].
  by destruct (chunkserver.WriteChunk Join (store node) (disk node) h data) as [[[? ?] ?] ?].
Qed.

(** Every replica is tried, in order, and each try leaves one line. *)
Lemma writeReplicas_log addrs h data idx :
  forall w,
    same_control w (client.writeReplicas Join w addrs h data idx) /\
    exists news,
      clientLog (client.writeReplicas Join w addrs h data idx) = clientLog w ++ news /\
      omap attempted news = addrs.
Proof.
  induction addrs as [|a addrs IH]; intros w; cbn [client.writeReplicas].
  - split; [done|]. exists []. by rewrite app_nil_r.
  - destruct (writeChunkToServer_control w a h data idx) as [(Hup & Hco & Hfs) Hlog].
    destruct (client.writeChunkToServer Join w a h data idx) as [w1 ok]. cbn [fst] in *.
    set (w2 := if ok then client.logged w1 (write_done idx a)
               else client.logged w1 (write_warning a)).
    assert (same_control w w2 /\
            exists e, clientLog w2 = clientLog w ++ [e] /\ attempted e = Some a)
      as [(Hup2 & Hco2 & Hfs2) (e & Hlog2 & He)].
    { subst w2. destruct ok; cbn; rewrite Hlog; (split; [done|]); eauto. }
    destruct (IH w2) as [(Hup3 & Hco3 & Hfs3) (news & Hlog3 & Hnews)].
    split; [unfold same_control; by rewrite Hup3, Hco3, Hfs3|].
    exists (e :: news). rewrite Hlog3, Hlog2, <- app_assoc. split; [done|].
    cbn. by rewrite He, Hnews.
Qed.

(** The placement's index is one at which the file can be cut. *)
Definition cuttable (data : list byte) (chunkLoc : pb.ChunkLocation) : Prop :=
  0 <= pb.ChunkIndex chunkLoc /\
  pb.ChunkIndex chunkLoc * common.ChunkSize <= Z.of_nat (length data) /\
  Z.of_nat (length data) < 2 ^ 62.

Lemma slice_cuttable data chunkLoc :
  cuttable data chunkLoc ->
  let start := pb.ChunkIndex chunkLoc * common.ChunkSize in
  let end_ := Z.min (start + common.ChunkSize) (Z.of_nat (length data)) in
  common.wrap64 (pb.ChunkIndex chunkLoc * common.ChunkSize) = start /\
  client.slice data (common.wrap64 (pb.ChunkIndex chunkLoc * common.ChunkSize))
    (Z.min (common.wrap64 (common.wrap64 (pb.ChunkIndex chunkLoc * common.ChunkSize)
                           + common.ChunkSize))
           (Z.of_nat (length data)))
    = Some (take (Z.to_nat (end_ - start)) (drop (Z.to_nat start) data)).
Proof.
  intros (H0 & Hle & Hlen). cbv zeta. rewrite ChunkSize_eq in *.
  rewrite !wrap64_id by lia. split; [done|].
  unfold client.slice.
  destruct (Z.leb_spec 0 (pb.ChunkIndex chunkLoc * 67108864)); [|lia].
  destruct (Z.leb_spec (pb.ChunkIndex chunkLoc * 67108864)
              (Z.min (pb.ChunkIndex chunkLoc * 67108864 + 67108864) (Z.of_nat (length data))));
    [done|lia].
Qed.

Lemma uploadChunks_any data chunkLocs :
  forall w,
    Forall (cuttable data) chunkLocs ->
    exists w',
      client.uploadChunks Join w data chunkLocs = (w', Ok tt) /\
      same_control w w' /\
      exists news,
        clientLog w' = clientLog w ++ news /\
        omap attempted news = concat (map pb.ChunkServerAddresses chunkLocs).
Proof.
  induction chunkLocs as [|loc locs IH]; intros w Hall; cbn [client.uploadChunks].
  - exists w. split; [done|]. split; [done|]. exists []. by rewrite app_nil_r.
  - inversion Hall as [|? ? Hcut Hall']; subst.
    unfold client.uploadChunk.
    destruct (slice_cuttable data loc Hcut) as [_ ->].
    set (chunkData := take _ _).
    destruct (writeReplicas_log (pb.ChunkServerAddresses loc) (pb.ChunkHandle loc)
                chunkData (pb.ChunkIndex loc) w) as [(Hup & Hco & Hfs) (news1 & Hlog1 & Hnews1)].
    destruct (IH (client.writeReplicas Join w (pb.ChunkServerAddresses loc)
                    (pb.ChunkHandle loc) chunkData (pb.ChunkIndex loc)) Hall')
      as (w' & -> & (Hup' & Hco' & Hfs') & news2 & Hlog2 & Hnews2).
    exists w'. split; [done|].
    split; [unfold same_control; by rewrite Hup', Hco', Hfs'|].
    exists (news1 ++ news2). rewrite Hlog2, Hlog1, <- app_assoc. split; [done|].
    cbn [map concat]. by rewrite omap_app, Hnews1, Hnews2.
Qed.

(** The placements the coordinator returns for a file can all be cut
    from it, as long as the indices fit an [int32]. *)
Lemma placements_cuttable rt cs filename (data : list byte) :
  Z.of_nat (length data) <= 2 ^ 31 * common.ChunkSize ->
  Forall (cuttable data)
    (map (placement rt cs filename)
       (indices 0 (Z.to_nat (common.CalculateNumChunks (Z.of_nat (length data)))))).
Proof.
  intros Hlen. rewrite ChunkSize_eq in Hlen.
  destruct (CalculateNumChunks_ceil (Z.of_nat (length data)) ltac:(lia)) as [Hn Hceil].
  rewrite ChunkSize_eq in Hceil.
  apply Forall_forall. intros loc Hloc.
  apply list_elem_of_fmap in Hloc as (j & -> & Hj). apply indices_elem in Hj.
  unfold cuttable, placement. cbn [pb.ChunkIndex]. rewrite ChunkSize_eq.
  rewrite int32_id by lia. lia.
Qed.

End upload_any.

(** A system for the examples: the coordinator has one data node on its
    books, heard a second ago, but nobody listens at that address any
    more; the client has a one-byte file. *)
Definition rt1 : Runtime :=
  {| clock := fun _ => 1000000000; order := fun _ => ["localhost:9001"] |}.
Definition unreachable_world : World :=
  {| masterUp := true;
     coordinator := metadata.RegisterChunkServer metadata.NewMetadata 0 "localhost:9001" [];
     nodes := ∅;
     pending := [];
     localfs := {| os.content := {[ "f" := ["x"%byte] ]}; os.denied := ∅ |};
     clientLog := [] |}.

(** C4, as the specification has it, does not hold.  The specification:
    Upload succeeds only when every chunk had a replica write
    acknowledged.  Here the file has one
    chunk, its one replica write fails, the client logs the warning and
    Upload returns success. *)
Lemma client_UploadFile_succeeds_with_no_replica :
  exists w',
    client.UploadFile join0 rt1 unreachable_world "f" "a" = (w', Ok tt) /\
    clientLog w' = [write_warning "localhost:9001"] /\
    List.filter acknowledged (clientLog w') = [].
Proof. eexists. split; [vm_compute; reflexivity|]. split; reflexivity. Qed.

(** C4 (amended).  The client's Upload surfaces an error only when the
    local file cannot be read or the request to the coordinator fails.
    Once the coordinator has answered, Upload returns success whatever
    the replica writes did: every replica of every chunk is tried in
    order, each try leaves its line in the log (a warning when it
    failed), and no failure aborts the upload, not even that of every
    replica of a chunk. *)
Theorem client_UploadFile_ignores_replica_failures
    (Join : string -> string -> string) rt w localPath remoteName :
  (os.ReadFile (localfs w) localPath = None ->
     client.UploadFile Join rt w localPath remoteName = (w, Err client.read_file_failed)) /\
  (forall data,
     os.ReadFile (localfs w) localPath = Some data -> masterUp w = false ->
     client.UploadFile Join rt w localPath remoteName = (w, Err client.request_upload_failed)) /\
  (forall data,
     os.ReadFile (localfs w) localPath = Some data -> masterUp w = true ->
     Z.of_nat (length data) <= 2 ^ 31 * 67108864 ->
     exists w' chunkLocations news,
       client.UploadFile Join rt w localPath remoteName = (w', Ok tt) /\
       snd (server.UploadFile rt (coordinator w) remoteName (Z.of_nat (length data)))
         = Ok chunkLocations /\
       clientLog w' = clientLog w ++ news /\
       omap attempted news = concat (map pb.ChunkServerAddresses chunkLocations)).
Proof.
  unfold client.UploadFile. split; [|split].
  - by intros ->.
  - by intros data -> ->.
  - intros data -> -> Hlen. cbn [negb].
    destruct (CalculateNumChunks_ceil (Z.of_nat (length data))) as [Hn _]; [lia|].
    rewrite UploadFile_spec by exact Hn. cbv zeta. cbn [snd].
    match goal with
    | |- context [client.uploadChunks Join ?w0 data ?locs] =>
        destruct (uploadChunks_any Join data locs w0) as (w' & Hup & _ & news & Hlog & Hnews)
    end.
    { apply placements_cuttable. by rewrite ChunkSize_eq. }
    exists w'. eexists. exists news. split; [exact Hup|]. split; [reflexivity|].
    split; [exact Hlog|exact Hnews].
Qed.

(** ** Cutting a file into chunks and putting it together again *)

(** The bytes of chunk [j]: from [j * ChunkSize] up to the next boundary
    or the end of the file. *)
Definition chunk_of (data : list byte) (j : Z) : list byte :=
  let start := j * common.ChunkSize in
  let end_ := Z.min (start + common.ChunkSize) (Z.of_nat (length data)) in
  take (Z.to_nat (end_ - start)) (drop (Z.to_nat start) data).






(** ** Writing to data nodes that work *)

Section healthy_nodes.

Variable Join : string -> string -> string.








End healthy_nodes.

(** ** Reports reaching the coordinator *)

Lemma AddChunkLocation_lookup m h0 a0 h c :
  chunks m !! h = Some c ->
  exists c',
    chunks (metadata.AddChunkLocation m h0 a0) !! h = Some c' /\
    ChunkIndex c' = ChunkIndex c /\
    (forall a, a ∈ Locations c' <-> a ∈ Locations c \/ (h = h0 /\ a = a0)).
Proof.
  intros Hc. unfold metadata.AddChunkLocation.
  destruct (chunks m !! h0) as [c0|] eqn:Hc0.
  - destruct (bool_decide (a0 ∈ Locations c0)) eqn:Hin.
    + apply bool_decide_eq_true in Hin. exists c. split; [done|]. split; [done|].
      intros a. split; [by left|]. intros [?|[-> ->]]; [done|]. congruence.
    + cbn [chunks]. rewrite lookup_insert. destruct (decide (h0 = h)) as [->|Hne].
      * assert (c0 = c) as -> by congruence.
        eexists. split; [done|]. split; [done|]. cbn. intros a.
        rewrite elem_of_app, list_elem_of_singleton. split.
        -- intros [?|Ha]; [by left|right; by subst].
        -- intros [?|[_ Ha]]; [by left|right; by subst].
      * exists c. split; [done|]. split; [done|].
        intros a. split; [by left|]. intros [?|[Hh _]]; [done|by subst].
  - exists c. split; [done|]. split; [done|].
    intros a. split; [by left|]. intros [?|[-> ->]]; [done|]. congruence.
Qed.

Lemma AddChunkLocation_frame m h0 a0 :
  files (metadata.AddChunkLocation m h0 a0) = files m /\
  heap (metadata.AddChunkLocation m h0 a0) = heap m /\
  chunkServers (metadata.AddChunkLocation m h0 a0) = chunkServers m.
Proof.
  unfold metadata.AddChunkLocation.
  destruct (chunks m !! h0) as [c0|]; [|done].
  by destruct (bool_decide (a0 ∈ Locations c0)).
Qed.

Lemma deliver_up w h0 a0 :
  masterUp w = true ->
  masterUp (deliver w (h0, a0)) = true /\
  nodes (deliver w (h0, a0)) = nodes w /\
  localfs (deliver w (h0, a0)) = localfs w /\
  coordinator (deliver w (h0, a0)) = metadata.AddChunkLocation (coordinator w) h0 a0.
Proof. intros Hup. unfold deliver. cbn. by rewrite Hup. Qed.

(** Once all of [reports] have arrived, a chunk's locations are those it
    had and those reported for it. *)
Lemma fold_deliver_spec reports :
  forall w,
    masterUp w = true ->
    let w' := fold_left deliver reports w in
    masterUp w' = true /\ nodes w' = nodes w /\ localfs w' = localfs w /\
    files (coordinator w') = files (coordinator w) /\
    heap (coordinator w') = heap (coordinator w) /\
    (forall h c, chunks (coordinator w) !! h = Some c ->
       exists c',
         chunks (coordinator w') !! h = Some c' /\
         ChunkIndex c' = ChunkIndex c /\
         (forall a, a ∈ Locations c' <-> a ∈ Locations c \/ (h, a) ∈ reports)).
Proof.
  induction reports as [|[h0 a0] reports IH]; intros w Hup; cbn [fold_left]; cbv zeta.
  - repeat split; try done. intros h c Hc. exists c. split; [done|]. split; [done|].
    intros a. rewrite elem_of_nil. tauto.
  - destruct (deliver_up w h0 a0 Hup) as (Hup1 & Hn1 & Hfs1 & Hco1).
    destruct (IH (deliver w (h0, a0)) Hup1) as (Hup' & Hn' & Hfs' & Hf' & Hh' & Hc').
    destruct (AddChunkLocation_frame (coordinator w) h0 a0) as (Hf0 & Hh0 & _).
    split; [done|]. split; [congruence|]. split; [congruence|].
    split; [by rewrite Hf', Hco1, Hf0|]. split; [by rewrite Hh', Hco1, Hh0|].
    intros h c Hc.
    destruct (AddChunkLocation_lookup (coordinator w) h0 a0 h c Hc) as (c1 & Hc1 & Hi1 & Hl1).
    destruct (Hc' h c1) as (c2 & Hc2 & Hi2 & Hl2); [by rewrite Hco1|].
    exists c2. split; [done|]. split; [congruence|].
    intros a. rewrite Hl2, Hl1, elem_of_cons. split.
    + intros [[?|[Hh Ha]]|?]; [by left|right; left; by subst|by right; right].
    + intros [?|[Heq|?]]; [by left; left|left; right; by injection Heq|by right].
Qed.

Lemma settle_spec reports w :
  masterUp w = true ->
  masterUp (settle w reports) = true /\
  nodes (settle w reports) = nodes w /\
  localfs (settle w reports) = localfs w /\
  files (coordinator (settle w reports)) = files (coordinator w) /\
  heap (coordinator (settle w reports)) = heap (coordinator w) /\
  (forall h c, chunks (coordinator w) !! h = Some c ->
     exists c',
       chunks (coordinator (settle w reports)) !! h = Some c' /\
       ChunkIndex c' = ChunkIndex c /\
       (forall a, a ∈ Locations c' <-> a ∈ Locations c \/ (h, a) ∈ reports)).
Proof. intros Hup. unfold settle. cbn. by apply fold_deliver_spec. Qed.

(** ** Reading back from data nodes that hold the chunks *)

Section reading.

Variable Join : string -> string -> string.







End reading.




(** ** Upload, then download *)





(** A system for the examples: one data node, heard by the coordinator a
    second ago, and a client with a small file. *)
Definition hello : list byte := list_byte_of_string "hello world".
Definition world1 : World :=
  {| masterUp := true;
     coordinator := metadata.RegisterChunkServer metadata.NewMetadata 0 "localhost:9001" [];
     nodes := {[ "localhost:9001" := {| store := storage0; disk := fs0 |} ]};
     pending := [];
     localfs := {| os.content := {[ "hello.txt" := hello ]}; os.denied := ∅ |};
     clientLog := [] |}.

(** The model run on that system: one chunk, under the handle of
    ("h.txt", 0), acknowledged by the node; after the report the download
    writes the same bytes. *)
Example upload_then_download_run :
  let up := client.UploadFile join0 rt1 world1 "hello.txt" "h.txt" in
  let down := client.DownloadFile join0 (settle (fst up) (pending (fst up))) "h.txt" "out.txt" in
  snd up = Ok tt /\
  pending (fst up) = [("0bcc17403e59c64cbfc330d225411cc6", "localhost:9001")] /\
  clientLog (fst up) = [write_done 0 "localhost:9001"] /\
  snd down = Ok tt /\
  os.ReadFile (localfs (fst down)) "out.txt" = Some hello /\
  snd (client.DownloadFile join0 (fst up) "h.txt" "out.txt")
    = Err (client.download_chunk_failed 0).
Proof. vm_compute. repeat split. Qed.

(** Two data nodes hold the chunk; the first stops before the download,
    which passes it over with a warning and reads from the second. *)
Definition rt2 : Runtime :=
  {| clock := fun _ => 1000000000; order := fun _ => ["localhost:9001"; "localhost:9002"] |}.
Definition world2 : World :=
  {| masterUp := true;
     coordinator :=
       metadata.RegisterChunkServer
         (metadata.RegisterChunkServer metadata.NewMetadata 0 "localhost:9001" [])
         0 "localhost:9002" [];
     nodes := {[ "localhost:9001" := {| store := storage0; disk := fs0 |};
                 "localhost:9002" := {| store := storage0; disk := fs0 |} ]};
     pending := [];
     localfs := {| os.content := {[ "hello.txt" := hello ]}; os.denied := ∅ |};
     clientLog := [] |}.

Example download_with_one_dead_replica :
  let up := client.UploadFile join0 rt2 world2 "hello.txt" "h.txt" in
  let later := unplug (settle (fst up) (pending (fst up))) {[ "localhost:9001" ]} in
  let down := client.DownloadFile join0 later "h.txt" "out.txt" in
  snd up = Ok tt /\
  clientLog (fst up) = [write_done 0 "localhost:9001"; write_done 0 "localhost:9002"] /\
  snd down = Ok tt /\
  clientLog (fst down) =
    clientLog (fst up) ++ [read_warning "localhost:9001"; read_done 0 "localhost:9002"] /\
  os.ReadFile (localfs (fst down)) "out.txt" = Some hello.
Proof. vm_compute. repeat split. Qed.


(** * Further properties of the code *)

(** ** Chunk handles *)

Lemma round_length st kw : length st = 8%nat -> length (sha256.round st kw) = 8%nat.
Proof. destruct st as [|a [|b [|c [|d [|e [|f [|g [|h [|? ?]]]]]]]]]; done. Qed.

Lemma rounds_length kws :
  forall st, length st = 8%nat -> length (fold_left sha256.round kws st) = 8%nat.
Proof.
  induction kws as [|kw kws IH]; intros st Hst; simpl; [done|].
  apply IH. by apply round_length.
Qed.

Lemma block_length st blk : length st = 8%nat -> length (sha256.block st blk) = 8%nat.
Proof.
  intros Hst. unfold sha256.block.
  rewrite length_map, length_combine, rounds_length by done. rewrite Hst. reflexivity.
Qed.

Lemma blocks_length blks :
  forall st, length st = 8%nat -> length (fold_left sha256.block blks st) = 8%nat.
Proof.
  induction blks as [|blk blks IH]; intros st Hst; simpl; [done|].
  apply IH. by apply block_length.
Qed.

(** A digest has 32 bytes. *)
Lemma Sum256_length data : length (sha256.Sum256 data) = 32%nat.
Proof.
  unfold sha256.Sum256.
  pose proof (blocks_length (sha256.pieces 64 (length (sha256.pad data)) (sha256.pad data))
                sha256.H0 eq_refl) as Hst.
  destruct (fold_left sha256.block _ sha256.H0)
    as [|a [|b [|c [|d [|e [|f [|g [|h [|? ?]]]]]]]]]; done.
Qed.

Definition is_byte (b : Z) : Prop := 0 <= b < 256.

Lemma Sum256_bytes data : Forall is_byte (sha256.Sum256 data).
Proof.
  unfold sha256.Sum256. apply Forall_concat, Forall_forall.
  intros bs Hbs. apply list_elem_of_fmap in Hbs as (z & -> & _).
  unfold sha256.be_bytes. apply Forall_forall. intros b Hb.
  apply list_elem_of_fmap in Hb as (i & -> & _).
  unfold is_byte. apply Z.mod_pos_bound. lia.
Qed.

Definition hexdigits : list ascii := list_ascii_of_string "0123456789abcdef".

(** The value of a hexadecimal digit. *)
Definition unhex (c : ascii) : Z :=
  match list_find (fun c' => c' = c) hexdigits with
  | Some (i, _) => Z.of_nat i
  | None => 0
  end.

Lemma unhex_hexdigit d : 0 <= d < 16 -> unhex (fmt.hexdigit d) = d.
Proof.
  intros Hd.
  assert (d = 0 \/ d = 1 \/ d = 2 \/ d = 3 \/ d = 4 \/ d = 5 \/ d = 6 \/ d = 7 \/
          d = 8 \/ d = 9 \/ d = 10 \/ d = 11 \/ d = 12 \/ d = 13 \/ d = 14 \/ d = 15)
    as Hcases by lia.
  repeat (destruct Hcases as [->|Hcases]; [vm_compute; reflexivity|]).
  subst d. vm_compute. reflexivity.
Qed.

Lemma hexdigit_elem d : 0 <= d < 16 -> fmt.hexdigit d ∈ hexdigits.
Proof.
  intros Hd. unfold fmt.hexdigit. fold hexdigits.
  apply list_elem_of_In, nth_In. change (length hexdigits) with 16%nat. lia.
Qed.

Lemma hex_length bs : String.length (fmt.hex bs) = (2 * length bs)%nat.
Proof. induction bs as [|b bs IH]; simpl; [done|]. rewrite IH. lia. Qed.

Lemma hex_digits bs :
  Forall is_byte bs -> Forall (fun c => c ∈ hexdigits) (list_ascii_of_string (fmt.hex bs)).
Proof.
  induction 1 as [|b bs Hb _ IH]; simpl; [constructor|]. unfold is_byte in Hb.
  constructor; [apply hexdigit_elem; split; [apply Z.div_pos|apply Z.div_lt_upper_bound]; lia|].
  constructor; [apply hexdigit_elem, Z.mod_pos_bound; lia|]. exact IH.
Qed.

Lemma hex_inj bs1 :
  forall bs2, Forall is_byte bs1 -> Forall is_byte bs2 ->
    fmt.hex bs1 = fmt.hex bs2 -> bs1 = bs2.
Proof.
  induction bs1 as [|b1 bs1 IH]; intros [|b2 bs2] H1 H2 Heq; simpl in Heq; try done.
  injection Heq as Hhi Hlo Hrest.
  inversion H1 as [|? ? Hb1 H1']; inversion H2 as [|? ? Hb2 H2']; subst.
  unfold is_byte in *.
  assert (b1 / 16 = b2 / 16) as Hq.
  { rewrite <- (unhex_hexdigit (b1 / 16)), <- (unhex_hexdigit (b2 / 16)); [by rewrite Hhi|..];
      (split; [apply Z.div_pos|apply Z.div_lt_upper_bound]; lia). }
  assert (b1 mod 16 = b2 mod 16) as Hr.
  { rewrite <- (unhex_hexdigit (b1 mod 16)), <- (unhex_hexdigit (b2 mod 16));
      [by rewrite Hlo|..]; apply Z.mod_pos_bound; lia. }
  f_equal; [|by apply IH].
  rewrite (Z.div_mod b1 16), (Z.div_mod b2 16) by lia. by rewrite Hq, Hr.
Qed.

(** X1.  Every chunk handle is a string of 32 characters, each of them
    one of 0123456789abcdef. *)
Theorem GenerateChunkHandle_format filename chunkIndex :
  String.length (common.GenerateChunkHandle filename chunkIndex) = 32%nat /\
  Forall (fun c => c ∈ list_ascii_of_string "0123456789abcdef")
         (list_ascii_of_string (common.GenerateChunkHandle filename chunkIndex)).
Proof.
  unfold common.GenerateChunkHandle. cbv zeta. split.
  - rewrite hex_length, length_take, Sum256_length. reflexivity.
  - apply hex_digits. apply Forall_take, Sum256_bytes.
Qed.

(** The bytes that [GenerateChunkHandle] hashes: [[]byte(data)]. *)
Definition hashed (filename : string) (chunkIndex : Z) : list Z :=
  map fmt.byte_Z (list_byte_of_string (filename +:+ "-" +:+ fmt.dec chunkIndex)).

Lemma byte_Z_inj b1 b2 : fmt.byte_Z b1 = fmt.byte_Z b2 -> b1 = b2.
Proof.
  unfold fmt.byte_Z. intros Heq%N2Z.inj.
  pose proof (Byte.of_to_N b1) as H1. rewrite Heq, Byte.of_to_N in H1. congruence.
Qed.

Lemma map_byte_Z_inj l1 : forall l2, map fmt.byte_Z l1 = map fmt.byte_Z l2 -> l1 = l2.
Proof.
  induction l1 as [|b1 l1 IH]; intros [|b2 l2] Heq; simpl in Heq; try done.
  injection Heq as Hb Hl. f_equal; [by apply byte_Z_inj|by apply IH].
Qed.

Lemma hashed_inj_string f1 i1 f2 i2 :
  hashed f1 i1 = hashed f2 i2 ->
  f1 +:+ "-" +:+ fmt.dec i1 = f2 +:+ "-" +:+ fmt.dec i2.
Proof.
  intros Heq%map_byte_Z_inj.
  rewrite <- (string_of_list_byte_of_string (f1 +:+ _)),
          <- (string_of_list_byte_of_string (f2 +:+ _)). by rewrite Heq.
Qed.

(** The string has no minus sign in it. *)
Fixpoint dashless (s : string) : Prop :=
  match s with
  | EmptyString => True
  | String c s' => c <> "-"%char /\ dashless s'
  end.

Lemma pretty_N_go_dashless x :
  forall s, dashless s -> dashless (pretty_N_go x s).
Proof.
  induction (N.lt_wf_0 x) as [x _ IH]; intros s Hs.
  assert (x = 0 \/ 0 < x)%N as [->|Hx] by lia.
  - by rewrite pretty_N_go_0.
  - rewrite pretty_N_go_step by done. apply IH; [by apply N.div_lt|].
    split; [|done]. unfold pretty_N_char. by repeat case_match.
Qed.

Lemma dec_dashless z : 0 <= z -> dashless (fmt.dec z).
Proof.
  intros Hz. unfold fmt.dec, pretty, pretty_Z. destruct z as [|p|p]; [by repeat split| |lia].
  unfold pretty, pretty_positive, pretty, pretty_N.
  case_decide; [by repeat split|]. by apply pretty_N_go_dashless.
Qed.

Lemma append_String c s d : String c s +:+ d = String c (s +:+ d).
Proof. reflexivity. Qed.

Lemma append_Empty d : "" +:+ d = d.
Proof. reflexivity. Qed.

Lemma dashless_append_dash s d : ~ dashless (s +:+ "-" +:+ d).
Proof.
  induction s as [|c s IH]; rewrite ?append_String, ?append_Empty; simpl.
  - by intros [? _].
  - intros [_ H]. by apply IH.
Qed.

(** A name, a minus sign and digits: the last minus sign tells where the
    name ends. *)
Lemma append_dash_inj s1 :
  forall s2 d1 d2,
    dashless d1 -> dashless d2 ->
    s1 +:+ "-" +:+ d1 = s2 +:+ "-" +:+ d2 -> s1 = s2 /\ d1 = d2.
Proof.
  induction s1 as [|c1 s1 IH]; intros [|c2 s2] d1 d2 H1 H2 Heq;
    rewrite ?append_String, ?append_Empty in Heq.
  - by injection Heq as ->.
  - injection Heq as <- ->. by apply dashless_append_dash in H1.
  - injection Heq as -> <-. by apply dashless_append_dash in H2.
  - injection Heq as -> Heq. destruct (IH s2 d1 d2 H1 H2 Heq) as [-> ->]. done.
Qed.

(** X2.  A handle is the hexadecimal form of the first 16 bytes of the
    digest of "name-index", and for indices that are not negative that
    string tells name and index apart: two chunks have the same handle
    exactly when the truncated digests of their strings agree, and their
    strings agree only if they are the same chunk of the same file. *)
Theorem GenerateChunkHandle_collides_only_in_digest f1 i1 f2 i2 :
  0 <= i1 -> 0 <= i2 ->
  (common.GenerateChunkHandle f1 i1 = common.GenerateChunkHandle f2 i2 <->
   firstn 16 (sha256.Sum256 (hashed f1 i1)) = firstn 16 (sha256.Sum256 (hashed f2 i2))) /\
  (hashed f1 i1 = hashed f2 i2 -> f1 = f2 /\ i1 = i2).
Proof.
  intros H1 H2. split.
  - unfold common.GenerateChunkHandle. cbv zeta. fold (hashed f1 i1). fold (hashed f2 i2).
    split; [|by intros ->].
    apply hex_inj; apply Forall_take, Sum256_bytes.
  - intros Heq%hashed_inj_string.
    apply append_dash_inj in Heq as [-> Hdec]; [|by apply dec_dashless..].
    split; [done|]. unfold fmt.dec in Hdec. by apply (inj pretty) in Hdec.
Qed.

Lemma GenerateChunkHandle_collides_only_in_digest_witness :
  0 <= 0 /\ 0 <= 1 /\
  (common.GenerateChunkHandle "big.bin" 0 = common.GenerateChunkHandle "big.bin" 1 <->
   firstn 16 (sha256.Sum256 (hashed "big.bin" 0))
     = firstn 16 (sha256.Sum256 (hashed "big.bin" 1))) /\
  (hashed "big.bin" 0 = hashed "big.bin" 1 -> "big.bin" = "big.bin" /\ 0 = 1).
Proof.
  split; [lia|]. split; [lia|].
  apply (GenerateChunkHandle_collides_only_in_digest "big.bin" 0 "big.bin" 1); lia.
Defined.

(** With a negative index the string is ambiguous: chunk -5 of "a" and
    chunk 5 of "a-" are hashed alike. *)
Example hashed_negative_index : hashed "a" (-5) = hashed "a-" 5.
Proof. vm_compute. reflexivity. Qed.

(** ** Sizes that are negative *)

(** [CalculateNumChunks] on a negative size: the division truncates
    towards zero, so the count is that of the size negated, negated, plus
    one if the size is no multiple of the chunk size. *)
Lemma CalculateNumChunks_negative size :
  - 2 ^ 63 <= size < 0 ->
  common.CalculateNumChunks size =
    - ((- size) / 67108864) + (if (- size) mod 67108864 =? 0 then 0 else 1).
Proof.
  intros Hs. unfold common.CalculateNumChunks. cbv zeta. rewrite ChunkSize_eq.
  remember (- size) as t eqn:Ht. assert (size = - t) as -> by lia.
  rewrite Z.quot_opp_l, Z.rem_opp_l by lia.
  rewrite Z.quot_div_nonneg, Z.rem_mod_nonneg by lia.
  pose proof (Z.mod_pos_bound t 67108864 ltac:(lia)) as Hb.
  pose proof (Z.div_mod t 67108864 ltac:(lia)) as Hdm.
  assert (0 <= t / 67108864 < 2 ^ 62) as Hq.
  { split; [apply Z.div_pos; lia|apply Z.div_lt_upper_bound; lia]. }
  destruct (Z.eqb_spec (t mod 67108864) 0) as [E|E].
  - rewrite E. simpl. lia.
  - destruct (Z.eqb_spec (- (t mod 67108864)) 0) as [E'|E']; [lia|].
    cbn [negb]. rewrite wrap64_id by lia. lia.
Qed.

(** X3.  What UploadFile does with a negative size.  A size above
    -CHUNK_SIZE is taken for a file of one chunk; a size strictly between
    -2 * CHUNK_SIZE and -CHUNK_SIZE for a file without chunks; the size
    -CHUNK_SIZE and every size from -2 * CHUNK_SIZE downwards make the
    handler panic (a negative capacity in AddFile) before anything is
    recorded.  No size that is not negative does. *)
Theorem UploadFile_negative_size rt m filename filesize :
  - 2 ^ 63 <= filesize < 2 ^ 63 ->
  (snd (server.UploadFile rt m filename filesize) = Panic <->
   filesize = - 67108864 \/ filesize <= - 134217728) /\
  (- 67108864 < filesize < 0 ->
   exists m' loc,
     server.UploadFile rt m filename filesize = (m', Ok [loc]) /\
     pb.ChunkIndex loc = 0 /\
     pb.ChunkHandle loc = common.GenerateChunkHandle filename 0) /\
  (- 134217728 < filesize < - 67108864 ->
   exists m', server.UploadFile rt m filename filesize = (m', Ok [])).
Proof.
  intros Hs.
  assert (filesize < 0 ->
          common.CalculateNumChunks filesize =
            - ((- filesize) / 67108864) + (if (- filesize) mod 67108864 =? 0 then 0 else 1))
    as Hneg by (intros; apply CalculateNumChunks_negative; lia).
  pose proof (Z.mod_pos_bound (- filesize) 67108864 ltac:(lia)) as Hb.
  pose proof (Z.div_mod (- filesize) 67108864 ltac:(lia)) as Hdm.
  split; [|split].
  - destruct (Z.lt_ge_cases (common.CalculateNumChunks filesize) 0) as [Hn|Hn].
    + rewrite UploadFile_panic by done. cbn [snd]. split; [intros _|done].
      destruct (Z.lt_ge_cases filesize 0) as [Hlt|Hge].
      * rewrite Hneg in Hn by done.
        destruct (Z.eqb_spec (- filesize mod 67108864) 0); lia.
      * destruct (CalculateNumChunks_ceil filesize ltac:(lia)) as [? _]. lia.
    + rewrite UploadFile_spec by done. cbv zeta. cbn [snd]. split; [done|].
      intros Hcases. exfalso. rewrite Hneg in Hn by lia.
      destruct (Z.eqb_spec (- filesize mod 67108864) 0); lia.
  - intros Hr.
    assert (common.CalculateNumChunks filesize = 1) as Hone.
    { rewrite Hneg by lia. rewrite Z.div_small, Z.mod_small by lia.
      destruct (Z.eqb_spec (- filesize) 0); lia. }
    rewrite UploadFile_spec by lia. cbv zeta. rewrite Hone. simpl.
    eexists _, _. split; [reflexivity|]. done.
  - intros Hr.
    assert (common.CalculateNumChunks filesize = 0) as Hzero.
    { rewrite Hneg by lia.
      assert (- filesize / 67108864 = 1) as Hq by lia.
      rewrite Hq in *.
      destruct (Z.eqb_spec (- filesize mod 67108864) 0); lia. }
    rewrite UploadFile_spec by lia. cbv zeta. rewrite Hzero. simpl.
    eexists. reflexivity.
Qed.

Lemma UploadFile_negative_size_witness :
  - 2 ^ 63 <= - 5 < 2 ^ 63 /\
  (snd (server.UploadFile rt0 metadata.NewMetadata "a" (- 5)) = Panic <->
   - 5 = - 67108864 \/ - 5 <= - 134217728) /\
  (- 67108864 < - 5 < 0 ->
   exists m' loc,
     server.UploadFile rt0 metadata.NewMetadata "a" (- 5) = (m', Ok [loc]) /\
     pb.ChunkIndex loc = 0 /\
     pb.ChunkHandle loc = common.GenerateChunkHandle "a" 0) /\
  (- 134217728 < - 5 < - 67108864 ->
   exists m', server.UploadFile rt0 metadata.NewMetadata "a" (- 5) = (m', Ok [])).
Proof.
  split; [lia|].
  apply (UploadFile_negative_size rt0 metadata.NewMetadata "a" (- 5)). lia.
Defined.

(** ** What every state of the coordinator satisfies *)

(** The record is what UploadFile leaves for a file of that name. *)
Definition file_consistent (filename : string) (file : FileMetadata) : Prop :=
  Filename file = filename /\
  0 <= ChunkCount file /\
  ChunkCount file = common.CalculateNumChunks (Filesize file) /\
  Chunks file = map (common.GenerateChunkHandle filename)
                    (indices 0 (Z.to_nat (ChunkCount file))).

(** The record is what AddChunk wrote under the handle [h], but for its
    locations. *)
Definition chunk_consistent (h : string) (c : ChunkMetadata) : Prop :=
  ChunkHandle c = h /\ Version c = 1 /\
  exists j, 0 <= j /\ h = common.GenerateChunkHandle (ChunkFilename c) j /\
            ChunkIndex c = common.int32 j.

Definition consistent (m : Metadata) : Prop :=
  (forall filename p, files m !! filename = Some p ->
     exists file, heap m !! p = Some file /\ file_consistent filename file /\
                  forall h, h ∈ Chunks file -> is_Some (chunks m !! h)) /\
  (forall h c, chunks m !! h = Some c -> chunk_consistent h c) /\
  (forall a s, chunkServers m !! a = Some s -> Address s = a).

Lemma fold_add_chunk_inv filename l :
  forall cs h c,
    fold_left (add_chunk filename) l cs !! h = Some c ->
    cs !! h = Some c \/
    exists j, j ∈ l /\ h = common.GenerateChunkHandle filename j /\ c = fresh_chunk filename j.
Proof.
  induction l as [|a l IH]; intros cs h c Hc; simpl in Hc; [by left|].
  apply IH in Hc as [Hc|(j & Hj & -> & ->)].
  - unfold add_chunk in Hc. rewrite lookup_insert in Hc. case_decide as Hh; [|by left].
    injection Hc as <-. right. exists a. split; [apply list_elem_of_here|done].
  - right. exists j. split; [by apply list_elem_of_further|done].
Qed.

Lemma fold_add_chunk_keeps filename l :
  forall cs h, is_Some (cs !! h) -> is_Some (fold_left (add_chunk filename) l cs !! h).
Proof.
  induction l as [|a l IH]; intros cs h Hh; simpl; [done|].
  apply IH. unfold add_chunk. rewrite lookup_insert. case_decide; [eauto|done].
Qed.

Lemma consistent_NewMetadata : consistent metadata.NewMetadata.
Proof.
  split; [|split]; intros k v; cbn [metadata.NewMetadata files chunks chunkServers];
    by rewrite lookup_empty.
Qed.

Lemma consistent_UploadFile rt m filename filesize :
  consistent m -> 0 <= common.CalculateNumChunks filesize ->
  consistent (fst (server.UploadFile rt m filename filesize)).
Proof.
  intros (Hfiles & Hchunks & Hservers) Hn.
  rewrite UploadFile_spec by done. cbv zeta. cbn [fst].
  split; [|split]; cbn [files heap chunks chunkServers].
  - intros name p. rewrite lookup_insert. case_decide as Hname.
    + intros [= <-]. subst name. exists (uploaded_file rt filename filesize).
      split; [apply lookup_insert_eq|]. split; [by repeat split|].
      intros h Hh. cbn [uploaded_file Chunks] in Hh.
      apply list_elem_of_fmap in Hh as (j & -> & Hj). by apply fold_add_chunk_is_Some.
    + intros Hp. destruct (Hfiles name p Hp) as (file & Hfile & Hcons & Hhandles).
      exists file. split; [|split; [done|]].
      * rewrite lookup_insert_ne; [done|]. intros <-.
        assert (fresh (dom (heap m)) ∈ dom (heap m)) as Hin by (apply elem_of_dom; eauto).
        by apply is_fresh in Hin.
      * intros h Hh. by apply fold_add_chunk_keeps, Hhandles.
  - intros h c Hc. apply fold_add_chunk_inv in Hc as [Hc|(j & Hj & -> & ->)];
      [by apply Hchunks|].
    apply indices_elem in Hj. split; [done|]. split; [done|].
    exists j. cbn. split; [lia|done].
  - exact Hservers.
Qed.

Lemma consistent_AddChunkLocation m h address :
  consistent m -> consistent (metadata.AddChunkLocation m h address).
Proof.
  intros (Hfiles & Hchunks & Hservers). unfold metadata.AddChunkLocation.
  destruct (chunks m !! h) as [c|] eqn:Hc; [|done].
  destruct (bool_decide (address ∈ Locations c)); [done|].
  split; [|split]; cbn [files heap chunks chunkServers]; [| |done].
  - intros name p Hp. destruct (Hfiles name p Hp) as (file & Hfile & Hcons & Hhandles).
    exists file. split; [done|]. split; [done|].
    intros h' Hh'. rewrite lookup_insert. case_decide; [eauto|by apply Hhandles].
  - intros h' c'. rewrite lookup_insert. case_decide as Hh; [|by apply Hchunks].
    intros [= <-]. subst h'. by apply Hchunks in Hc.
Qed.

Lemma consistent_RegisterChunkServer m now address handles :
  consistent m -> consistent (metadata.RegisterChunkServer m now address handles).
Proof.
  intros (Hfiles & Hchunks & Hservers). unfold metadata.RegisterChunkServer.
  destruct (chunkServers m !! address) as [server|] eqn:Hs;
    (split; [|split]); cbn [files heap chunks chunkServers]; try done;
    intros a s; rewrite lookup_insert; (case_decide as Ha; [|by apply Hservers]);
    intros [= <-]; subst a; cbn; [by apply Hservers in Hs|done].
Qed.

Lemma consistent_serve m req m' :
  consistent m -> serve m req = Some m' -> consistent m'.
Proof.
  intros Hcons Hserve.
  destruct req as [rt f s|f|keys|now a hs|h a]; cbn [serve] in Hserve;
    apply survive_Some in Hserve.
  - destruct (Z.lt_ge_cases (common.CalculateNumChunks s) 0) as [Hneg|Hpos].
    + rewrite UploadFile_panic in Hserve by done. simpl in Hserve. by subst.
    + subst m'. by apply consistent_UploadFile.
  - rewrite DownloadFile_fst in Hserve. by subst.
  - simpl in Hserve. by subst.
  - simpl in Hserve. subst. by apply consistent_RegisterChunkServer.
  - simpl in Hserve. subst. by apply consistent_AddChunkLocation.
Qed.

Lemma consistent_run reqs :
  forall m m', consistent m -> run m reqs = Some m' -> consistent m'.
Proof.
  induction reqs as [|req reqs IH]; intros m m' Hcons Hrun; simpl in Hrun.
  - by injection Hrun as <-.
  - destruct (serve m req) as [m1|] eqn:Hserve; [|done].
    eapply IH; [|done]. by eapply consistent_serve.
Qed.

Lemma indices_lookup n : forall i k j, indices i n !! k = Some j -> j = i + Z.of_nat k.
Proof.
  induction n as [|n IH]; intros i k j Hj; [done|].
  destruct k as [|k]; simpl in Hj.
  - injection Hj as <-. lia.
  - apply IH in Hj. lia.
Qed.



(** A coordinator that has served two uploads, a heartbeat and a report. *)
Definition served_requests : list request :=
  [UploadFileRequest rt0 "a" 5;
   HeartbeatRequest 0 "localhost:9001" [];
   UploadFileRequest rt0 "b" 67108865;
   ReportChunkRequest (common.GenerateChunkHandle "b" 1) "localhost:9001"].

Definition served_state : Metadata :=
  Eval vm_compute in
    default metadata.NewMetadata (run metadata.NewMetadata served_requests).

Lemma run_served_requests : run metadata.NewMetadata served_requests = Some served_state.
Proof. vm_compute. reflexivity. Qed.





Lemma fold_add_chunk_fresh filename l :
  forall cs h,
    h ∈ map (common.GenerateChunkHandle filename) l ->
    exists j, fold_left (add_chunk filename) l cs !! h = Some (fresh_chunk filename j).
Proof.
  induction l as [|a l IH]; intros cs h Hh; [by apply elem_of_nil in Hh|].
  simpl. destruct (decide (h ∈ map (common.GenerateChunkHandle filename) l)) as [Hin|Hout].
  - by apply IH.
  - simpl in Hh. apply elem_of_cons in Hh as [->|Hh]; [|done].
    exists a. rewrite fold_add_chunk_other by done. apply lookup_insert_eq.
Qed.

(** What a request leaves of the locations of [h]: an address listed
    after it was listed before, unless the request is the report of that
    address for [h]; and an upload that allocates [h] leaves none. *)
Lemma serve_location_origin m req m' h c' address :
  serve m req = Some m' ->
  chunks m' !! h = Some c' -> address ∈ Locations c' ->
  (~ allocates req h /\ exists c, chunks m !! h = Some c /\ address ∈ Locations c) \/
  req = ReportChunkRequest h address.
Proof.
  intros Hserve Hc' Hin.
  destruct req as [rt f s|f|keys|now a hs|h0 a]; cbn [serve] in Hserve;
    apply survive_Some in Hserve.
  - left. destruct (Z.lt_ge_cases (common.CalculateNumChunks s) 0) as [Hneg|Hpos].
    + rewrite UploadFile_panic in Hserve by done. simpl in Hserve. subst m'.
      split; [|eauto]. cbn [allocates].
      replace (Z.to_nat (common.CalculateNumChunks s)) with 0%nat by lia.
      apply not_elem_of_nil.
    + rewrite UploadFile_spec in Hserve by done. cbv zeta in Hserve.
      simpl in Hserve. subst m'. cbn [chunks] in Hc'. cbn [allocates].
      destruct (decide (h ∈ map (common.GenerateChunkHandle f)
                          (indices 0 (Z.to_nat (common.CalculateNumChunks s)))))
        as [Hh|Hh].
      * destruct (fold_add_chunk_fresh f _ (chunks m) h Hh) as [j Hj].
        rewrite Hj in Hc'. injection Hc' as <-. by apply elem_of_nil in Hin.
      * rewrite fold_add_chunk_other in Hc' by done. eauto.
  - left. rewrite DownloadFile_fst in Hserve. subst. split; [intros []|eauto].
  - left. simpl in Hserve. subst. split; [intros []|eauto].
  - left. simpl in Hserve. subst. rewrite chunks_RegisterChunkServer in Hc'.
    split; [intros []|eauto].
  - simpl in Hserve. subst m'.
    destruct (decide (h0 = h /\ a = address)) as [[-> ->]|Hne]; [by right|].
    left. split; [intros []|].
    unfold metadata.AddChunkLocation in Hc'.
    destruct (chunks m !! h0) as [c0|] eqn:Hc0; [|eauto].
    destruct (bool_decide (a ∈ Locations c0)); [eauto|].
    cbn [chunks] in Hc'. rewrite lookup_insert in Hc'. case_decide as Hh; [|eauto].
    injection Hc' as <-. subst h0. cbn in Hin.
    apply elem_of_app in Hin as [Hin|Hin%list_elem_of_singleton]; [eauto|].
    subst. tauto.
Qed.

Lemma run_location_origin reqs :
  forall m m' h c' address,
    run m reqs = Some m' ->
    chunks m' !! h = Some c' -> address ∈ Locations c' ->
    (Forall (fun req => ~ allocates req h) reqs /\
     exists c, chunks m !! h = Some c /\ address ∈ Locations c) \/
    (exists before after,
       reqs = before ++ ReportChunkRequest h address :: after /\
       Forall (fun req => ~ allocates req h) after).
Proof.
  induction reqs as [|req reqs IH]; intros m m' h c' address Hrun Hc' Hin; simpl in Hrun.
  - injection Hrun as <-. left. split; [constructor|eauto].
  - destruct (serve m req) as [m1|] eqn:Hserve; [|done].
    destruct (IH m1 m' h c' address Hrun Hc' Hin)
      as [(Hafter & c1 & Hc1 & Hin1)|(before & after & -> & Hafter)].
    + destruct (serve_location_origin m req m1 h c1 address Hserve Hc1 Hin1)
        as [(Hreq & c & Hc & Hinc)| ->].
      * left. split; [by constructor|eauto].
      * right. by exists [], reqs.
    + right. by exists (req :: before), after.
Qed.

(** X6.  The coordinator lists an address for a chunk only on that
    address's own report: in every state it reaches, each location of a
    chunk record was put there by a ReportChunk request for that handle
    and address, served after the last upload that allocated the handle.
    The chunk inventory that a heartbeat carries never becomes a
    location. *)
Theorem run_locations_are_reports reqs m h c address :
  run metadata.NewMetadata reqs = Some m ->
  chunks m !! h = Some c -> address ∈ Locations c ->
  exists before after,
    reqs = before ++ ReportChunkRequest h address :: after /\
    Forall (fun req => ~ allocates req h) after.
Proof.
  intros Hrun Hc Hin.
  destruct (run_location_origin reqs _ _ _ _ _ Hrun Hc Hin)
    as [(_ & c0 & Hc0 & _)|Hreport]; [|done].
  cbn [metadata.NewMetadata chunks] in Hc0. by rewrite lookup_empty in Hc0.
Qed.

Lemma run_locations_are_reports_witness :
  let h := common.GenerateChunkHandle "b" 1 in
  run metadata.NewMetadata served_requests = Some served_state /\
  chunks served_state !! h =
    Some (metadata.appendLocation "localhost:9001" (fresh_chunk "b" 1)) /\
  "localhost:9001" ∈ Locations (metadata.appendLocation "localhost:9001" (fresh_chunk "b" 1)) /\
  exists before after,
    served_requests = before ++ ReportChunkRequest h "localhost:9001" :: after /\
    Forall (fun req => ~ allocates req h) after.
Proof.
  split; [exact run_served_requests|]. split; [vm_compute; reflexivity|].
  split; [apply list_elem_of_here|].
  apply (run_locations_are_reports served_requests served_state
           (common.GenerateChunkHandle "b" 1)
           (metadata.appendLocation "localhost:9001" (fresh_chunk "b" 1))
           "localhost:9001");
    [exact run_served_requests|vm_compute; reflexivity|apply list_elem_of_here].
Defined.




(** ** Data nodes: heartbeats and placements *)

Lemma collect_live cs now k keys :
  forall servers a,
    a ∈ metadata.collect cs now k keys servers ->
    a ∈ servers \/ (a ∈ keys /\ live cs now a = true).
Proof.
  induction keys as [|x keys IH]; intros servers a Ha; simpl in Ha; [by left|].
  assert (a ∈ metadata.collect cs now k keys servers ->
          a ∈ servers \/ a ∈ x :: keys /\ live cs now a = true) as Hskip.
  { intros [?|[? ?]]%IH; [by left|right]. split; [by apply list_elem_of_further|done]. }
  destruct (cs !! x) as [server|] eqn:Hx; [|by apply Hskip].
  destruct (metadata.available now server) eqn:Hav; [|by apply Hskip].
  assert (live cs now x = true) as Hlive by (unfold live; by rewrite Hx).
  assert (a ∈ servers ++ [x] -> a ∈ servers \/ a ∈ x :: keys /\ live cs now a = true) as Hadd.
  { intros [?|Hax]%elem_of_app; [by left|right].
    apply list_elem_of_singleton in Hax as ->.
    split; [apply list_elem_of_here|done]. }
  destruct (Z.of_nat (length (servers ++ [x])) >=? k); [by apply Hadd|].
  apply IH in Ha as [Ha|[Ha Hl]]; [by apply Hadd|right].
  split; [by apply list_elem_of_further|done].
Qed.

Lemma filter_live_count m now keys :
  keys ≡ₚ (map_to_list (chunkServers m)).*1 ->
  length (List.filter (live (chunkServers m) now) keys) = live_count m now.
Proof.
  intros Hperm. unfold live_count.
  rewrite (Permutation_length (filter_Permutation _ _ _ Hperm)).
  rewrite filter_live_keys, length_fmap; [done|].
  apply Forall_forall. intros [a s] Hin. by apply elem_of_map_to_list in Hin.
Qed.

Lemma RegisterChunkServer_lookup m now address handles :
  exists server,
    chunkServers (metadata.RegisterChunkServer m now address handles) !! address = Some server /\
    LatestHeartbeat server = now /\ ServerChunks server = handles.
Proof.
  unfold metadata.RegisterChunkServer.
  destruct (chunkServers m !! address); cbn [chunkServers];
    rewrite lookup_insert_eq; eauto.
Qed.

Lemma RegisterChunkServer_lookup_ne m now address handles a :
  a <> address ->
  chunkServers (metadata.RegisterChunkServer m now address handles) !! a = chunkServers m !! a.
Proof.
  intros Hne. unfold metadata.RegisterChunkServer.
  destruct (chunkServers m !! address); cbn [chunkServers]; by rewrite lookup_insert_ne.
Qed.

Lemma RegisterChunkServer_frame m now address handles :
  files (metadata.RegisterChunkServer m now address handles) = files m /\
  heap (metadata.RegisterChunkServer m now address handles) = heap m /\
  chunks (metadata.RegisterChunkServer m now address handles) = chunks m.
Proof. unfold metadata.RegisterChunkServer. by destruct (chunkServers m !! address). Qed.

(** X8.  After a heartbeat of a data node, taken at [t0], the node is
    offered for new chunks exactly while fewer than 30 seconds have
    passed: from 30 seconds on no walk and no replication factor makes
    GetAvailableChunkServers return it, and before that it is returned
    whenever the walk reaches it and no more nodes are registered than
    asked for. *)
Theorem Heartbeat_liveness_window m t0 address handles now keys k servers :
  metadata.GetAvailableChunkServers
    (fst (server.Heartbeat m t0 address handles)) now keys k = Some servers ->
  (30 * time.Second <= now - t0 -> address ∉ servers) /\
  (now - t0 < 30 * time.Second -> address ∈ keys -> Z.of_nat (length keys) <= k ->
   address ∈ servers).
Proof.
  cbn [server.Heartbeat fst]. unfold metadata.GetAvailableChunkServers.
  destruct (Z.ltb_spec k 0) as [?|Hk]; [done|]. intros [= <-].
  destruct (RegisterChunkServer_lookup m t0 address handles) as (server & Hs & Ht & _).
  assert (live (chunkServers (metadata.RegisterChunkServer m t0 address handles)) now address
          = true <-> now - t0 < 30 * time.Second) as Hlive.
  { unfold live. rewrite Hs, available_spec, Ht. done. }
  split.
  - intros Hstale Hin. apply collect_live in Hin as [Hin|[_ Hin]];
      [by apply elem_of_nil in Hin|]. apply Hlive in Hin. lia.
  - intros Hfresh Hin Hlen.
    assert (1 <= k).
    { destruct keys; [by apply elem_of_nil in Hin|]. simpl in Hlen. lia. }
    rewrite collect_spec by (simpl; lia). simpl. rewrite Nat.sub_0_r.
    rewrite take_ge.
    + rewrite list_elem_of_In, filter_In, <- list_elem_of_In. split; [done|]. by apply Hlive.
    + etransitivity; [apply List.filter_length_le|]. lia.
Qed.

Lemma Heartbeat_liveness_window_witness :
  metadata.GetAvailableChunkServers
    (fst (server.Heartbeat metadata.NewMetadata 0 "localhost:9001" [])) 29999999999
    ["localhost:9001"] 3 = Some ["localhost:9001"] /\
  (30 * time.Second <= 29999999999 - 0 -> "localhost:9001" ∉ ["localhost:9001"]) /\
  (29999999999 - 0 < 30 * time.Second -> "localhost:9001" ∈ ["localhost:9001"] ->
   Z.of_nat (length ["localhost:9001"]) <= 3 ->
   "localhost:9001" ∈ ["localhost:9001"]).
Proof.
  split; [vm_compute; reflexivity|].
  apply (Heartbeat_liveness_window metadata.NewMetadata 0 "localhost:9001" []
           29999999999 ["localhost:9001"] 3 ["localhost:9001"]).
  vm_compute. reflexivity.
Defined.

Lemma locate_ext m m' handles :
  chunks m = chunks m' ->
  forall acc, server.locate m handles acc = server.locate m' handles acc.
Proof.
  intros Heq. induction handles as [|h hs IH]; intros acc; simpl; [done|].
  unfold metadata.GetChunk. rewrite Heq. destruct (chunks m' !! h); [apply IH|done].
Qed.

Lemma DownloadFile_ext m m' filename :
  files m = files m' -> heap m = heap m' -> chunks m = chunks m' ->
  snd (server.DownloadFile m filename) = snd (server.DownloadFile m' filename).
Proof.
  intros Hf Hh Hc. unfold server.DownloadFile, metadata.GetFile. rewrite Hf, Hh.
  destruct (files m' !! filename) as [p|]; [|done].
  destruct (heap m' !! p) as [file|]; [|done].
  rewrite (locate_ext m m' _ Hc). by destruct (server.locate m' (Chunks file) []).
Qed.

Lemma describe_ext m m' ps :
  heap m = heap m' ->
  forall acc, server.describe m ps acc = server.describe m' ps acc.
Proof.
  intros Heq. induction ps as [|p ps IH]; intros acc; simpl; [done|].
  rewrite Heq. destruct (heap m' !! p); [apply IH|done].
Qed.

(** X9.  A heartbeat replaces what the coordinator knew of the data
    node: of two heartbeats of one address only the second is kept, time
    and chunk inventory alike, whether or not its time is the later one.
    The records of the other nodes stay, and so do the answers to
    DownloadFile and ListFiles. *)
Theorem Heartbeat_overwrites m t1 handles1 t2 handles2 address :
  let m1 := fst (server.Heartbeat m t1 address handles1) in
  let m2 := fst (server.Heartbeat m1 t2 address handles2) in
  m2 = fst (server.Heartbeat m t2 address handles2) /\
  (exists server, chunkServers m2 !! address = Some server /\
     LatestHeartbeat server = t2 /\ ServerChunks server = handles2) /\
  (forall a, a <> address -> chunkServers m2 !! a = chunkServers m !! a) /\
  (forall filename,
     snd (server.DownloadFile m2 filename) = snd (server.DownloadFile m filename)) /\
  (forall keys, snd (server.ListFiles m2 keys) = snd (server.ListFiles m keys)).
Proof.
  cbv zeta. cbn [server.Heartbeat fst].
  split; [|split; [|split; [|split]]].
  - unfold metadata.RegisterChunkServer.
    destruct (chunkServers m !! address) as [s|] eqn:Hs; cbn [files heap chunks chunkServers];
      rewrite lookup_insert_eq; cbn [files heap chunks chunkServers Address];
      by rewrite insert_insert_eq.
  - apply RegisterChunkServer_lookup.
  - intros a Ha. by rewrite !RegisterChunkServer_lookup_ne.
  - intros filename.
    destruct (RegisterChunkServer_frame
                (metadata.RegisterChunkServer m t1 address handles1) t2 address handles2)
      as (Hf2 & Hh2 & Hc2).
    destruct (RegisterChunkServer_frame m t1 address handles1) as (Hf1 & Hh1 & Hc1).
    apply DownloadFile_ext; congruence.
  - intros keys.
    destruct (RegisterChunkServer_frame
                (metadata.RegisterChunkServer m t1 address handles1) t2 address handles2)
      as (Hf2 & Hh2 & Hc2).
    destruct (RegisterChunkServer_frame m t1 address handles1) as (Hf1 & Hh1 & Hc1).
    unfold server.ListFiles, metadata.ListFiles. cbn [snd]. rewrite Hf2, Hf1.
    apply describe_ext. congruence.
Qed.

Lemma GetAllChunkServers_elem m keys a :
  a ∈ metadata.GetAllChunkServers m keys <-> a ∈ keys /\ is_Some (chunkServers m !! a).
Proof.
  unfold metadata.GetAllChunkServers. rewrite list_elem_of_omap. split.
  - intros (x & Hx & Hsome). destruct (chunkServers m !! x) as [s|] eqn:Hs; [|done].
    simpl in Hsome. injection Hsome as <-. rewrite Hs. eauto.
  - intros (Ha & [s Hs]). exists a. by rewrite Hs.
Qed.

(** X10.  GetAllChunkServers, walking the registered addresses in any
    order, returns every registered data node exactly once, whether its
    heartbeat is recent or not; and whatever GetAvailableChunkServers
    returns, for any time and replication factor, is among them. *)
Theorem GetAllChunkServers_every_registered m keys :
  keys ≡ₚ (map_to_list (chunkServers m)).*1 ->
  NoDup (metadata.GetAllChunkServers m keys) /\
  (forall a, a ∈ metadata.GetAllChunkServers m keys <-> is_Some (chunkServers m !! a)) /\
  length (metadata.GetAllChunkServers m keys) = size (chunkServers m) /\
  (forall now k servers,
     metadata.GetAvailableChunkServers m now keys k = Some servers ->
     servers ⊆ metadata.GetAllChunkServers m keys).
Proof.
  intros Hperm.
  assert (NoDup keys) as Hnd by (rewrite Hperm; apply NoDup_fst_map_to_list).
  assert (forall a, a ∈ keys <-> is_Some (chunkServers m !! a)) as Hkeys.
  { intros a. rewrite Hperm, list_elem_of_fmap. split.
    - intros ([a' s] & -> & Hin). apply elem_of_map_to_list in Hin. eauto.
    - intros [s Hs]. exists (a, s). split; [done|]. by apply elem_of_map_to_list. }
  assert (metadata.GetAllChunkServers m keys = keys) as Hall.
  { unfold metadata.GetAllChunkServers.
    assert (Forall (fun a => is_Some (chunkServers m !! a)) keys) as Hsome
      by (apply Forall_forall; intros a; apply Hkeys).
    clear -Hsome. induction Hsome as [|a l [s Hs] _ IH]; simpl; [done|].
    rewrite Hs. simpl. f_equal. exact IH. }
  split; [by rewrite Hall|]. split; [|split].
  - intros a. rewrite GetAllChunkServers_elem, Hkeys. tauto.
  - rewrite Hall, Hperm, length_fmap. apply length_map_to_list.
  - intros now k servers Hav a Ha. unfold metadata.GetAvailableChunkServers in Hav.
    destruct (k <? 0); [done|]. injection Hav as <-.
    apply collect_live in Ha as [Ha|[Ha Hlive]]; [by apply elem_of_nil in Ha|].
    apply GetAllChunkServers_elem. split; [done|].
    unfold live in Hlive. destruct (chunkServers m !! a); [eauto|done].
Qed.

Lemma GetAllChunkServers_every_registered_witness :
  let m := coordinator world2 in
  let keys := ["localhost:9002"; "localhost:9001"] in
  keys ≡ₚ (map_to_list (chunkServers m)).*1 /\
  NoDup (metadata.GetAllChunkServers m keys) /\
  (forall a, a ∈ metadata.GetAllChunkServers m keys <-> is_Some (chunkServers m !! a)) /\
  length (metadata.GetAllChunkServers m keys) = size (chunkServers m) /\
  (forall now k servers,
     metadata.GetAvailableChunkServers m now keys k = Some servers ->
     servers ⊆ metadata.GetAllChunkServers m keys).
Proof.
  assert (["localhost:9002"; "localhost:9001"]
            ≡ₚ (map_to_list (chunkServers (coordinator world2))).*1) as Hperm.
  { vm_compute. first [reflexivity | apply perm_swap]. }
  split; [exact Hperm|].
  apply (GetAllChunkServers_every_registered (coordinator world2)
           ["localhost:9002"; "localhost:9001"]).
  exact Hperm.
Defined.

(** The entry of ListFiles for a file record. *)
Definition file_info (file : FileMetadata) : pb.FileInfo :=
  {| pb.Filename := Filename file;
     pb.Filesize := Filesize file;
     pb.NumChunks := common.int32 (ChunkCount file) |}.

Lemma describe_Ok m ps :
  Forall (fun p => is_Some (heap m !! p)) ps ->
  forall acc,
    server.describe m ps acc = Ok (acc ++ omap (fun p => file_info <$> heap m !! p) ps).
Proof.
  induction 1 as [|p ps [file Hfile] _ IH]; intros acc; simpl.
  - by rewrite app_nil_r.
  - rewrite Hfile. simpl. rewrite IH, <- app_assoc. done.
Qed.

Lemma consistent_ListFiles m keys :
  consistent m ->
  keys ≡ₚ (map_to_list (files m)).*1 ->
  exists infos,
    server.ListFiles m keys = (m, Ok infos) /\
    length infos = size (files m) /\
    map pb.Filename infos = keys /\
    NoDup (map pb.Filename infos) /\
    forall info, info ∈ infos ->
      exists p file,
        files m !! pb.Filename info = Some p /\ heap m !! p = Some file /\
        pb.Filesize info = Filesize file /\
        pb.NumChunks info = common.int32 (common.CalculateNumChunks (Filesize file)).
Proof.
  intros (Hfiles & _ & _) Hperm.
  assert (NoDup keys) as Hnd by (rewrite Hperm; apply NoDup_fst_map_to_list).
  assert (Forall (fun name => is_Some (files m !! name)) keys) as Hkeys.
  { apply Forall_forall. intros a. rewrite Hperm, list_elem_of_fmap.
    intros ([a' s] & -> & Hin). apply elem_of_map_to_list in Hin. eauto. }
  assert (length keys = size (files m)) as Hsize.
  { rewrite Hperm, length_fmap. apply length_map_to_list. }
  unfold server.ListFiles, metadata.ListFiles.
  assert (omap (fun p => file_info <$> heap m !! p)
               (omap (fun filename => files m !! filename) keys) =
          omap (fun name => p ← files m !! name; file_info <$> heap m !! p) keys) as Heq.
  { clear. induction keys as [|a l IH]; simpl; [done|].
    destruct (files m !! a) as [p|]; simpl; [|exact IH].
    destruct (heap m !! p); simpl; [f_equal|]; exact IH. }
  rewrite describe_Ok.
  2:{ apply Forall_forall. intros p Hp. apply list_elem_of_omap in Hp as (name & _ & Hp).
      destruct (Hfiles name p Hp) as (file & Hfile & _). eauto. }
  cbn [app]. rewrite Heq. clear Heq. eexists. split; [reflexivity|].
  assert (forall name, name ∈ keys ->
            exists p file, files m !! name = Some p /\ heap m !! p = Some file /\
              Filename file = name /\
              ChunkCount file = common.CalculateNumChunks (Filesize file)) as Hrec.
  { intros name Hname. rewrite Forall_forall in Hkeys. destruct (Hkeys name Hname) as [p Hp].
    destruct (Hfiles name p Hp) as (file & Hfile & (Hn & _ & Hc & _) & _). eauto 10. }
  assert (map pb.Filename
            (omap (fun name => p ← files m !! name; file_info <$> heap m !! p) keys) = keys)
    as Hnames.
  { clear -Hrec. induction keys as [|a l IH]; simpl; [done|].
    destruct (Hrec a) as (p & file & Hp & Hfile & Hn & _); [apply list_elem_of_here|].
    rewrite Hp. simpl. rewrite Hfile. simpl. rewrite Hn. f_equal.
    apply IH. intros name Hname. apply Hrec. by apply list_elem_of_further. }
  split; [|split; [done|split; [by rewrite Hnames|]]].
  - rewrite <- Hsize. apply (f_equal (@length _)) in Hnames. by rewrite length_map in Hnames.
  - intros info Hinfo. apply list_elem_of_omap in Hinfo as (name & Hname & Hinfo).
    destruct (Hrec name Hname) as (p & file & Hp & Hfile & Hn & Hc).
    rewrite Hp in Hinfo. simpl in Hinfo. rewrite Hfile in Hinfo. simpl in Hinfo.
    injection Hinfo as <-. cbn. rewrite Hn, Hc. by exists p, file.
Qed.

(** X11.  In every state the coordinator reaches, ListFiles succeeds and
    leaves the state as it is; walking the file names in any order, it
    returns one entry for each name, in the order of the walk, with the
    name, the size and the chunk count (as an int32) of the record now
    held under that name, so a name uploaded twice is listed once, with
    its latest size. *)
Theorem run_ListFiles_one_entry_per_name reqs m keys :
  run metadata.NewMetadata reqs = Some m ->
  keys ≡ₚ (map_to_list (files m)).*1 ->
  exists infos,
    server.ListFiles m keys = (m, Ok infos) /\
    length infos = size (files m) /\
    map pb.Filename infos = keys /\
    NoDup (map pb.Filename infos) /\
    forall info, info ∈ infos ->
      exists p file,
        files m !! pb.Filename info = Some p /\ heap m !! p = Some file /\
        pb.Filesize info = Filesize file /\
        pb.NumChunks info = common.int32 (common.CalculateNumChunks (Filesize file)).
Proof.
  intros Hrun Hperm. apply consistent_ListFiles; [|done].
  by apply (consistent_run reqs _ _ consistent_NewMetadata Hrun).
Qed.

Lemma run_ListFiles_one_entry_per_name_witness :
  let keys := ["b"; "a"] in
  run metadata.NewMetadata served_requests = Some served_state /\
  keys ≡ₚ (map_to_list (files served_state)).*1 /\
  exists infos,
    server.ListFiles served_state keys = (served_state, Ok infos) /\
    length infos = size (files served_state) /\
    map pb.Filename infos = keys /\
    NoDup (map pb.Filename infos) /\
    forall info, info ∈ infos ->
      exists p file,
        files served_state !! pb.Filename info = Some p /\
        heap served_state !! p = Some file /\
        pb.Filesize info = Filesize file /\
        pb.NumChunks info = common.int32 (common.CalculateNumChunks (Filesize file)).
Proof.
  assert (["b"; "a"] ≡ₚ (map_to_list (files served_state)).*1) as Hperm.
  { vm_compute. first [reflexivity | apply perm_swap]. }
  split; [exact run_served_requests|]. split; [exact Hperm|].
  apply (run_ListFiles_one_entry_per_name served_requests served_state ["b"; "a"]);
    [exact run_served_requests|exact Hperm].
Defined.

(** X12.  UploadFile of a size from 0 to 2^63 - 1 succeeds whatever data
    nodes are registered.  The i-th placement has the handle and the
    index of chunk i and names min(3, n) distinct addresses, n being the
    number of nodes whose heartbeat is less than 30 seconds old when the
    chunk is placed: fewer than three live nodes, or none, make the list
    shorter, or empty, and no error.  The chunk record written for the
    handle has no location yet. *)
Theorem UploadFile_places_on_live_nodes rt m filename filesize :
  0 <= filesize < 2 ^ 63 ->
  (forall j, order rt j ≡ₚ (map_to_list (chunkServers m)).*1) ->
  exists m' locs,
    server.UploadFile rt m filename filesize = (m', Ok locs) /\
    forall i loc, locs !! i = Some loc ->
      pb.ChunkHandle loc = common.GenerateChunkHandle filename (Z.of_nat i) /\
      pb.ChunkIndex loc = common.int32 (Z.of_nat i) /\
      NoDup (pb.ChunkServerAddresses loc) /\
      length (pb.ChunkServerAddresses loc) = Nat.min 3 (live_count m (clock rt (S i))) /\
      (forall a, a ∈ pb.ChunkServerAddresses loc ->
         live (chunkServers m) (clock rt (S i)) a = true) /\
      exists c, chunks m' !! pb.ChunkHandle loc = Some c /\ Locations c = [].
Proof.
  intros Hs Horder.
  destruct (CalculateNumChunks_ceil filesize Hs) as [Hn _].
  rewrite UploadFile_spec by exact Hn. cbv zeta.
  eexists _, _. split; [reflexivity|]. cbn [chunks].
  intros i loc Hloc. rewrite list_lookup_fmap in Hloc.
  destruct (indices 0 (Z.to_nat (common.CalculateNumChunks filesize)) !! i) as [j|] eqn:Hj;
    [|done].
  injection Hloc as <-.
  assert (j ∈ indices 0 (Z.to_nat (common.CalculateNumChunks filesize))) as Hin
    by by eapply list_elem_of_lookup_2.
  apply indices_lookup in Hj. rewrite Z.add_0_l in Hj. subst j.
  unfold placement. cbn [pb.ChunkHandle pb.ChunkIndex pb.ChunkServerAddresses].
  rewrite Nat2Z.id.
  assert (NoDup (order rt i)) as Hnd by (rewrite Horder; apply NoDup_fst_map_to_list).
  rewrite collect_spec by (vm_compute; reflexivity). cbn [app length].
  change (Z.to_nat common.ReplicationFactor - 0)%nat with 3%nat.
  split; [done|]. split; [done|]. split; [|split; [|split]].
  - eapply sublist_NoDup; [|apply sublist_take]. by apply filter_NoDup.
  - by rewrite length_take, filter_live_count.
  - intros a Ha. apply elem_of_take in Ha as (i' & Ha & _).
    apply list_elem_of_lookup_2 in Ha. rewrite list_elem_of_In, filter_In in Ha. tauto.
  - destruct (fold_add_chunk_fresh filename
                (indices 0 (Z.to_nat (common.CalculateNumChunks filesize))) (chunks m)
                (common.GenerateChunkHandle filename (Z.of_nat i))) as [j Hc].
    { apply list_elem_of_fmap. eauto. }
    rewrite Hc. eauto.
Qed.

Lemma UploadFile_places_on_live_nodes_witness :
  let m := coordinator world2 in
  0 <= 67108865 < 2 ^ 63 /\
  (forall j, order rt2 j ≡ₚ (map_to_list (chunkServers m)).*1) /\
  exists m' locs,
    server.UploadFile rt2 m "h.txt" 67108865 = (m', Ok locs) /\
    forall i loc, locs !! i = Some loc ->
      pb.ChunkHandle loc = common.GenerateChunkHandle "h.txt" (Z.of_nat i) /\
      pb.ChunkIndex loc = common.int32 (Z.of_nat i) /\
      NoDup (pb.ChunkServerAddresses loc) /\
      length (pb.ChunkServerAddresses loc) = Nat.min 3 (live_count m (clock rt2 (S i))) /\
      (forall a, a ∈ pb.ChunkServerAddresses loc ->
         live (chunkServers m) (clock rt2 (S i)) a = true) /\
      exists c, chunks m' !! pb.ChunkHandle loc = Some c /\ Locations c = [].
Proof.
  assert (forall j : nat,
            order rt2 j ≡ₚ (map_to_list (chunkServers (coordinator world2))).*1) as Hperm.
  { intros j. vm_compute. first [reflexivity | apply perm_swap]. }
  split; [lia|]. split; [exact Hperm|].
  apply (UploadFile_places_on_live_nodes rt2 (coordinator world2) "h.txt" 67108865);
    [lia|exact Hperm].
Defined.

(** ** The data node's storage, further *)

Section storage_further.

Variable Join : string -> string -> string.

(** X13.  A write that the data node acknowledges sets off one report,
    for the handle written, and makes the handle present; it leaves the
    storage path, the presence of every other handle, and what
    ReadChunk answers for every handle kept in another file.  A write
    that fails sets off no report and leaves the storage as it was (and
    the disk, which refuses a write as a whole). *)
Theorem WriteChunk_effects s fs h data :
  match chunkserver.WriteChunk Join s fs h data with
  | (s', fs', Ok _, report) =>
      report = Some h /\
      chunkserver.Storage_HasChunk s' h = true /\
      chunkserver.storagePath s' = chunkserver.storagePath s /\
      (forall h', h' <> h ->
         chunkserver.Storage_HasChunk s' h' = chunkserver.Storage_HasChunk s h') /\
      (forall h', Join (chunkserver.storagePath s) h' <> Join (chunkserver.storagePath s) h ->
         chunkserver.Storage_ReadChunk Join s' fs' h' = chunkserver.Storage_ReadChunk Join s fs h')
  | (s', fs', _, report) => report = None /\ s' = s /\ fs' = fs
  end.
Proof.
  unfold chunkserver.WriteChunk, chunkserver.Storage_WriteChunk, os.WriteFile.
  destruct (bool_decide (Join (chunkserver.storagePath s) h ∈ os.denied fs)) eqn:Hden; [done|].
  unfold chunkserver.Storage_HasChunk, chunkserver.Storage_ReadChunk, chunkserver.present,
    os.ReadFile.
  cbn [chunkserver.chunks chunkserver.storagePath os.content os.denied].
  split; [done|]. split; [by rewrite lookup_insert_eq|]. split; [done|]. split.
  - intros h' Hne. by rewrite lookup_insert_ne.
  - intros h' Hne. assert (h' <> h) by congruence.
    rewrite !lookup_insert_ne by done. reflexivity.
Qed.


(** The entry is a regular file of the name [h]. *)
Definition regular (h : string) (file : datanode.DirEntry) : Prop :=
  datanode.Name file = h /\ datanode.IsDir file = false.

Lemma fold_note_spec files :
  forall s,
    chunkserver.storagePath (fold_left datanode.note files s) = chunkserver.storagePath s /\
    forall h,
      chunkserver.chunks (fold_left datanode.note files s) !! h =
        if decide (Exists (regular h) files) then Some true else chunkserver.chunks s !! h.
Proof.
  induction files as [|file files IH]; intros s; cbn [fold_left].
  - split; [done|]. intros h. destruct (decide (Exists (regular h) [])) as [Hex|_]; [|done].
    by apply Exists_nil in Hex.
  - destruct (IH (datanode.note s file)) as [Hpath Hchunks]. split.
    + rewrite Hpath. unfold datanode.note. by destruct (datanode.IsDir file).
    + intros h. rewrite Hchunks. clear Hchunks Hpath IH.
      destruct (decide (Exists (regular h) files)) as [Hex|Hno].
      * destruct (decide (Exists (regular h) (file :: files))) as [_|Hn]; [done|].
        destruct Hn. by apply Exists_cons_tl.
      * unfold datanode.note.
        destruct (decide (Exists (regular h) (file :: files))) as [Hex|Hn].
        -- apply Exists_cons in Hex as [[Hname Hdir]|Hex]; [|done].
           rewrite Hdir. cbn [negb chunkserver.chunks]. subst h. apply lookup_insert_eq.
        -- destruct (datanode.IsDir file) eqn:Hdir; cbn [negb]; [done|].
           cbn [chunkserver.chunks]. rewrite lookup_insert_ne; [done|].
           intros Hname. apply Hn. by apply Exists_cons_hd.
Qed.

Lemma NewStorage_Ok storagePath files s :
  datanode.NewStorage storagePath true (Some files) = Ok s ->
  chunkserver.storagePath s = storagePath /\
  forall h, chunkserver.Storage_HasChunk s h = true <-> Exists (regular h) files.
Proof.
  unfold datanode.NewStorage, datanode.loadExistingChunks. cbn [negb]. intros [= <-].
  destruct (fold_note_spec files {| chunkserver.storagePath := storagePath;
                                    chunkserver.chunks := ∅ |}) as [Hpath Hchunks].
  split; [exact Hpath|].
  intros h. unfold chunkserver.Storage_HasChunk, chunkserver.present.
  rewrite Hchunks. cbn [chunkserver.chunks]. rewrite lookup_empty.
  destruct (decide (Exists (regular h) files)); cbn; [tauto|]. split; [done|tauto].
Qed.

(** X15.  NewStorage fails with its first error when the directory
    cannot be made and with its second when it cannot be listed;
    otherwise it gives a storage at that path in which a handle is
    present exactly when the listing has an entry of that name that is
    not a directory, whatever that file is. *)
Theorem NewStorage_loads_regular_files storagePath mkdir listing :
  match datanode.NewStorage storagePath mkdir listing with
  | Ok s =>
      mkdir = true /\ chunkserver.storagePath s = storagePath /\
      exists files, listing = Some files /\
        forall h, chunkserver.Storage_HasChunk s h = true <->
          exists file, file ∈ files /\ datanode.Name file = h /\ datanode.IsDir file = false
  | Err datanode.mkdir_failed => mkdir = false
  | Err datanode.load_failed => mkdir = true /\ listing = None
  | Panic => False
  end.
Proof.
  unfold datanode.NewStorage, datanode.loadExistingChunks.
  destruct mkdir; [|done]. destruct listing as [files|]; [|done]. cbn [negb].
  destruct (fold_note_spec files {| chunkserver.storagePath := storagePath;
                                    chunkserver.chunks := ∅ |}) as [Hpath Hchunks].
  split; [done|]. split; [exact Hpath|]. exists files. split; [done|].
  intros h. unfold chunkserver.Storage_HasChunk, chunkserver.present.
  rewrite Hchunks. cbn [chunkserver.chunks]. rewrite lookup_empty.
  unfold regular. rewrite <- Exists_exists.
  destruct (decide (Exists (fun file => datanode.Name file = h /\ datanode.IsDir file = false)
                      files)); cbn; [tauto|]. split; [done|tauto].
Qed.

(** X16.  A chunk survives a restart of its data node: once WriteChunk
    has succeeded, a storage made anew by NewStorage at the same path,
    from a listing that shows the chunk's file as a regular file,
    answers ReadChunk with the bytes written. *)
Theorem ReadChunk_after_restart s fs h data s' fs' files s2 :
  chunkserver.Storage_WriteChunk Join s fs h data = (s', fs', None) ->
  (exists file, file ∈ files /\ datanode.Name file = h /\ datanode.IsDir file = false) ->
  datanode.NewStorage (chunkserver.storagePath s) true (Some files) = Ok s2 ->
  chunkserver.ReadChunk Join s2 fs' h = Ok data.
Proof.
  intros Hw Hlisted Hnew.
  destruct (NewStorage_Ok _ _ _ Hnew) as [Hpath Hhas].
  apply Exists_exists, Hhas in Hlisted.
  unfold chunkserver.Storage_WriteChunk, os.WriteFile in Hw.
  destruct (bool_decide (Join (chunkserver.storagePath s) h ∈ os.denied fs)) eqn:Hden; [done|].
  injection Hw as <- <-.
  unfold chunkserver.ReadChunk, chunkserver.Storage_ReadChunk.
  unfold chunkserver.Storage_HasChunk in Hlisted. rewrite Hlisted, Hpath. cbn [negb].
  unfold os.ReadFile. cbn [os.denied os.content]. rewrite Hden.
  by rewrite lookup_insert_eq.
Qed.

End storage_further.

Lemma ReadChunk_after_restart_witness :
  let h := "0bcc17403e59c64cbfc330d225411cc6" in
  let data := ["h"%byte; "i"%byte] in
  let s' := {| chunkserver.storagePath := "./storage1";
               chunkserver.chunks := <[h := true]> ∅ |} in
  let fs' := {| os.content := <[join0 "./storage1" h := data]> ∅; os.denied := ∅ |} in
  let files := [{| datanode.Name := "tmp"; datanode.IsDir := true |};
                {| datanode.Name := h; datanode.IsDir := false |}] in
  chunkserver.Storage_WriteChunk join0 storage0 fs0 h data = (s', fs', None) /\
  (exists file, file ∈ files /\ datanode.Name file = h /\ datanode.IsDir file = false) /\
  datanode.NewStorage "./storage1" true (Some files) = Ok s' /\
  chunkserver.ReadChunk join0 s' fs' h = Ok data.
Proof.
  cbv zeta.
  assert (exists file,
            file ∈ [{| datanode.Name := "tmp"; datanode.IsDir := true |};
                    {| datanode.Name := "0bcc17403e59c64cbfc330d225411cc6";
                       datanode.IsDir := false |}] /\
            datanode.Name file = "0bcc17403e59c64cbfc330d225411cc6" /\
            datanode.IsDir file = false) as Hlisted.
  { eexists. split; [apply list_elem_of_further, list_elem_of_here|]. split; reflexivity. }
  split; [vm_compute; reflexivity|]. split; [exact Hlisted|].
  split; [vm_compute; reflexivity|].
  apply (ReadChunk_after_restart join0 storage0 fs0 "0bcc17403e59c64cbfc330d225411cc6"
           ["h"%byte; "i"%byte] _ _ _ _ ltac:(vm_compute; reflexivity) Hlisted).
  vm_compute. reflexivity.
Defined.

(** ** The inventory of a heartbeat *)

(** What a data node does to its storage while it runs. *)
Inductive storage_op : Type :=
| write_op (chunkHandle : string) (data : list byte)
| delete_op (chunkHandle : string).

Definition storage_step (Join : string -> string -> string)
    (node : chunkserver.Storage * os.FS) (op : storage_op) : chunkserver.Storage * os.FS :=
  match op with
  | write_op h data => (chunkserver.Storage_WriteChunk Join node.1 node.2 h data).1
  | delete_op h => (chunkserver.Storage_DeleteChunk Join node.1 node.2 h).1
  end.

(** No handle is kept with the value [false]. *)
Definition all_present (s : chunkserver.Storage) : Prop :=
  forall h b, chunkserver.chunks s !! h = Some b -> b = true.

Lemma all_present_step Join node op :
  all_present node.1 -> all_present (storage_step Join node op).1.
Proof.
  destruct node as [s fs]. intros Hall. destruct op as [h data|h]; cbn [storage_step fst snd].
  - unfold chunkserver.Storage_WriteChunk.
    destruct (os.WriteFile fs (Join (chunkserver.storagePath s) h) data); [|done].
    intros h' b. cbn. rewrite lookup_insert. case_decide; [congruence|apply Hall].
  - unfold chunkserver.Storage_DeleteChunk.
    destruct (os.Remove fs (Join (chunkserver.storagePath s) h)); [|done].
    intros h' b. cbn. rewrite lookup_delete. case_decide; [done|apply Hall].
Qed.

Lemma all_present_run Join ops :
  forall node, all_present node.1 -> all_present (fold_left (storage_step Join) ops node).1.
Proof.
  induction ops as [|op ops IH]; intros node Hall; [done|].
  cbn [fold_left]. by apply IH, all_present_step.
Qed.

Lemma all_present_NewStorage storagePath mkdir listing s :
  datanode.NewStorage storagePath mkdir listing = Ok s -> all_present s.
Proof.
  unfold datanode.NewStorage, datanode.loadExistingChunks.
  destruct mkdir; [|done]. destruct listing as [files|]; [|done]. cbn [negb].
  intros [= <-] h b.
  destruct (fold_note_spec files {| chunkserver.storagePath := storagePath;
                                    chunkserver.chunks := ∅ |}) as [_ Hchunks].
  rewrite Hchunks. cbn [chunkserver.chunks]. rewrite lookup_empty.
  destruct (decide (Exists (regular h) files)); congruence.
Qed.

Lemma ListChunks_elem s keys h :
  h ∈ chunkserver.Storage_ListChunks s keys <->
  h ∈ keys /\ is_Some (chunkserver.chunks s !! h).
Proof.
  unfold chunkserver.Storage_ListChunks. rewrite list_elem_of_omap. split.
  - intros (x & Hx & Hsome). destruct (chunkserver.chunks s !! x) as [b|] eqn:Hb; [|done].
    simpl in Hsome. injection Hsome as <-. rewrite Hb. eauto.
  - intros (Hh & [b Hb]). exists h. by rewrite Hb.
Qed.

(** X17.  A data node whose storage was made by NewStorage and has
    since served any writes and deletions reports in its heartbeat
    exactly the handles for which HasChunk holds, each once: after
    sendHeartbeat has reached the coordinator, the node's record holds
    that inventory and the coordinator's time, and the chunk records,
    locations included, are as before. *)
Theorem sendHeartbeat_inventory Join storagePath listing s0 fs0 ops w address node keys now :
  datanode.NewStorage storagePath true listing = Ok s0 ->
  nodes w !! address = Some node ->
  (store node, disk node) = fold_left (storage_step Join) ops (s0, fs0) ->
  keys ≡ₚ (map_to_list (chunkserver.chunks (store node))).*1 ->
  masterUp w = true ->
  let w' := datanode.sendHeartbeat w address keys now in
  chunks (coordinator w') = chunks (coordinator w) /\
  files (coordinator w') = files (coordinator w) /\
  exists server,
    chunkServers (coordinator w') !! address = Some server /\
    LatestHeartbeat server = now /\
    NoDup (ServerChunks server) /\
    forall h, h ∈ ServerChunks server <-> chunkserver.Storage_HasChunk (store node) h = true.
Proof.
  intros Hnew Hnode Hrun Hperm Hup. cbv zeta. unfold datanode.sendHeartbeat.
  rewrite Hnode, Hup. cbn [coordinator server.Heartbeat fst].
  destruct (RegisterChunkServer_frame (coordinator w) now address
              (chunkserver.Storage_ListChunks (store node) keys)) as (Hf & _ & Hc).
  split; [exact Hc|]. split; [exact Hf|].
  destruct (RegisterChunkServer_lookup (coordinator w) now address
              (chunkserver.Storage_ListChunks (store node) keys)) as (server & Hs & Ht & Hchunks).
  exists server. split; [exact Hs|]. split; [exact Ht|]. rewrite Hchunks.
  assert (all_present (store node)) as Hall.
  { pose proof (all_present_run Join ops (s0, fs0)
                  (all_present_NewStorage _ _ _ _ Hnew)) as Hall.
    by rewrite <- Hrun in Hall. }
  assert (NoDup keys) as Hnd by (rewrite Hperm; apply NoDup_fst_map_to_list).
  assert (forall h, h ∈ keys <-> is_Some (chunkserver.chunks (store node) !! h)) as Hkeys.
  { intros h. rewrite Hperm, list_elem_of_fmap. split.
    - intros ([h' b] & -> & Hin). apply elem_of_map_to_list in Hin. eauto.
    - intros [b Hb]. exists (h, b). split; [done|]. by apply elem_of_map_to_list. }
  split.
  - unfold chunkserver.Storage_ListChunks.
    assert (omap (fun chunkHandle =>
                    (fun _ : bool => chunkHandle) <$> chunkserver.chunks (store node) !! chunkHandle)
                 keys = keys) as ->; [|done].
    assert (Forall (fun h => is_Some (chunkserver.chunks (store node) !! h)) keys) as Hsome
      by (apply Forall_forall; intros h; apply Hkeys).
    clear -Hsome. induction Hsome as [|h l [b Hb] _ IH]; simpl; [done|].
    rewrite Hb. simpl. f_equal. exact IH.
  - intros h. rewrite ListChunks_elem, Hkeys.
    unfold chunkserver.Storage_HasChunk, chunkserver.present. split.
    + intros [_ [b Hb]]. rewrite Hb. cbn. by eapply Hall.
    + destruct (chunkserver.chunks (store node) !! h); [eauto|done].
Qed.

Lemma sendHeartbeat_inventory_witness :
  let h := "0bcc17403e59c64cbfc330d225411cc6" in
  let ops := [write_op h ["h"%byte; "i"%byte]; write_op "x" []; delete_op "x"] in
  let node := {| store := (fold_left (storage_step join0) ops (storage0, fs0)).1;
                 disk := (fold_left (storage_step join0) ops (storage0, fs0)).2 |} in
  let w := {| masterUp := true; coordinator := metadata.NewMetadata;
              nodes := {[ "localhost:9001" := node ]};
              pending := []; localfs := fs0; clientLog := [] |} in
  let w' := datanode.sendHeartbeat w "localhost:9001" [h] 7 in
  datanode.NewStorage "./storage1" true (Some []) = Ok storage0 /\
  nodes w !! "localhost:9001" = Some node /\
  (store node, disk node) = fold_left (storage_step join0) ops (storage0, fs0) /\
  [h] ≡ₚ (map_to_list (chunkserver.chunks (store node))).*1 /\
  masterUp w = true /\
  chunks (coordinator w') = chunks (coordinator w) /\
  files (coordinator w') = files (coordinator w) /\
  exists server,
    chunkServers (coordinator w') !! "localhost:9001" = Some server /\
    LatestHeartbeat server = 7 /\
    NoDup (ServerChunks server) /\
    forall h, h ∈ ServerChunks server <-> chunkserver.Storage_HasChunk (store node) h = true.
Proof.
  cbv zeta.
  split; [vm_compute; reflexivity|]. split; [vm_compute; reflexivity|].
  split; [vm_compute; reflexivity|]. split; [vm_compute; reflexivity|].
  split; [reflexivity|].
  eapply (sendHeartbeat_inventory join0 "./storage1" (Some []) storage0 fs0
            [write_op "0bcc17403e59c64cbfc330d225411cc6" ["h"%byte; "i"%byte];
             write_op "x" []; delete_op "x"]).
  - vm_compute; reflexivity.
  - vm_compute; reflexivity.
  - vm_compute; reflexivity.
  - vm_compute; reflexivity.
  - reflexivity.
Defined.

(** ** The client's download, further *)

Section download_further.

Variable Join : string -> string -> string.

(** Nothing but the client's log has changed, and the log has only
    grown. *)
Definition log_only (w w' : World) : Prop :=
  masterUp w' = masterUp w /\ coordinator w' = coordinator w /\ nodes w' = nodes w /\
  pending w' = pending w /\ localfs w' = localfs w /\
  exists news, clientLog w' = clientLog w ++ news.

Lemma log_only_refl w : log_only w w.
Proof. repeat split. exists []. by rewrite app_nil_r. Qed.

Lemma log_only_trans w1 w2 w3 : log_only w1 w2 -> log_only w2 w3 -> log_only w1 w3.
Proof.
  intros (H1 & H2 & H3 & H4 & H5 & n1 & H6) (K1 & K2 & K3 & K4 & K5 & n2 & K6).
  unfold log_only. rewrite K1, K2, K3, K4, K5, K6, H6. repeat split; try done.
  exists (n1 ++ n2). by rewrite app_assoc.
Qed.

Lemma log_only_logged w e : log_only w (client.logged w e).
Proof. repeat split. by exists [e]. Qed.

(** The replicas are asked in turn; the answer is that of one of them, and
    there is none only if none of them answers. *)
Lemma readReplicas_effects addrs h idx :
  forall w,
    log_only w (client.readReplicas Join w addrs h idx).1 /\
    match (client.readReplicas Join w addrs h idx).2 with
    | Some data => exists a, a ∈ addrs /\ client.readChunkFromServer Join w a h = Some data
    | None => forall a, a ∈ addrs -> client.readChunkFromServer Join w a h = None
    end.
Proof.
  induction addrs as [|a addrs IH]; intros w; cbn [client.readReplicas].
  - split; [apply log_only_refl|]. intros a Ha. by apply elem_of_nil in Ha.
  - destruct (client.readChunkFromServer Join w a h) as [data|] eqn:Hread.
    + split; [apply log_only_logged|]. exists a. split; [apply list_elem_of_here|done].
    + destruct (IH (client.logged w (read_warning a))) as [Hlog Hres]. split.
      * eapply log_only_trans; [apply log_only_logged|exact Hlog].
      * destruct (client.readReplicas Join (client.logged w (read_warning a)) addrs h idx).2
          as [data|].
        -- destruct Hres as (a' & Ha' & Hr). exists a'.
           split; [by apply list_elem_of_further|exact Hr].
        -- intros a' [->|Ha']%elem_of_cons; [done|]. by apply Hres.
Qed.

Lemma copy_at_length {A} (dst : list A) start src dst' :
  client.copy_at dst start src = Some dst' -> length dst' = length dst.
Proof.
  unfold client.copy_at.
  destruct (Z.leb_spec 0 start); [|done].
  destruct (Z.leb_spec start (Z.of_nat (length dst))); [|done]. cbn [andb].
  intros [= <-]. rewrite !length_app, !length_take, length_drop. lia.
Qed.

(** Some replica that the location names answers for its handle. *)
Definition answered (w : World) (loc : pb.ChunkLocation) : Prop :=
  exists a, a ∈ pb.ChunkServerAddresses loc /\
    is_Some (client.readChunkFromServer Join w a (pb.ChunkHandle loc)).

Lemma readChunkFromServer_log_only w w' a h :
  log_only w w' ->
  client.readChunkFromServer Join w' a h = client.readChunkFromServer Join w a h.
Proof. intros (_ & _ & Hn & _). unfold client.readChunkFromServer. by rewrite Hn. Qed.

Lemma downloadChunks_effects locs :
  forall w fileData,
    log_only w (client.downloadChunks Join w locs fileData).1 /\
    match (client.downloadChunks Join w locs fileData).2 with
    | Ok data => length data = length fileData /\ Forall (answered w) locs
    | Err e =>
        exists before loc after,
          locs = before ++ loc :: after /\ Forall (answered w) before /\
          e = client.download_chunk_failed (pb.ChunkIndex loc) /\
          forall a, a ∈ pb.ChunkServerAddresses loc ->
            client.readChunkFromServer Join w a (pb.ChunkHandle loc) = None
    | Panic => True
    end.
Proof.
  induction locs as [|loc locs IH]; intros w fileData; cbn [client.downloadChunks].
  - split; [apply log_only_refl|]. done.
  - unfold client.downloadChunk.
    destruct (readReplicas_effects (pb.ChunkServerAddresses loc) (pb.ChunkHandle loc)
                (pb.ChunkIndex loc) w) as [Hlog Hres].
    destruct (client.readReplicas Join w (pb.ChunkServerAddresses loc) (pb.ChunkHandle loc)
                (pb.ChunkIndex loc)) as [w1 [chunkData|]]; cbn [fst snd] in *.
    + assert (answered w loc) as Hans.
      { destruct Hres as (a & Ha & Hr). exists a. by rewrite Hr. }
      destruct (client.copy_at fileData
                  (common.wrap64 (pb.ChunkIndex loc * common.ChunkSize)) chunkData)
        as [fileData'|] eqn:Hcopy; [|done].
      destruct (IH w1 fileData') as [Hlog' Hres'].
      split; [by eapply log_only_trans|].
      assert (forall l, answered w1 l -> answered w l) as Hback.
      { intros l (a & Ha & Hr). exists a. split; [done|].
        by rewrite <- (readChunkFromServer_log_only w w1). }
      destruct (client.downloadChunks Join w1 locs fileData').2 as [data|e|].
      * destruct Hres' as [Hlen Hall]. split.
        -- rewrite Hlen. by eapply copy_at_length.
        -- constructor; [done|]. eapply Forall_impl; [exact Hall|exact Hback].
      * destruct Hres' as (before & loc' & after & -> & Hbefore & -> & Hnone).
        exists (loc :: before), loc', after. split; [done|]. split.
        -- constructor; [done|]. eapply Forall_impl; [exact Hbefore|exact Hback].
        -- split; [done|]. intros a Ha.
           rewrite <- (readChunkFromServer_log_only w w1) by done. by apply Hnone.
      * done.
    + split; [done|]. exists [], loc, locs. done.
Qed.


(** X19.  A download succeeds only if the coordinator knows the file and
    every chunk it lists was read from one of the replicas listed for
    it: then the file written has the size that the coordinator
    reports.  When the replicas of some chunk all fail, or none is
    listed, the download fails with the index of the first such chunk,
    unless the copy of an earlier chunk, at an offset beyond the buffer,
    has panicked before. *)
Theorem client_DownloadFile_needs_every_chunk w remoteName localPath :
  let r := client.DownloadFile Join w remoteName localPath in
  (r.2 = Ok tt ->
   exists resp data,
     (server.DownloadFile (coordinator w) remoteName).2 = Ok resp /\
     Forall (answered w) (pb.RespChunkLocation resp) /\
     os.WriteFile (localfs w) localPath data = Some (localfs r.1) /\
     Z.of_nat (length data) = pb.RespFilesize resp) /\
  (forall resp before loc after,
     masterUp w = true ->
     (server.DownloadFile (coordinator w) remoteName).2 = Ok resp ->
     0 <= pb.RespFilesize resp ->
     pb.RespChunkLocation resp = before ++ loc :: after ->
     Forall (answered w) before ->
     (forall a, a ∈ pb.ChunkServerAddresses loc ->
        client.readChunkFromServer Join w a (pb.ChunkHandle loc) = None) ->
     r.2 = Err (client.download_chunk_failed (pb.ChunkIndex loc)) \/ r.2 = Panic).
Proof.
  cbv zeta. unfold client.DownloadFile. split.
  - destruct (masterUp w); cbn [negb]; [|done].
    pose proof (DownloadFile_fst (coordinator w) remoteName) as Hm.
    destruct (server.DownloadFile (coordinator w) remoteName) as [m [resp|e|]];
      cbn [fst] in Hm; subst m; [|done|done].
    destruct (Z.ltb_spec (pb.RespFilesize resp) 0); [done|].
    match goal with
    | |- context [client.downloadChunks Join ?w0 ?locs ?buf] =>
        destruct (downloadChunks_effects locs w0 buf) as [(_ & _ & _ & _ & Hfs & _) Hres];
        destruct (client.downloadChunks Join w0 locs buf) as [w2 [data|e|]]
    end; cbn [fst snd client.withCoordinator localfs] in *; [|done|done].
    destruct (os.WriteFile (localfs w2) localPath data) as [fs|] eqn:Hwrite; [|done].
    intros _. exists resp, data. destruct Hres as [Hlen Hall].
    split; [done|]. split; [exact Hall|]. split; [by rewrite <- Hfs|].
    rewrite Hlen, length_replicate. lia.
  - intros resp before loc after -> Hresp Hsize Hlocs Hbefore Hnone. cbn [negb].
    pose proof (DownloadFile_fst (coordinator w) remoteName) as Hm.
    destruct (server.DownloadFile (coordinator w) remoteName) as [m res];
      cbn [fst snd] in *; subst m res.
    destruct (Z.ltb_spec (pb.RespFilesize resp) 0); [lia|].
    match goal with
    | |- context [client.downloadChunks Join ?w0 ?locs ?buf] =>
        destruct (downloadChunks_effects locs w0 buf) as [_ Hres];
        destruct (client.downloadChunks Join w0 locs buf) as [w2 [data|e|]]
    end; cbn [fst snd] in *; [| |by right].
    + exfalso. destruct Hres as [_ Hall]. rewrite Hlocs in Hall.
      apply Forall_app in Hall as [_ Hall]. apply Forall_cons in Hall as [(a & Ha & Hr) _].
      change (client.readChunkFromServer Join (client.withCoordinator w (coordinator w) true)
                a (pb.ChunkHandle loc))
        with (client.readChunkFromServer Join w a (pb.ChunkHandle loc)) in Hr.
      rewrite Hnone in Hr by done. by destruct Hr.
    + left. f_equal.
      destruct Hres as (before' & loc' & after' & Hsplit & Hbefore' & -> & Hnone').
      rewrite Hlocs in Hsplit.
      assert (forall l, answered (client.withCoordinator w (coordinator w) true) l ->
                        answered w l) as Hsame by (intros l Hl; exact Hl).
      assert (forall l, (forall a, a ∈ pb.ChunkServerAddresses l ->
                           client.readChunkFromServer Join w a (pb.ChunkHandle l) = None) ->
                        ~ answered w l) as Hcontra.
      { intros l Hl (a & Ha & Hr). rewrite Hl in Hr by done. by destruct Hr. }
      clear -Hsplit Hbefore Hbefore' Hnone Hnone' Hsame Hcontra.
      revert before' Hsplit Hbefore'. induction before as [|b before IH]; intros before' Hsplit Hb'.
      * destruct before' as [|b' before']; [by injection Hsplit as <- _|].
        injection Hsplit as <- _. apply Forall_cons in Hb' as [Hb' _].
        by destruct (Hcontra loc Hnone).
      * destruct before' as [|b' before'].
        -- injection Hsplit as <- _. apply Forall_cons in Hbefore as [Hb _].
           by destruct (Hcontra b Hnone').
        -- injection Hsplit as <- Hsplit. apply Forall_cons in Hbefore as [_ Hbefore].
           apply Forall_cons in Hb' as [_ Hb']. by apply (IH Hbefore before').
Qed.

End download_further.

(** ** Uploads, further *)

Section upload_further.

Variable Join : string -> string -> string.

(** The report that an acknowledged write of [h] sets off. *)
Definition report_of (h : string) (e : event) : option (string * string) :=
  match e with
  | write_done _ serverAddr => Some (h, serverAddr)
  | _ => None
  end.

Lemma writeChunkToServer_report w serverAddr h data idx :
  let r := client.writeChunkToServer Join w serverAddr h data idx in
  pending r.1 = pending w ++ (if r.2 then [(h, serverAddr)] else []).
Proof.
  cbv zeta. unfold client.writeChunkToServer.
  destruct (nodes w !! serverAddr) as [node|]; [|by rewrite app_nil_r].
  unfold chunkserver.WriteChunk.
  destruct (chunkserver.Storage_WriteChunk Join (store node) (disk node) h data)
    as [[s' fs'] [err|]]; cbn; [by rewrite app_nil_r|done].
Qed.

Lemma writeReplicas_reports addrs h data idx :
  forall w,
    exists news,
      clientLog (client.writeReplicas Join w addrs h data idx) = clientLog w ++ news /\
      pending (client.writeReplicas Join w addrs h data idx) =
        pending w ++ omap (report_of h) news /\
      Forall (fun e => exists a, attempted e = Some a) news.
Proof.
  induction addrs as [|a addrs IH]; intros w; cbn [client.writeReplicas].
  - exists []. by rewrite !app_nil_r.
  - pose proof (writeChunkToServer_report w a h data idx) as Hrep.
    destruct (writeChunkToServer_control Join w a h data idx) as [_ Hlog].
    destruct (client.writeChunkToServer Join w a h data idx) as [w1 ok]. cbn [fst snd] in *.
    destruct ok.
    + destruct (IH (client.logged w1 (write_done idx a))) as (news & Hl & Hp & Hall).
      exists (write_done idx a :: news). rewrite Hl, Hp. cbn. rewrite Hlog, Hrep.
      rewrite <- !app_assoc. split; [done|]. split; [done|]. constructor; [eauto|done].
    + destruct (IH (client.logged w1 (write_warning a))) as (news & Hl & Hp & Hall).
      rewrite app_nil_r in Hrep.
      exists (write_warning a :: news). rewrite Hl, Hp. cbn. rewrite Hlog, Hrep.
      rewrite <- !app_assoc. split; [done|]. split; [done|].
      constructor; [eauto|done].
Qed.

(** The address of an acknowledged write. *)
Definition acknowledged_by (e : event) : option string :=
  match e with
  | write_done _ serverAddr => Some serverAddr
  | _ => None
  end.

Lemma omap_report_of_snd h news :
  (omap (report_of h) news).*2 = omap acknowledged_by news.
Proof.
  induction news as [|e news IH]; [done|].
  destruct e; cbn; by rewrite ?IH.
Qed.

Lemma uploadChunks_reports data chunkLocs :
  forall w,
    exists news reports,
      clientLog (client.uploadChunks Join w data chunkLocs).1 = clientLog w ++ news /\
      pending (client.uploadChunks Join w data chunkLocs).1 = pending w ++ reports /\
      reports.*2 = omap acknowledged_by news /\
      Forall (fun report => report.1 ∈ map pb.ChunkHandle chunkLocs) reports.
Proof.
  induction chunkLocs as [|loc locs IH]; intros w; cbn [client.uploadChunks].
  - exists [], []. by rewrite !app_nil_r.
  - unfold client.uploadChunk.
    match goal with
    | |- context [client.slice data ?a ?b] => destruct (client.slice data a b) as [chunkData|]
    end.
    2:{ exists [], []. by rewrite !app_nil_r. }
    destruct (writeReplicas_reports (pb.ChunkServerAddresses loc) (pb.ChunkHandle loc)
                chunkData (pb.ChunkIndex loc) w) as (news1 & Hl1 & Hp1 & _).
    destruct (IH (client.writeReplicas Join w (pb.ChunkServerAddresses loc)
                    (pb.ChunkHandle loc) chunkData (pb.ChunkIndex loc)))
      as (news2 & reports2 & Hl2 & Hp2 & Hsnd & Hall).
    exists (news1 ++ news2), (omap (report_of (pb.ChunkHandle loc)) news1 ++ reports2).
    rewrite Hl2, Hp2, Hl1, Hp1, <- !app_assoc. split; [done|]. split; [done|]. split.
    + by rewrite fmap_app, omap_app, omap_report_of_snd, Hsnd.
    + apply Forall_app. split.
      * apply Forall_forall. intros report Hr.
        apply list_elem_of_omap in Hr as (e & _ & He). destruct e; try done.
        cbn in He. injection He as <-. cbn. apply list_elem_of_here.
      * eapply Forall_impl; [exact Hall|]. intros report Hr. cbn.
        by apply list_elem_of_further.
Qed.

(** X20.  Every write that a data node acknowledges during an upload
    sets off one report to the coordinator, from the acknowledging
    node and for a handle of the file, and a write that fails sets off
    none: the reports in flight after the upload are the old ones
    followed by one for each "Successfully wrote" line of the client's
    log, in the same order. *)
Theorem client_UploadFile_reports rt w localPath remoteName :
  let r := client.UploadFile Join rt w localPath remoteName in
  exists news reports,
    clientLog r.1 = clientLog w ++ news /\
    pending r.1 = pending w ++ reports /\
    reports.*2 = omap acknowledged_by news /\
    forall report, report ∈ reports ->
      exists j, 0 <= j /\ report.1 = common.GenerateChunkHandle remoteName j.
Proof.
  cbv zeta. unfold client.UploadFile.
  assert (forall w0 : World, exists (news : list event) (reports : list (string * string)),
            clientLog w0 = clientLog w0 ++ news /\ pending w0 = pending w0 ++ reports /\
            reports.*2 = omap acknowledged_by news /\
            forall report, report ∈ reports ->
              exists j, 0 <= j /\ report.1 = common.GenerateChunkHandle remoteName j) as Hnone.
  { intros w0. exists [], []. rewrite !app_nil_r. repeat split.
    intros report Hr. by apply elem_of_nil in Hr. }
  destruct (os.ReadFile (localfs w) localPath) as [data|]; [|apply Hnone].
  destruct (masterUp w); cbn [negb]; [|apply Hnone].
  destruct (Z.lt_ge_cases (common.CalculateNumChunks (Z.of_nat (length data))) 0) as [Hneg|Hn].
  { rewrite UploadFile_panic by done. apply (Hnone (client.withCoordinator w _ false)). }
  rewrite UploadFile_spec by done. cbv zeta. cbv iota.
  match goal with
  | |- context [client.uploadChunks Join ?w0 data ?ls] =>
      destruct (uploadChunks_reports data ls w0) as (news & reports & Hl & Hp & Hsnd & Hall)
  end.
  exists news, reports. split; [exact Hl|]. split; [exact Hp|]. split; [exact Hsnd|].
  intros report Hr. rewrite Forall_forall in Hall. specialize (Hall report Hr).
  apply list_elem_of_fmap in Hall as (loc & Hh & Hloc).
  apply list_elem_of_fmap in Hloc as (j & -> & Hj). apply indices_elem in Hj.
  exists j. split; [lia|exact Hh].
Qed.

End upload_further.

(** ** A file that was just uploaded *)

(** Right after UploadFile the coordinator knows the file and all its
    chunks, and no location of any of them. *)
Lemma DownloadFile_after_UploadFile rt m filename filesize :
  0 <= common.CalculateNumChunks filesize ->
  exists locs,
    (server.DownloadFile (server.UploadFile rt m filename filesize).1 filename).2 =
      Ok {| pb.RespFilesize := filesize; pb.RespChunkLocation := locs |} /\
    Z.of_nat (length locs) = common.CalculateNumChunks filesize /\
    Forall (fun loc => pb.ChunkServerAddresses loc = []) locs.
Proof.
  intros Hn. rewrite UploadFile_spec by done. cbv zeta. cbn [fst].
  unfold server.DownloadFile, metadata.GetFile. cbn [files heap].
  rewrite !lookup_insert_eq. cbn [uploaded_file Chunks Filesize].
  set (js := indices 0 (Z.to_nat (common.CalculateNumChunks filesize))).
  set (m' := {| files := _; heap := _; chunks := _; chunkServers := _ |}).
  assert (Forall (fun h => is_Some (chunks m' !! h))
            (map (common.GenerateChunkHandle filename) js)) as Hall.
  { apply Forall_forall. intros h Hh. apply list_elem_of_fmap in Hh as (j & -> & Hj).
    by apply fold_add_chunk_is_Some. }
  rewrite locate_Ok by exact Hall. cbn [app snd].
  eexists. split; [reflexivity|]. split.
  - rewrite omap_located_length by exact Hall. subst js.
    rewrite length_map, indices_length. lia.
  - apply Forall_forall. intros loc Hloc.
    apply list_elem_of_omap in Hloc as (h & Hh & Hloc).
    destruct (fold_add_chunk_fresh filename js (chunks m) h Hh) as [j Hj].
    subst m'. cbn [chunks] in Hloc. rewrite Hj in Hloc. cbn in Hloc. by injection Hloc as <-.
Qed.

Section fresh_upload.

Variable Join : string -> string -> string.

(** X21.  A file is not yet readable when its upload returns: the
    coordinator learns where a chunk is only from the data nodes'
    reports, so a download of a file that is not empty, made after a
    successful upload and before any report has arrived, fails at its
    first chunk and writes nothing, though the data nodes hold the
    chunks. *)
Theorem client_DownloadFile_before_reports rt w localPath remoteName out data :
  os.ReadFile (localfs w) localPath = Some data ->
  masterUp w = true ->
  0 < Z.of_nat (length data) <= 2 ^ 31 * 67108864 ->
  let up := client.UploadFile Join rt w localPath remoteName in
  let down := client.DownloadFile Join up.1 remoteName out in
  up.2 = Ok tt /\
  (exists chunkIndex, down.2 = Err (client.download_chunk_failed chunkIndex)) /\
  localfs down.1 = localfs w.
Proof.
  intros Hread Hup Hlen. cbv zeta.
  destruct (CalculateNumChunks_ceil (Z.of_nat (length data))) as [Hn Hceil]; [lia|].
  rewrite ChunkSize_eq in Hceil.
  destruct (DownloadFile_after_UploadFile rt (coordinator w) remoteName
              (Z.of_nat (length data)) Hn) as (locs & Hdown & Hcount & Hnone).
  unfold client.UploadFile at 1 2 3. rewrite Hread, Hup. cbn [negb].
  revert Hdown. rewrite UploadFile_spec by exact Hn. cbv zeta. cbn [fst]. intros Hdown.
  match goal with
  | |- context [client.uploadChunks Join ?w0 data ?ls] =>
      destruct (uploadChunks_any Join data ls w0) as (w' & Hchunks & (Hu & Hc & Hfs) & _)
  end.
  { apply placements_cuttable. rewrite ChunkSize_eq. lia. }
  rewrite Hchunks. cbn [fst snd]. split; [done|].
  cbn [client.withCoordinator masterUp coordinator localfs] in Hu, Hc, Hfs.
  unfold client.DownloadFile. rewrite Hu, Hc. cbn [negb].
  pose proof (DownloadFile_fst
                {| files := <[remoteName:=fresh (dom (heap (coordinator w)))]>
                              (files (coordinator w));
                   heap := <[fresh (dom (heap (coordinator w))):=
                               uploaded_file rt remoteName (Z.of_nat (length data))]>
                             (heap (coordinator w));
                   chunks := fold_left (add_chunk remoteName)
                               (indices 0 (Z.to_nat (common.CalculateNumChunks
                                                       (Z.of_nat (length data)))))
                               (chunks (coordinator w));
                   chunkServers := chunkServers (coordinator w) |} remoteName) as Hm.
  destruct (server.DownloadFile _ remoteName) as [m res]. cbn [fst snd] in Hm, Hdown.
  subst m res. cbn [pb.RespFilesize pb.RespChunkLocation].
  destruct (Z.ltb_spec (Z.of_nat (length data)) 0); [lia|].
  destruct locs as [|loc locs]; [cbn in Hcount; lia|].
  apply Forall_cons in Hnone as [Hnone _].
  cbn [client.downloadChunks]. unfold client.downloadChunk. rewrite Hnone.
  cbn [client.readReplicas fst snd client.withCoordinator localfs].
  split; [eauto|exact Hfs].
Qed.

End fresh_upload.

Lemma client_DownloadFile_before_reports_witness :
  let up := client.UploadFile join0 rt1 world1 "hello.txt" "h.txt" in
  let down := client.DownloadFile join0 up.1 "h.txt" "out.txt" in
  os.ReadFile (localfs world1) "hello.txt" = Some hello /\
  masterUp world1 = true /\
  0 < Z.of_nat (length hello) <= 2 ^ 31 * 67108864 /\
  up.2 = Ok tt /\
  (exists chunkIndex, down.2 = Err (client.download_chunk_failed chunkIndex)) /\
  localfs down.1 = localfs world1.
Proof.
  cbv zeta.
  assert (0 < Z.of_nat (length hello) <= 2 ^ 31 * 67108864) as Hlen by (cbn; lia).
  split; [vm_compute; reflexivity|]. split; [reflexivity|]. split; [exact Hlen|].
  apply (client_DownloadFile_before_reports join0 rt1 world1 "hello.txt" "h.txt" "out.txt" hello);
    [vm_compute; reflexivity|reflexivity|exact Hlen].
Defined.

(** ** How the client cuts a file *)

Lemma indices_snoc n : forall i, indices i (S n) = indices i n ++ [i + Z.of_nat n].
Proof.
  induction n as [|n IH]; intros i.
  - cbn. by rewrite Z.add_0_r.
  - cbn [indices] in *. rewrite IH. cbn. do 3 f_equal. lia.
Qed.

Lemma concat_chunks (data : list byte) (k : nat) :
  (Z.of_nat k - 1) * common.ChunkSize < Z.of_nat (length data) \/ k = O ->
  concat (map (chunk_of data) (indices 0 k)) =
    take (Z.to_nat (Z.min (Z.of_nat k * common.ChunkSize) (Z.of_nat (length data)))) data.
Proof.
  rewrite ChunkSize_eq. induction k as [|k IH]; intros Hk.
  - cbn [indices map concat]. by rewrite Z.mul_0_l, Z.min_l, take_0 by lia.
  - rewrite indices_snoc, map_app, concat_app, IH by (destruct k; [by right|left; lia]).
    cbn [map concat]. rewrite app_nil_r, Z.add_0_l. unfold chunk_of. cbv zeta.
    rewrite ChunkSize_eq.
    rewrite (Z.min_l (Z.of_nat k * 67108864)) by lia.
    rewrite take_take_drop. f_equal. lia.
Qed.

(** X22.  The chunks that uploadChunk cuts from a file of fewer than
    2^62 bytes for the indices 0 to CalculateNumChunks(len) - 1 are a
    partition of the file: the slice never panics, every chunk but the
    last has exactly 67,108,864 bytes, the last has from 1 to
    67,108,864, and the chunks in order of their indices make up the
    file. *)
Theorem uploadChunk_cuts_partition (data : list byte) :
  Z.of_nat (length data) < 2 ^ 62 ->
  let n := common.CalculateNumChunks (Z.of_nat (length data)) in
  (forall j, 0 <= j < n ->
     client.slice data (common.wrap64 (j * common.ChunkSize))
       (Z.min (common.wrap64 (common.wrap64 (j * common.ChunkSize) + common.ChunkSize))
              (Z.of_nat (length data)))
       = Some (chunk_of data j) /\
     0 < Z.of_nat (length (chunk_of data j)) <= 67108864 /\
     (j < n - 1 -> Z.of_nat (length (chunk_of data j)) = 67108864)) /\
  concat (map (chunk_of data) (indices 0 (Z.to_nat n))) = data.
Proof.
  intros Hlen. cbv zeta.
  destruct (CalculateNumChunks_ceil (Z.of_nat (length data))) as [Hn Hceil]; [lia|].
  rewrite ChunkSize_eq in *. split.
  - intros j Hj.
    set (loc := {| pb.ChunkHandle := ""; pb.ChunkServerAddresses := [];
                   pb.ChunkIndex := j |}).
    assert (cuttable data loc) as Hcut.
    { unfold cuttable, loc. cbn [pb.ChunkIndex]. rewrite ChunkSize_eq. nia. }
    destruct (slice_cuttable data loc Hcut) as [_ Hslice].
    cbn [pb.ChunkIndex loc] in Hslice. rewrite ChunkSize_eq in Hslice.
    split; [exact Hslice|].
    unfold chunk_of. cbv zeta. rewrite ChunkSize_eq, length_take, length_drop. lia.
  - rewrite concat_chunks.
    + rewrite ChunkSize_eq, Z2Nat.id, Z.min_r, Nat2Z.id by lia. apply firstn_all.
    + rewrite ChunkSize_eq, Z2Nat.id by lia.
      destruct (Z.to_nat (common.CalculateNumChunks (Z.of_nat (length data)))) eqn:Hz;
        [by right|left]. lia.
Qed.

Lemma uploadChunk_cuts_partition_witness :
  Z.of_nat (length hello) < 2 ^ 62 /\
  (forall j, 0 <= j < common.CalculateNumChunks (Z.of_nat (length hello)) ->
     client.slice hello (common.wrap64 (j * common.ChunkSize))
       (Z.min (common.wrap64 (common.wrap64 (j * common.ChunkSize) + common.ChunkSize))
              (Z.of_nat (length hello)))
       = Some (chunk_of hello j) /\
     0 < Z.of_nat (length (chunk_of hello j)) <= 67108864 /\
     (j < common.CalculateNumChunks (Z.of_nat (length hello)) - 1 ->
      Z.of_nat (length (chunk_of hello j)) = 67108864)) /\
  concat (map (chunk_of hello)
            (indices 0 (Z.to_nat (common.CalculateNumChunks (Z.of_nat (length hello))))))
    = hello.
Proof.
  assert (Z.of_nat (length hello) < 2 ^ 62) as Hlen by (cbn; lia).
  split; [exact Hlen|]. exact (uploadChunk_cuts_partition hello Hlen).
Defined.

(** ** Listing after an upload *)

Lemma run_app reqs1 :
  forall m reqs2,
    run m (reqs1 ++ reqs2) = match run m reqs1 with Some m1 => run m1 reqs2 | None => None end.
Proof.
  induction reqs1 as [|req reqs1 IH]; intros m reqs2; cbn [app run]; [done|].
  destruct (serve m req); [apply IH|done].
Qed.

Section listing.

Variable Join : string -> string -> string.

(** X23.  Once an upload has returned, the file is listed: ListFiles
    shows the remote name exactly once, with the length of the local
    file as its size and the number of its chunks, whether or not any
    data node has stored a chunk. *)
Theorem Client_ListFiles_after_UploadFile reqs rt w localPath remoteName data keys :
  run metadata.NewMetadata reqs = Some (coordinator w) ->
  os.ReadFile (localfs w) localPath = Some data ->
  masterUp w = true ->
  Z.of_nat (length data) <= 2 ^ 31 * 67108864 ->
  let up := client.UploadFile Join rt w localPath remoteName in
  keys ≡ₚ (map_to_list (files (coordinator up.1))).*1 ->
  up.2 = Ok tt /\
  exists infos,
    (Client_ListFiles up.1 keys).2 = Ok infos /\
    NoDup (map pb.Filename infos) /\
    {| pb.Filename := remoteName;
       pb.Filesize := Z.of_nat (length data);
       pb.NumChunks :=
         common.int32 (common.CalculateNumChunks (Z.of_nat (length data))) |} ∈ infos.
Proof.
  intros Hrun Hread Hup Hlen. cbv zeta.
  destruct (CalculateNumChunks_ceil (Z.of_nat (length data))) as [Hn _]; [lia|].
  assert (consistent (server.UploadFile rt (coordinator w) remoteName
                        (Z.of_nat (length data))).1) as Hcons.
  { apply consistent_UploadFile; [|done].
    by apply (consistent_run reqs _ _ consistent_NewMetadata Hrun). }
  unfold client.UploadFile. rewrite Hread, Hup. cbn [negb].
  revert Hcons. rewrite UploadFile_spec by exact Hn. cbv zeta. cbn [fst]. intros Hcons.
  match goal with
  | |- context [client.uploadChunks Join ?w0 data ?ls] =>
      destruct (uploadChunks_any Join data ls w0) as (w' & Hchunks & (Hu & Hc & Hfs) & _)
  end.
  { apply placements_cuttable. rewrite ChunkSize_eq. lia. }
  rewrite Hchunks. cbn [fst snd]. intros Hperm. split; [done|].
  cbn [client.withCoordinator masterUp coordinator] in Hu, Hc.
  unfold Client_ListFiles. rewrite Hu, Hc in *. cbn [negb].
  destruct (consistent_ListFiles _ keys Hcons Hperm)
    as (infos & Hlist & _ & Hnames & Hnd & Hinfos).
  rewrite Hlist. cbn [snd]. exists infos. split; [done|]. split; [done|].
  assert (remoteName ∈ keys) as Hkey.
  { rewrite Hperm. apply list_elem_of_fmap.
    exists (remoteName, fresh (dom (heap (coordinator w)))). split; [done|].
    apply elem_of_map_to_list. cbn [files]. apply lookup_insert_eq. }
  rewrite <- Hnames in Hkey. apply list_elem_of_fmap in Hkey as (info & Hname & Hin).
  destruct (Hinfos info Hin) as (p & file & Hp & Hfile & Hsize & Hcount).
  rewrite <- Hname in Hp. cbn [files heap] in Hp, Hfile.
  rewrite lookup_insert_eq in Hp. injection Hp as <-.
  rewrite lookup_insert_eq in Hfile. injection Hfile as <-.
  cbn [uploaded_file Filesize] in Hsize, Hcount.
  destruct info as [name size count]. cbn in Hname, Hsize, Hcount. by subst.
Qed.

End listing.

Lemma Client_ListFiles_after_UploadFile_witness :
  let up := client.UploadFile join0 rt1 world1 "hello.txt" "h.txt" in
  run metadata.NewMetadata [HeartbeatRequest 0 "localhost:9001" []]
    = Some (coordinator world1) /\
  os.ReadFile (localfs world1) "hello.txt" = Some hello /\
  masterUp world1 = true /\
  Z.of_nat (length hello) <= 2 ^ 31 * 67108864 /\
  ["h.txt"] ≡ₚ (map_to_list (files (coordinator up.1))).*1 /\
  up.2 = Ok tt /\
  exists infos,
    (Client_ListFiles up.1 ["h.txt"]).2 = Ok infos /\
    NoDup (map pb.Filename infos) /\
    {| pb.Filename := "h.txt";
       pb.Filesize := Z.of_nat (length hello);
       pb.NumChunks :=
         common.int32 (common.CalculateNumChunks (Z.of_nat (length hello))) |} ∈ infos.
Proof.
  cbv zeta.
  assert (Z.of_nat (length hello) <= 2 ^ 31 * 67108864) as Hlen by (cbn; lia).
  assert (["h.txt"] ≡ₚ
            (map_to_list
               (files (coordinator
                  (client.UploadFile join0 rt1 world1 "hello.txt" "h.txt").1))).*1) as Hperm.
  { vm_compute. reflexivity. }
  split; [vm_compute; reflexivity|]. split; [vm_compute; reflexivity|].
  split; [reflexivity|]. split; [exact Hlen|]. split; [exact Hperm|].
  apply (Client_ListFiles_after_UploadFile join0 [HeartbeatRequest 0 "localhost:9001" []]
           rt1 world1 "hello.txt" "h.txt" hello ["h.txt"]);
    [vm_compute; reflexivity|vm_compute; reflexivity|reflexivity|exact Hlen|exact Hperm].
Defined.

(** ** Reports, in any order *)

Lemma AddChunkLocation_unknown m h0 a0 h :
  chunks m !! h = None -> chunks (metadata.AddChunkLocation m h0 a0) !! h = None.
Proof.
  intros Hh. unfold metadata.AddChunkLocation.
  destruct (chunks m !! h0) as [c0|] eqn:Hc0; [|done].
  destruct (bool_decide (a0 ∈ Locations c0)); [done|].
  cbn [chunks]. rewrite lookup_insert_ne; [done|]. congruence.
Qed.

Lemma fold_deliver_unknown reports :
  forall w h,
    chunks (coordinator w) !! h = None ->
    chunks (coordinator (fold_left deliver reports w)) !! h = None.
Proof.
  induction reports as [|[h0 a0] reports IH]; intros w h Hh; cbn [fold_left]; [done|].
  apply IH. unfold deliver. cbn [coordinator fst snd server.ReportChunk].
  destruct (masterUp w); [by apply AddChunkLocation_unknown|done].
Qed.

(** X24.  The order in which the data nodes' reports reach the
    coordinator does not matter, nor does it matter how often a report
    arrives: two batches that hold the same reports leave, for every
    chunk the coordinator knows, the same set of locations, and both
    drop the reports for handles it does not know. *)
Theorem settle_any_order w reports1 reports2 h :
  masterUp w = true ->
  (forall report, report ∈ reports1 <-> report ∈ reports2) ->
  match chunks (coordinator w) !! h with
  | Some c =>
      exists c1 c2,
        chunks (coordinator (settle w reports1)) !! h = Some c1 /\
        chunks (coordinator (settle w reports2)) !! h = Some c2 /\
        (forall a, a ∈ Locations c1 <-> a ∈ Locations c2) /\
        (forall a, a ∈ Locations c1 <-> a ∈ Locations c \/ (h, a) ∈ reports1)
  | None =>
      chunks (coordinator (settle w reports1)) !! h = None /\
      chunks (coordinator (settle w reports2)) !! h = None
  end.
Proof.
  intros Hup Hsame. destruct (chunks (coordinator w) !! h) as [c|] eqn:Hc.
  - destruct (settle_spec reports1 w Hup) as (_ & _ & _ & _ & _ & H1).
    destruct (settle_spec reports2 w Hup) as (_ & _ & _ & _ & _ & H2).
    destruct (H1 h c Hc) as (c1 & Hc1 & _ & Hl1).
    destruct (H2 h c Hc) as (c2 & Hc2 & _ & Hl2).
    exists c1, c2. split; [done|]. split; [done|]. split; [|done].
    intros a. rewrite Hl1, Hl2, Hsame. done.
  - unfold settle. cbn [coordinator]. split; by apply fold_deliver_unknown.
Qed.

Lemma settle_any_order_witness :
  let up := client.UploadFile join0 rt2 world2 "hello.txt" "h.txt" in
  let h := "0bcc17403e59c64cbfc330d225411cc6" in
  let reports1 := [(h, "localhost:9001"); (h, "localhost:9002")] in
  let reports2 := [(h, "localhost:9002"); (h, "localhost:9001"); (h, "localhost:9002")] in
  masterUp up.1 = true /\
  (forall report, report ∈ reports1 <-> report ∈ reports2) /\
  match chunks (coordinator up.1) !! h with
  | Some c =>
      exists c1 c2,
        chunks (coordinator (settle up.1 reports1)) !! h = Some c1 /\
        chunks (coordinator (settle up.1 reports2)) !! h = Some c2 /\
        (forall a, a ∈ Locations c1 <-> a ∈ Locations c2) /\
        (forall a, a ∈ Locations c1 <-> a ∈ Locations c \/ (h, a) ∈ reports1)
  | None =>
      chunks (coordinator (settle up.1 reports1)) !! h = None /\
      chunks (coordinator (settle up.1 reports2)) !! h = None
  end.
Proof.
  cbv zeta.
  assert (forall report : string * string,
            report ∈ [("0bcc17403e59c64cbfc330d225411cc6", "localhost:9001");
                      ("0bcc17403e59c64cbfc330d225411cc6", "localhost:9002")] <->
            report ∈ [("0bcc17403e59c64cbfc330d225411cc6", "localhost:9002");
                      ("0bcc17403e59c64cbfc330d225411cc6", "localhost:9001");
                      ("0bcc17403e59c64cbfc330d225411cc6", "localhost:9002")]) as Hsame.
  { intros report. rewrite !elem_of_cons, !elem_of_nil. tauto. }
  split; [vm_compute; reflexivity|]. split; [exact Hsame|].
  apply (settle_any_order (client.UploadFile join0 rt2 world2 "hello.txt" "h.txt").1
           _ _ "0bcc17403e59c64cbfc330d225411cc6"); [vm_compute; reflexivity|exact Hsame].
Defined.

(** ** Uploading a name again *)

(** X25.  UploadFile of a name replaces what the coordinator knew of
    it: in any state, also one in which the name had been uploaded and
    its chunks reported, a DownloadFile right after it answers with the
    new size and CalculateNumChunks(size) locations, none of which names
    a data node; the chunk records under other handles are as before. *)
Theorem UploadFile_replaces rt m filename filesize :
  0 <= filesize < 2 ^ 63 ->
  let m' := (server.UploadFile rt m filename filesize).1 in
  (exists locs,
     (server.DownloadFile m' filename).2 =
       Ok {| pb.RespFilesize := filesize; pb.RespChunkLocation := locs |} /\
     Z.of_nat (length locs) = common.CalculateNumChunks filesize /\
     Forall (fun loc => pb.ChunkServerAddresses loc = []) locs) /\
  (forall h, (forall j, 0 <= j < common.CalculateNumChunks filesize ->
                common.GenerateChunkHandle filename j <> h) ->
     chunks m' !! h = chunks m !! h).
Proof.
  intros Hs. cbv zeta.
  destruct (CalculateNumChunks_ceil filesize Hs) as [Hn _].
  split; [by apply DownloadFile_after_UploadFile|].
  intros h Hh. rewrite UploadFile_spec by exact Hn. cbv zeta. cbn [fst chunks].
  apply fold_add_chunk_other. intros Hin.
  apply list_elem_of_fmap in Hin as (j & -> & Hj). apply indices_elem in Hj.
  apply (Hh j); [lia|done].
Qed.

Lemma UploadFile_replaces_witness :
  let m' := (server.UploadFile rt0 served_state "b" 5).1 in
  0 <= 5 < 2 ^ 63 /\
  (exists locs,
     (server.DownloadFile m' "b").2 =
       Ok {| pb.RespFilesize := 5; pb.RespChunkLocation := locs |} /\
     Z.of_nat (length locs) = common.CalculateNumChunks 5 /\
     Forall (fun loc => pb.ChunkServerAddresses loc = []) locs) /\
  (forall h, (forall j, 0 <= j < common.CalculateNumChunks 5 ->
                common.GenerateChunkHandle "b" j <> h) ->
     chunks m' !! h = chunks served_state !! h).
Proof.
  split; [lia|]. apply (UploadFile_replaces rt0 served_state "b" 5). lia.
Defined.

(** ** Which replica is read *)

Section first_answer.

Variable Join : string -> string -> string.

(** X26.  downloadChunk takes the chunk from the first replica, in the
    order of the coordinator's list, that answers, and asks no further:
    the replicas before it each leave a warning in the log, the one that
    answers leaves the line of success, and what the replicas after it
    hold, equal or not, is never looked at. *)
Theorem downloadChunk_first_answer w loc before a after data :
  pb.ChunkServerAddresses loc = before ++ a :: after ->
  (forall b, b ∈ before ->
     client.readChunkFromServer Join w b (pb.ChunkHandle loc) = None) ->
  client.readChunkFromServer Join w a (pb.ChunkHandle loc) = Some data ->
  exists w',
    client.downloadChunk Join w loc = (w', Some data) /\
    clientLog w' = clientLog w ++ map read_warning before ++ [read_done (pb.ChunkIndex loc) a] /\
    masterUp w' = masterUp w /\ coordinator w' = coordinator w /\ nodes w' = nodes w /\
    pending w' = pending w /\ localfs w' = localfs w.
Proof.
  unfold client.downloadChunk. intros -> Hnone Hread.
  revert w Hnone Hread. induction before as [|b before IH]; intros w Hnone Hread.
  - cbn [app client.readReplicas]. rewrite Hread. eexists. split; [reflexivity|]. done.
  - cbn [app client.readReplicas]. rewrite (Hnone b) by apply list_elem_of_here.
    destruct (IH (client.logged w (read_warning b))) as (w' & Hrr & Hlog & Hrest).
    + intros b' Hb'.
      change (client.readChunkFromServer Join (client.logged w (read_warning b)) b'
                (pb.ChunkHandle loc))
        with (client.readChunkFromServer Join w b' (pb.ChunkHandle loc)).
      apply Hnone. by apply list_elem_of_further.
    + exact Hread.
    + exists w'. split; [exact Hrr|]. split; [|exact Hrest].
      rewrite Hlog. cbn. by rewrite <- app_assoc.
Qed.

End first_answer.

Lemma downloadChunk_first_answer_witness :
  let up := client.UploadFile join0 rt2 world2 "hello.txt" "h.txt" in
  let later := unplug (settle up.1 (pending up.1)) {[ "localhost:9001" ]} in
  let loc := {| pb.ChunkHandle := "0bcc17403e59c64cbfc330d225411cc6";
                pb.ChunkServerAddresses := ["localhost:9001"; "localhost:9002"];
                pb.ChunkIndex := 0 |} in
  pb.ChunkServerAddresses loc = ["localhost:9001"] ++ "localhost:9002" :: [] /\
  (forall b, b ∈ ["localhost:9001"] ->
     client.readChunkFromServer join0 later b (pb.ChunkHandle loc) = None) /\
  client.readChunkFromServer join0 later "localhost:9002" (pb.ChunkHandle loc) = Some hello /\
  exists w',
    client.downloadChunk join0 later loc = (w', Some hello) /\
    clientLog w' = clientLog later ++ map read_warning ["localhost:9001"]
                     ++ [read_done (pb.ChunkIndex loc) "localhost:9002"] /\
    masterUp w' = masterUp later /\ coordinator w' = coordinator later /\
    nodes w' = nodes later /\ pending w' = pending later /\ localfs w' = localfs later.
Proof.
  cbv zeta.
  set (later := unplug _ _). set (loc := {| pb.ChunkHandle := _ |}).
  assert (forall b, b ∈ ["localhost:9001"] ->
            client.readChunkFromServer join0 later b (pb.ChunkHandle loc) = None) as Hnone.
  { intros b Hb. apply list_elem_of_singleton in Hb as ->. vm_compute. reflexivity. }
  assert (client.readChunkFromServer join0 later "localhost:9002" (pb.ChunkHandle loc)
          = Some hello) as Hread by (vm_compute; reflexivity).
  split; [reflexivity|]. split; [exact Hnone|]. split; [exact Hread|].
  exact (downloadChunk_first_answer join0 later loc ["localhost:9001"] "localhost:9002" []
           hello eq_refl Hnone Hread).
Defined.

(** ** Chunk records *)

(** X27.  Whatever requests the coordinator has served, every chunk
    record is kept under its own handle, has version 1, for no request
    changes a version, names a file and an index of which its handle is
    the handle, and lists no address twice. *)
Theorem run_chunk_records reqs m h c :
  run metadata.NewMetadata reqs = Some m ->
  chunks m !! h = Some c ->
  ChunkHandle c = h /\ Version c = 1 /\ NoDup (Locations c) /\
  exists j, 0 <= j /\ h = common.GenerateChunkHandle (ChunkFilename c) j /\
            ChunkIndex c = common.int32 j.
Proof.
  intros Hrun Hc.
  destruct (consistent_run reqs _ _ consistent_NewMetadata Hrun) as (_ & Hchunks & _).
  destruct (Hchunks h c Hc) as (Hh & Hv & Hj).
  split; [done|]. split; [done|]. split; [|done].
  by apply (run_locations_NoDup reqs m Hrun h).
Qed.

Lemma run_chunk_records_witness :
  let h := common.GenerateChunkHandle "b" 1 in
  let c := metadata.appendLocation "localhost:9001" (fresh_chunk "b" 1) in
  run metadata.NewMetadata served_requests = Some served_state /\
  chunks served_state !! h = Some c /\
  ChunkHandle c = h /\ Version c = 1 /\ NoDup (Locations c) /\
  exists j, 0 <= j /\ h = common.GenerateChunkHandle (ChunkFilename c) j /\
            ChunkIndex c = common.int32 j.
Proof.
  cbv zeta. split; [exact run_served_requests|]. split; [vm_compute; reflexivity|].
  apply (run_chunk_records served_requests served_state);
    [exact run_served_requests|vm_compute; reflexivity].
Defined.

(** ** What a client can do to the coordinator *)

Section coordinator_stays_up.

Variable Join : string -> string -> string.

Lemma uploadChunks_control data chunkLocs :
  forall w, same_control w (client.uploadChunks Join w data chunkLocs).1.
Proof.
  induction chunkLocs as [|loc locs IH]; intros w; cbn [client.uploadChunks]; [done|].
  unfold client.uploadChunk.
  match goal with
  | |- context [client.slice data ?a ?b] => destruct (client.slice data a b) as [chunkData|]
  end; [|done].
  destruct (writeReplicas_log Join (pb.ChunkServerAddresses loc) (pb.ChunkHandle loc)
              chunkData (pb.ChunkIndex loc) w) as [(Hu & Hc & Hfs) _].
  destruct (IH (client.writeReplicas Join w (pb.ChunkServerAddresses loc)
                  (pb.ChunkHandle loc) chunkData (pb.ChunkIndex loc))) as (Hu' & Hc' & Hfs').
  unfold same_control. by rewrite Hu', Hc', Hfs'.
Qed.

(** X28.  The client cannot stop the coordinator.  From any state that
    the coordinator has reached, an upload of a local file (of fewer
    than 2^63 bytes), a download and a listing each leave the
    coordinator running, whatever they return; the download and the
    listing leave its metadata as it was, and the upload leaves it in a
    state that serving requests reaches. *)
Theorem client_keeps_coordinator_up reqs w :
  run metadata.NewMetadata reqs = Some (coordinator w) ->
  masterUp w = true ->
  (forall rt localPath remoteName,
     (forall data, os.ReadFile (localfs w) localPath = Some data ->
                   Z.of_nat (length data) < 2 ^ 63) ->
     let w' := (client.UploadFile Join rt w localPath remoteName).1 in
     masterUp w' = true /\
     exists reqs', run metadata.NewMetadata reqs' = Some (coordinator w')) /\
  (forall remoteName localPath,
     let w' := (client.DownloadFile Join w remoteName localPath).1 in
     masterUp w' = true /\ coordinator w' = coordinator w) /\
  (forall keys,
     let w' := (Client_ListFiles w keys).1 in
     masterUp w' = true /\ coordinator w' = coordinator w).
Proof.
  intros Hrun Hup.
  pose proof (consistent_run reqs _ _ consistent_NewMetadata Hrun) as Hcons.
  split; [|split].
  - intros rt localPath remoteName Hlen. cbv zeta. unfold client.UploadFile.
    destruct (os.ReadFile (localfs w) localPath) as [data|]; [|eauto].
    rewrite Hup. cbn [negb].
    destruct (CalculateNumChunks_ceil (Z.of_nat (length data))) as [Hn _];
      [specialize (Hlen data eq_refl); lia|].
    assert (run metadata.NewMetadata
              (reqs ++ [UploadFileRequest rt remoteName (Z.of_nat (length data))])
            = Some (server.UploadFile rt (coordinator w) remoteName
                      (Z.of_nat (length data))).1) as Hrun'.
    { rewrite run_app, Hrun. cbn [run serve]. by rewrite UploadFile_spec by exact Hn. }
    revert Hrun'. rewrite UploadFile_spec by exact Hn. cbv zeta. cbv iota. cbn [fst].
    intros Hrun'.
    match goal with
    | |- context [client.uploadChunks Join ?w0 data ?ls] =>
        destruct (uploadChunks_control data ls w0) as (Hu & Hc & _)
    end.
    cbn [client.withCoordinator masterUp coordinator] in Hu, Hc.
    rewrite Hu, Hc. eauto.
  - intros remoteName localPath. cbv zeta. unfold client.DownloadFile.
    rewrite Hup. cbn [negb].
    destruct Hcons as (Hfiles & _ & _).
    pose proof (DownloadFile_fst (coordinator w) remoteName) as Hm.
    assert ((server.DownloadFile (coordinator w) remoteName).2 <> Panic) as Hnp.
    { unfold server.DownloadFile, metadata.GetFile.
      destruct (files (coordinator w) !! remoteName) as [p|] eqn:Hp; [|done].
      destruct (Hfiles remoteName p Hp) as (file & Hfile & _ & Hhandles).
      rewrite Hfile, locate_Ok by by apply Forall_forall. done. }
    destruct (server.DownloadFile (coordinator w) remoteName) as [m [resp|e|]];
      cbn [fst snd] in Hm, Hnp; subst m; [|done|done].
    destruct (pb.RespFilesize resp <? 0); [done|].
    match goal with
    | |- context [client.downloadChunks Join ?w0 ?locs ?buf] =>
        destruct (downloadChunks_effects Join locs w0 buf) as [(Hu & Hc & _) _];
        destruct (client.downloadChunks Join w0 locs buf) as [w2 [data|e|]]
    end; cbn [fst snd client.withCoordinator masterUp coordinator] in *; [|done|done].
    by destruct (os.WriteFile (localfs w2) localPath data).
  - intros keys. cbv zeta. unfold Client_ListFiles, server.ListFiles, metadata.ListFiles.
    rewrite Hup. cbn [negb]. destruct Hcons as (Hfiles & _ & _).
    rewrite describe_Ok; [done|].
    apply Forall_forall. intros p Hp. apply list_elem_of_omap in Hp as (name & _ & Hp).
    destruct (Hfiles name p Hp) as (file & Hfile & _). eauto.
Qed.

End coordinator_stays_up.

Lemma client_keeps_coordinator_up_witness :
  run metadata.NewMetadata [HeartbeatRequest 0 "localhost:9001" []]
    = Some (coordinator world1) /\
  masterUp world1 = true /\
  (forall rt localPath remoteName,
     (forall data, os.ReadFile (localfs world1) localPath = Some data ->
                   Z.of_nat (length data) < 2 ^ 63) ->
     let w' := (client.UploadFile join0 rt world1 localPath remoteName).1 in
     masterUp w' = true /\
     exists reqs', run metadata.NewMetadata reqs' = Some (coordinator w')) /\
  (forall remoteName localPath,
     let w' := (client.DownloadFile join0 world1 remoteName localPath).1 in
     masterUp w' = true /\ coordinator w' = coordinator world1) /\
  (forall keys,
     let w' := (Client_ListFiles world1 keys).1 in
     masterUp w' = true /\ coordinator w' = coordinator world1).
Proof.
  split; [vm_compute; reflexivity|]. split; [reflexivity|].
  apply (client_keeps_coordinator_up join0 [HeartbeatRequest 0 "localhost:9001" []] world1);
    [vm_compute; reflexivity|reflexivity].
Defined.
